(** * Random Jump Consistent Hashing with bounded loads

    A shallow embedding of the class [RandomJumpConsistentHashing] of
    [RandomJumpConsistentHashing.py] and the properties of its ring, its
    servers and its objects.

    Python integers are [Z].  A Python [dict] is an insertion-ordered
    association list ([Dict.t]): the order of its keys is what
    [list(d.keys())] hands to [np.random.choice] and [np.random.shuffle].
    A Python [set] is a [gset Z].  The numpy array [serversArray] of length
    [2**20], filled with [-1], is a finite map holding the slots that were
    written, read through [array_get] with numpy's index rules.  The numpy
    random stream is a function [rng : nat -> Z] of raw draws together with
    the number of draws consumed so far; a draw for the range [0, n) is the
    next raw draw reduced modulo [n].  Loops that the source leaves
    unbounded ([while]) and the recursion of [fillBinOne] take fuel. *)

(** The measurements of the class and the class [RandomJumpCHSimple] of the
    same file (module [Simple], with a world of its own) follow the same
    conventions. *)

From Stdlib Require Import ZArith QArith Qround.
From Stdlib Require Import HexString.
From stdpp Require Import base gmap sets list strings.

#[local] Close Scope Q_scope.
#[local] Open Scope Z_scope.

(** ** Python dictionaries *)

Module Dict.

Definition t (V : Type) : Type := list (Z * V).

Section ops.
Context {V : Type}.

Fixpoint get (k : Z) (d : t V) : option V :=
  match d with
  | [] => None
  | (k', v) :: d' => if decide (k' = k) then Some v else get k d'
  end.

(** [d[k] = v]: an existing key keeps its position, a new one goes last. *)
Fixpoint set (k : Z) (v : V) (d : t V) : t V :=
  match d with
  | [] => [(k, v)]
  | (k', v') :: d' =>
      if decide (k' = k) then (k', v) :: d' else (k', v') :: set k v d'
  end.

(** [d.pop(k)] on a present key. *)
Fixpoint pop (k : Z) (d : t V) : t V :=
  match d with
  | [] => []
  | (k', v') :: d' => if decide (k' = k) then d' else (k', v') :: pop k d'
  end.

Definition keys (d : t V) : list Z := d.*1.

Definition values (d : t V) : list V := d.*2.

(** [{i: v for i in ks}] *)
Definition of_keys (ks : list Z) (v : V) : t V := (λ k, (k, v)) <$> ks.

End ops.
End Dict.

(** [range(n)] *)
Definition range (n : Z) : list Z := Z.of_nat <$> seq 0 (Z.to_nat n).

(** ** The object and its environment *)

Record RJCH : Type := mkRJCH {
  serversCount : Z;
  totalServersAndPastCount : Z;
  duplicatesCount : Z;
  objectsCount : Z;
  totalObjectsAndPastCount : Z;
  epsilon : Q;
  loadCap : Z;
  totalFull : Z;
  servers : Dict.t Z;
  fullFlag : Dict.t bool;
  serversToIdx : Dict.t (list Z);
  serversArray : gmap Z Z;
  serversArrayLen : Z;
  serversContains : Dict.t (gset Z);
  objectsHistory : Dict.t (list Z);
  objectsCurrent : Dict.t Z
}.

(** What an operation runs in: the object, the number of draws taken from
    the random stream, and a ghost log of the servers for which [fillBinOne]
    started to search a mover (the source does not keep it; nothing reads
    it). *)
Record world : Type := mkWorld {
  self : RJCH;
  drawn : nat;
  searches : list Z
}.

Inductive exn : Type := ValueError | KeyError | IndexError | ZeroDivisionError.

Inductive result (A : Type) : Type :=
  | Ok (a : A) (w : world)
  | Raise (e : exn) (w : world)
  | OutOfFuel.
Arguments Ok {A} a w.
Arguments Raise {A} e w.
Arguments OutOfFuel {A}.

Definition M (A : Type) : Type := world → result A.

#[global] Instance M_ret : MRet M := λ A a w, Ok a w.

#[global] Instance M_bind : MBind M := λ A B k m w,
  match m w with
  | Ok a w' => k a w'
  | Raise e w' => Raise e w'
  | OutOfFuel => OutOfFuel
  end.

Definition raise {A} (e : exn) : M A := λ w, Raise e w.

Definition out_of_fuel {A} : M A := λ _, OutOfFuel.

Definition get_self : M RJCH := λ w, Ok (self w) w.

Definition modify (f : RJCH → RJCH) : M unit := λ w,
  Ok tt (mkWorld (f (self w)) (drawn w) (searches w)).

Definition of_option {A} (e : exn) (o : option A) : M A :=
  match o with Some a => mret a | None => raise e end.

(** Field updates. *)
Definition set_objectsCount (v : Z) (s : RJCH) : RJCH :=
  mkRJCH (serversCount s) (totalServersAndPastCount s) (duplicatesCount s) v
    (totalObjectsAndPastCount s) (epsilon s) (loadCap s) (totalFull s)
    (servers s) (fullFlag s) (serversToIdx s) (serversArray s)
    (serversArrayLen s) (serversContains s) (objectsHistory s)
    (objectsCurrent s).
Definition set_totalObjectsAndPastCount (v : Z) (s : RJCH) : RJCH :=
  mkRJCH (serversCount s) (totalServersAndPastCount s) (duplicatesCount s)
    (objectsCount s) v (epsilon s) (loadCap s) (totalFull s)
    (servers s) (fullFlag s) (serversToIdx s) (serversArray s)
    (serversArrayLen s) (serversContains s) (objectsHistory s)
    (objectsCurrent s).
Definition set_totalFull (v : Z) (s : RJCH) : RJCH :=
  mkRJCH (serversCount s) (totalServersAndPastCount s) (duplicatesCount s)
    (objectsCount s) (totalObjectsAndPastCount s) (epsilon s) (loadCap s) v
    (servers s) (fullFlag s) (serversToIdx s) (serversArray s)
    (serversArrayLen s) (serversContains s) (objectsHistory s)
    (objectsCurrent s).
Definition set_servers (v : Dict.t Z) (s : RJCH) : RJCH :=
  mkRJCH (serversCount s) (totalServersAndPastCount s) (duplicatesCount s)
    (objectsCount s) (totalObjectsAndPastCount s) (epsilon s) (loadCap s)
    (totalFull s) v (fullFlag s) (serversToIdx s) (serversArray s)
    (serversArrayLen s) (serversContains s) (objectsHistory s)
    (objectsCurrent s).
Definition set_fullFlag (v : Dict.t bool) (s : RJCH) : RJCH :=
  mkRJCH (serversCount s) (totalServersAndPastCount s) (duplicatesCount s)
    (objectsCount s) (totalObjectsAndPastCount s) (epsilon s) (loadCap s)
    (totalFull s) (servers s) v (serversToIdx s) (serversArray s)
    (serversArrayLen s) (serversContains s) (objectsHistory s)
    (objectsCurrent s).
Definition set_serversToIdx (v : Dict.t (list Z)) (s : RJCH) : RJCH :=
  mkRJCH (serversCount s) (totalServersAndPastCount s) (duplicatesCount s)
    (objectsCount s) (totalObjectsAndPastCount s) (epsilon s) (loadCap s)
    (totalFull s) (servers s) (fullFlag s) v (serversArray s)
    (serversArrayLen s) (serversContains s) (objectsHistory s)
    (objectsCurrent s).
Definition set_serversArray (v : gmap Z Z) (s : RJCH) : RJCH :=
  mkRJCH (serversCount s) (totalServersAndPastCount s) (duplicatesCount s)
    (objectsCount s) (totalObjectsAndPastCount s) (epsilon s) (loadCap s)
    (totalFull s) (servers s) (fullFlag s) (serversToIdx s) v
    (serversArrayLen s) (serversContains s) (objectsHistory s)
    (objectsCurrent s).
Definition set_serversContains (v : Dict.t (gset Z)) (s : RJCH) : RJCH :=
  mkRJCH (serversCount s) (totalServersAndPastCount s) (duplicatesCount s)
    (objectsCount s) (totalObjectsAndPastCount s) (epsilon s) (loadCap s)
    (totalFull s) (servers s) (fullFlag s) (serversToIdx s) (serversArray s)
    (serversArrayLen s) v (objectsHistory s) (objectsCurrent s).
Definition set_objectsHistory (v : Dict.t (list Z)) (s : RJCH) : RJCH :=
  mkRJCH (serversCount s) (totalServersAndPastCount s) (duplicatesCount s)
    (objectsCount s) (totalObjectsAndPastCount s) (epsilon s) (loadCap s)
    (totalFull s) (servers s) (fullFlag s) (serversToIdx s) (serversArray s)
    (serversArrayLen s) (serversContains s) v (objectsCurrent s).
Definition set_objectsCurrent (v : Dict.t Z) (s : RJCH) : RJCH :=
  mkRJCH (serversCount s) (totalServersAndPastCount s) (duplicatesCount s)
    (objectsCount s) (totalObjectsAndPastCount s) (epsilon s) (loadCap s)
    (totalFull s) (servers s) (fullFlag s) (serversToIdx s) (serversArray s)
    (serversArrayLen s) (serversContains s) (objectsHistory s) v.
Definition set_serversArrayLen (v : Z) (s : RJCH) : RJCH :=
  mkRJCH (serversCount s) (totalServersAndPastCount s) (duplicatesCount s)
    (objectsCount s) (totalObjectsAndPastCount s) (epsilon s) (loadCap s)
    (totalFull s) (servers s) (fullFlag s) (serversToIdx s) (serversArray s)
    v (serversContains s) (objectsHistory s) (objectsCurrent s).

(** ** Reading and writing the object *)

(** [arr[i]] with numpy's index rules, for an array of length [n]: an index
    in [0, n) is read as it is, one in [-n, 0) counts from the end, any
    other index is an [IndexError].  A slot never written holds [-1]. *)
Definition array_read (arr : gmap Z Z) (n : Z) (i : Z) : option Z :=
  if decide (0 ≤ i < n) then Some (default (-1) (arr !! i))
  else if decide (- n ≤ i < 0) then Some (default (-1) (arr !! (i + n)))
  else None.

(** [self.serversArray[i]] *)
Definition array_get (s : RJCH) (i : Z) : option Z :=
  array_read (serversArray s) (serversArrayLen s) i.

Definition serversArray_at (i : Z) : M Z :=
  s ← get_self; of_option IndexError (array_get s i).

(** [self.serversArray[i] = v] for an index in range. *)
Definition serversArray_set (i v : Z) : M unit :=
  s ← get_self;
  if decide (0 ≤ i < serversArrayLen s) then
    modify (λ s, set_serversArray (<[i:=v]> (serversArray s)) s)
  else raise IndexError.

(** [self.<field>[k]]: a missing key is a [KeyError]. *)
Definition lookup_in {V} (field : RJCH → Dict.t V) (k : Z) : M V :=
  s ← get_self; of_option KeyError (Dict.get k (field s)).

(** [self.servers[k] += d] *)
Definition servers_add (k d : Z) : M unit :=
  l ← lookup_in servers k;
  modify (λ s, set_servers (Dict.set k (l + d) (servers s)) s).

Definition fullFlag_set (k : Z) (b : bool) : M unit :=
  modify (λ s, set_fullFlag (Dict.set k b (fullFlag s)) s).

Definition totalFull_add (d : Z) : M unit :=
  modify (λ s, set_totalFull (totalFull s + d) s).

(** [self.serversContains[k].add(o)] *)
Definition contains_add (k o : Z) : M unit :=
  c ← lookup_in serversContains k;
  modify (λ s, set_serversContains
                 (Dict.set k (c ∪ {[o]}) (serversContains s)) s).

(** [self.serversContains[k].remove(o)]: removing an absent element is a
    [KeyError]. *)
Definition contains_remove (k o : Z) : M unit :=
  c ← lookup_in serversContains k;
  if decide (o ∈ c) then
    modify (λ s, set_serversContains
                   (Dict.set k (c ∖ {[o]}) (serversContains s)) s)
  else raise KeyError.

Definition objectsHistory_set (o : Z) (h : list Z) : M unit :=
  modify (λ s, set_objectsHistory (Dict.set o h (objectsHistory s)) s).

(** [self.objectsHistory[o].append(num)] *)
Definition history_append (o num : Z) : M unit :=
  h ← lookup_in objectsHistory o; objectsHistory_set o (h ++ [num]).

Definition objectsCurrent_set (o c : Z) : M unit :=
  modify (λ s, set_objectsCurrent (Dict.set o c (objectsCurrent s)) s).

(** [self.<field>.pop(k)] *)
Definition objectsCurrent_pop (o : Z) : M unit :=
  _ ← lookup_in objectsCurrent o;
  modify (λ s, set_objectsCurrent (Dict.pop o (objectsCurrent s)) s).

Definition objectsHistory_pop (o : Z) : M unit :=
  _ ← lookup_in objectsHistory o;
  modify (λ s, set_objectsHistory (Dict.pop o (objectsHistory s)) s).

(** Ghost: [fillBinOne] starts to search a mover for server [k]. *)
Definition log_search (k : Z) : M unit := λ w,
  Ok tt (mkWorld (self w) (drawn w) (searches w ++ [k])).

(** [lst.index(x)] *)
Fixpoint list_index (x : Z) (l : list Z) : option nat :=
  match l with
  | [] => None
  | y :: l' => if decide (y = x) then Some O else S <$> list_index x l'
  end.

(** [self.serversArray[num] == -1 or self.fullFlag[self.serversArray[num]]]:
    the slot cannot take an object. *)
Definition slot_unusable (num : Z) : M bool :=
  k ← serversArray_at num;
  if decide (k = -1) then mret true
  else k ← serversArray_at num; lookup_in fullFlag k.

Section with_rng.

(** The raw draws of numpy's random stream. *)
Variable rng : nat → Z.

(** One integer uniform over [0, n): [np.random.randint(0, n)]. *)
Definition randint (n : Z) : M Z := λ w,
  if decide (0 < n) then
    Ok (rng (drawn w) `mod` n) (mkWorld (self w) (S (drawn w)) (searches w))
  else Raise ValueError w.

(** [np.random.choice(l)]: an empty [l] is a [ValueError], raised before
    anything is drawn. *)
Definition choice (l : list Z) : M Z :=
  match l with
  | [] => raise ValueError
  | _ => k ← randint (Z.of_nat (length l));
         of_option IndexError (l !! Z.to_nat k)
  end.

(** [np.random.shuffle(l)]: the permutation is read off the stream, one
    draw per position that has a choice. *)
Fixpoint shuffle (n : nat) (l : list Z) : M (list Z) :=
  match n, l with
  | _, [] => mret []
  | _, [x] => mret [x]
  | O, _ => mret l
  | S n', _ =>
      k ← randint (Z.of_nat (length l));
      x ← of_option IndexError (l !! Z.to_nat k);
      rest ← shuffle n' (delete (Z.to_nat k) l);
      mret (x :: rest)
  end.

(** The probe loop shared by [start] and [addOneObject]:
    [while unusable(num): num = randint(0, len); history[o].append(num)]. *)
Fixpoint probe (fuel : nat) (o num : Z) : M Z :=
  b ← slot_unusable num;
  if b : bool then
    match fuel with
    | O => out_of_fuel
    | S fuel' =>
        s ← get_self;
        num' ← randint (serversArrayLen s);
        history_append o num';;
        probe fuel' o num'
    end
  else mret num.

(** [if self.servers[k] == self.loadCap: fullFlag[k] = True; totalFull += 1] *)
Definition mark_if_full (k : Z) : M unit :=
  l ← lookup_in servers k;
  s ← get_self;
  if decide (l = loadCap s) then fullFlag_set k true;; totalFull_add 1
  else mret tt.

(** *** [addOneObject] *)
Definition addOneObject (fuel : nat) : M unit :=
  s ← get_self;
  num ← randint (serversArrayLen s);
  s ← get_self;
  objectsHistory_set (totalObjectsAndPastCount s) [num];;
  s ← get_self;
  num ← probe fuel (totalObjectsAndPastCount s) num;
  curServer ← serversArray_at num;
  servers_add curServer 1;;
  mark_if_full curServer;;
  s ← get_self;
  contains_add curServer (totalObjectsAndPastCount s);;
  s ← get_self;
  objectsCurrent_set (totalObjectsAndPastCount s) num;;
  modify (λ s, set_objectsCount (objectsCount s + 1) s);;
  modify (λ s, set_totalObjectsAndPastCount (totalObjectsAndPastCount s + 1) s).

(** *** [fillBinOne] *)

(** [self.serversArray[self.objectsCurrent[i]]] *)
Definition current_server (i : Z) : M Z :=
  c ← lookup_in objectsCurrent i; serversArray_at c.

(** The test of line 299:
    [(serverIdx in self.objectsHistory[i]) and
     (self.serversArray[self.objectsCurrent[i]] != serverKey)]. *)
Definition valid_mover (serverKey i serverIdx : Z) : M bool :=
  h ← lookup_in objectsHistory i;
  if decide (serverIdx ∈ h) then
    k ← current_server i; mret (bool_decide (k ≠ serverKey))
  else mret false.

(** Lines 302 to 316: object [i] moves to slot [serverIdx] of [serverKey];
    the result is the slot it leaves ([binUnfilled]). *)
Definition move_object (serverKey i serverIdx : Z) : M Z :=
  contains_add serverKey i;;
  servers_add serverKey 1;;
  k ← current_server i; contains_remove k i;;
  k ← current_server i; servers_add k (-1);;
  k ← current_server i; f ← lookup_in fullFlag k;
  (if f : bool then
     k ← current_server i; fullFlag_set k false;; totalFull_add (-1)
   else mret tt);;
  h ← lookup_in objectsHistory i;
  idx ← of_option ValueError (list_index serverIdx h);
  h ← lookup_in objectsHistory i;
  objectsHistory_set i (take (S idx) h);;
  binUnfilled ← lookup_in objectsCurrent i;
  objectsCurrent_set i serverIdx;;
  mret binUnfilled.

(** Lines 321 to 324; [true] when the call returns. *)
Definition stop_if_filled (serverKey : Z) : M bool :=
  l ← lookup_in servers serverKey;
  s ← get_self;
  if decide (l = loadCap s) then
    f ← lookup_in fullFlag serverKey;
    if f : bool then mret false
    else totalFull_add 1;; fullFlag_set serverKey true;; mret true
  else mret false.

(** The body of the two loops for one object and one slot; [rec] is the
    recursive call. *)
Definition fill_step (rec : Z → M unit) (serverKey i serverIdx : Z) : M bool :=
  ok ← valid_mover serverKey i serverIdx;
  if ok : bool then
    binUnfilled ← move_object serverKey i serverIdx;
    rec binUnfilled;;
    stop_if_filled serverKey
  else mret false.

Fixpoint fill_dups (rec : Z → M unit) (serverKey i : Z) (dups : list Z)
  : M bool :=
  match dups with
  | [] => mret false
  | serverIdx :: dups' =>
      stop ← fill_step rec serverKey i serverIdx;
      if stop : bool then mret true else fill_dups rec serverKey i dups'
  end.

Fixpoint fill_objects (rec : Z → M unit) (serverKey : Z) (dups : list Z)
    (lstObjects : list Z) : M unit :=
  match lstObjects with
  | [] => mret tt
  | i :: rest =>
      stop ← fill_dups rec serverKey i dups;
      if stop : bool then mret tt else fill_objects rec serverKey dups rest
  end.

Fixpoint fillBinOne (fuel : nat) (serverIdx : Z) : M unit :=
  match fuel with
  | O => out_of_fuel
  | S fuel' =>
      serverKey ← serversArray_at serverIdx;
      l ← lookup_in servers serverKey;
      s ← get_self;
      if decide (l ≠ loadCap s - 1) then mret tt
      else
        log_search serverKey;;
        d ← lookup_in serversToIdx serverKey;
        dups ← shuffle (length d) d;
        s ← get_self;
        let ks := Dict.keys (objectsHistory s) in
        lstObjects ← shuffle (length ks) ks;
        fill_objects (fillBinOne fuel') serverKey dups lstObjects
  end.

(** *** [removeOneObject] *)
Definition removeOneObject (fuel : nat) : M unit :=
  s ← get_self;
  objectNum ← choice (Dict.keys (objectsCurrent s));
  serverIdx ← lookup_in objectsCurrent objectNum;
  serverKey ← serversArray_at serverIdx;
  contains_remove serverKey objectNum;;
  servers_add serverKey (-1);;
  modify (λ s, set_objectsCount (objectsCount s - 1) s);;
  objectsCurrent_pop objectNum;;
  objectsHistory_pop objectNum;;
  f ← lookup_in fullFlag serverKey;
  if f : bool then
    fullFlag_set serverKey false;;
    totalFull_add (-1);;
    fillBinOne fuel serverIdx
  else mret tt.

(** *** [start] *)

(** [while self.serversArray[cur] != -1: cur = randint(0, len)] *)
Fixpoint find_free (fuel : nat) (cur : Z) : M Z :=
  v ← serversArray_at cur;
  if decide (v ≠ -1) then
    match fuel with
    | O => out_of_fuel
    | S fuel' =>
        s ← get_self; cur' ← randint (serversArrayLen s); find_free fuel' cur'
    end
  else mret cur.

(** [for j in range(self.duplicatesCount)] for server [i]. *)
Fixpoint assign_dups (fuel : nat) (i : Z) (js : list Z) (dups : list Z)
  : M (list Z) :=
  match js with
  | [] => mret dups
  | _ :: js' =>
      s ← get_self;
      cur ← randint (serversArrayLen s);
      cur ← find_free fuel cur;
      serversArray_set cur i;;
      assign_dups fuel i js' (dups ++ [cur])
  end.

(** [for i in self.servers] *)
Fixpoint assign_servers (fuel : nat) (ks : list Z) : M unit :=
  match ks with
  | [] => mret tt
  | i :: ks' =>
      s ← get_self;
      dups ← assign_dups fuel i (range (duplicatesCount s)) [];
      modify (λ s, set_serversToIdx (Dict.set i dups (serversToIdx s)) s);;
      assign_servers fuel ks'
  end.

(** The body of the loop of lines 142 to 159 for object [i]. *)
Definition start_place (fuel : nat) (i : Z) : M unit :=
  s ← get_self;
  num ← randint (serversArrayLen s);
  history_append i num;;
  num ← probe fuel i num;
  curServer ← serversArray_at num;
  contains_add curServer i;;
  servers_add curServer 1;;
  mark_if_full curServer;;
  objectsCurrent_set i num.

Fixpoint start_place_all (fuel : nat) (objs : list Z) : M unit :=
  match objs with
  | [] => mret tt
  | i :: objs' => start_place fuel i;; start_place_all fuel objs'
  end.

(** [start].  The source first fills [objectsCurrent] with the placeholder
    [0.5] for every object and overwrites it when the object is placed;
    nothing reads a placeholder, so here the entry is made when the object
    is placed, which gives the same dictionary in the same key order. *)
Definition start (fuel : nat) : M unit :=
  s ← get_self;
  modify (set_servers (Dict.of_keys (range (serversCount s)) 0));;
  modify (set_fullFlag (Dict.of_keys (range (serversCount s)) false));;
  modify (set_serversToIdx []);;
  modify (set_serversArray ∅);;
  modify (set_serversArrayLen (2 ^ 20));;
  s ← get_self;
  assign_servers fuel (Dict.keys (servers s));;
  s ← get_self;
  modify (set_serversContains (Dict.of_keys (range (serversCount s)) ∅));;
  modify (set_objectsHistory (Dict.of_keys (range (objectsCount s)) []));;
  modify (set_objectsCurrent []);;
  s ← get_self;
  start_place_all fuel (range (objectsCount s)).

End with_rng.

(** [__init__]: the load cap is [int(np.ceil((1 + epsilon) * objects /
    servers))], computed here in exact rational arithmetic where the source
    uses double precision; dividing by [servers = 0] is a
    [ZeroDivisionError].  The attributes that only [start] assigns are
    empty. *)
Definition __init__ (servers duplicates objects : Z) (epsilon : Q)
  : exn + RJCH :=
  if decide (servers = 0) then inl ZeroDivisionError
  else
    let cap := Qceiling (Qdiv (Qmult (Qplus 1 epsilon) (inject_Z objects))
                              (inject_Z servers)) in
    inr (mkRJCH servers servers duplicates objects objects epsilon cap 0
               [] [] [] ∅ 0 [] [] []).

(** Construction: [__init__] followed by [start], on a fresh random
    stream. *)
Inductive construction : Type :=
  | Built (w : world)
  | ConstructionError (e : exn)
  | NeverBuilt.

Definition construct (rng : nat → Z) (fuel : nat)
    (servers duplicates objects : Z) (epsilon : Q) : construction :=
  match __init__ servers duplicates objects epsilon with
  | inl e => ConstructionError e
  | inr s =>
      match start rng fuel (mkWorld s O []) with
      | Ok _ w => Built w
      | Raise e _ => ConstructionError e
      | OutOfFuel => NeverBuilt
      end
  end.

(** ** [assignObjectWallTime]

    The 128-bit MurmurHash3 of a string as [mmh3.hash64] returns it, two
    signed 64-bit halves, and the string of the float that
    [np.random.random()] draws are taken from outside.  The wall-clock time
    that the source measures and returns is outside the model: the result
    here is the attempt counter and the four candidates at the exit of the
    loop. *)
Section wall_time.
Variable mmh3_hash64 : string → Z * Z.
Variable random_str : nat → string.







End wall_time.

(** ** Quantities the properties speak of *)

(** The sum of all servers' load counters. *)
Definition sum_loads (s : RJCH) : Z := foldr Z.add 0 (Dict.values (servers s)).

(** The number of live objects: the entries of the object registry. *)
Definition live_count (s : RJCH) : Z := Z.of_nat (length (objectsCurrent s)).

(** The total length of the probe histories. *)
Definition history_total (s : RJCH) : nat :=
  foldr Nat.add O (length <$> Dict.values (objectsHistory s)).

(** The [n] probes drawn from the stream starting in world [w]. *)
Definition probes (rng : nat → Z) (w : world) (n : nat) : list Z :=
  (λ j, rng (drawn w + j)%nat `mod` serversArrayLen (self w)) <$> seq 0 n.

(** A slot that takes an object: owned, and its server is not full. *)
Definition eligible (s : RJCH) (num : Z) : Prop :=
  ∃ k, array_get s num = Some k ∧ k ≠ -1 ∧ Dict.get k (fullFlag s) = Some false.

(** A slot that is probed and passed over: empty, or its server is full. *)
Definition passed_over (s : RJCH) (num : Z) : Prop :=
  array_get s num = Some (-1) ∨
  ∃ k, array_get s num = Some k ∧ k ≠ -1 ∧ Dict.get k (fullFlag s) = Some true.

(** What a placement of object [o] does, from world [w] to world [w'],
    when [o]'s history was [h] before: [S n] probes are drawn; all but the
    last are passed over; the last, [num], is owned by a server [k] that is
    not full; the history of [o] grows by the probes in their order, [o]
    sits on [num], [k] holds one object more, [o] among them, and [k] is
    flagged full exactly if its load is now the cap. *)
Definition placement_outcome (rng : nat → Z) (w w' : world) (o : Z)
    (h : list Z) : Prop :=
  ∃ n ps num k l c,
    probes rng w (S n) = ps ++ [num] ∧
    Forall (passed_over (self w)) ps ∧
    array_get (self w) num = Some k ∧ k ≠ -1 ∧
    Dict.get k (fullFlag (self w)) = Some false ∧
    Dict.get k (servers (self w)) = Some l ∧
    Dict.get k (serversContains (self w)) = Some c ∧
    drawn w' = (drawn w + S n)%nat ∧
    Dict.get o (objectsHistory (self w')) = Some (h ++ probes rng w (S n)) ∧
    Dict.get o (objectsCurrent (self w')) = Some num ∧
    Dict.get k (servers (self w')) = Some (l + 1) ∧
    Dict.get k (serversContains (self w')) = Some (c ∪ {[o]}) ∧
    Dict.get k (fullFlag (self w')) = Some (bool_decide (l + 1 = loadCap (self w))).

(** The object after object [o] has been placed on slot [num] of server
    [k], which held [l] objects, the set [c], and was not full; [hist] is
    the probe history of [o]. *)
Definition placed (o num k l : Z) (c : gset Z) (hist : list Z) (s : RJCH)
  : RJCH :=
  let s1 := set_objectsHistory (Dict.set o hist (objectsHistory s)) s in
  let s2 := set_servers (Dict.set k (l + 1) (servers s1)) s1 in
  let s3 :=
    if decide (l + 1 = loadCap s2) then
      set_totalFull (totalFull s2 + 1)
        (set_fullFlag (Dict.set k true (fullFlag s2)) s2)
    else s2 in
  let s4 := set_serversContains (Dict.set k (c ∪ {[o]}) (serversContains s3)) s3 in
  set_objectsCurrent (Dict.set o num (objectsCurrent s4)) s4.


(** ** What holds of every world of a run *)

(** What outlives every operation after [start]: the ring and the cap. *)
Definition ring_of (s : RJCH) : gmap Z Z * Z * Dict.t (list Z) * Z :=
  (serversArray s, serversArrayLen s, serversToIdx s, loadCap s).

(** The slots of a server's duplicates are the server's. *)
Record ring_ok (s : RJCH) : Prop := {
  dups_owned : ∀ k d x, Dict.get k (serversToIdx s) = Some d → x ∈ d →
    array_get s x = Some k ∧ k ≠ -1
}.

(** Every live object sits on the last slot of its probe history, a slot
    that a server owns; the ids of the live objects are distinct and below
    the next id; the loads add up to the number of live objects. *)
Record objects_ok (s : RJCH) : Prop := {
  cur_hist : ∀ o c, Dict.get o (objectsCurrent s) = Some c →
    ∃ h k, Dict.get o (objectsHistory s) = Some h ∧ last h = Some c ∧
           array_get s c = Some k ∧ k ≠ -1;
  keys_nodup : NoDup (Dict.keys (objectsCurrent s));
  keys_fresh : ∀ o, o ∈ Dict.keys (objectsCurrent s) →
    o < totalObjectsAndPastCount s;
  loads_live : sum_loads s = live_count s
}.

(** The ring and the registry are in order. *)
Definition well_formed (s : RJCH) : Prop := ring_ok s ∧ objects_ok s.

(** The part of the object that the registry properties read. *)
Definition registry (s : RJCH) : Z * Z * Dict.t (list Z) * Dict.t Z :=
  (objectsCount s, totalObjectsAndPastCount s, objectsHistory s,
   objectsCurrent s).

Definition view (s : RJCH)
  : (gmap Z Z * Z * Dict.t (list Z) * Z) * (Z * Z * Dict.t (list Z) * Dict.t Z)
    * Z :=
  (ring_of s, registry s, sum_loads s).

(** What [fillBinOne] leaves as it finds it: the ring, the counters, the
    live object ids and the sum of the loads. *)
Definition counts (s : RJCH)
  : (gmap Z Z * Z * Dict.t (list Z) * Z) * Z * Z * list Z * Z :=
  (ring_of s, objectsCount s, totalObjectsAndPastCount s,
   Dict.keys (objectsCurrent s), sum_loads s).

(** The worlds a run observes: after a construction with a non-negative
    number of objects, and after each completed [addOneObject] and
    [removeOneObject], whatever the random stream. *)
Inductive reachable : world → Prop :=
  | reach_construct rng fuel sv dup obj eps w :
      0 ≤ obj →
      construct rng fuel sv dup obj eps = Built w → reachable w
  | reach_add rng fuel w w' :
      reachable w → addOneObject rng fuel w = Ok tt w' → reachable w'
  | reach_remove rng fuel w w' :
      reachable w → removeOneObject rng fuel w = Ok tt w' → reachable w'.

(** ** The stages of [start] *)

(** [start], lines 113 to 119: the servers without load, the ring blank. *)
Definition start_ring_blank (s : RJCH) : RJCH :=
  set_serversArrayLen (2 ^ 20)
    (set_serversArray ∅
       (set_serversToIdx []
          (set_fullFlag (Dict.of_keys (range (serversCount s)) false)
             (set_servers (Dict.of_keys (range (serversCount s)) 0) s)))).

(** [start], lines 133 to 139: the registries before the first object. *)
Definition start_registries (s : RJCH) : RJCH :=
  set_objectsCurrent []
    (set_objectsHistory (Dict.of_keys (range (objectsCount s)) [])
       (set_serversContains (Dict.of_keys (range (serversCount s)) ∅) s)).

(** The object with its ring blanked: what the assignment of ring slots in
    [start] leaves alone. *)
Definition outside_ring (s : RJCH) : RJCH :=
  set_serversToIdx [] (set_serversArray ∅ s).

(** The ring while [start] builds it: [n] slots are taken, all of them
    inside the array and none by [-1], and the duplicates recorded so far
    are their servers'. *)
Definition ring_building (s : RJCH) (n : nat) : Prop :=
  serversArrayLen s = 2 ^ 20 ∧
  size (serversArray s) = n ∧
  (∀ x v, serversArray s !! x = Some v → 0 ≤ x < 2 ^ 20 ∧ v ≠ -1) ∧
  ring_ok s.

(** ** Runs and what they have to satisfy *)

(** [upd f w]: the object updated by [f], the environment kept. *)
Definition upd (f : RJCH → RJCH) (w : world) : world :=
  mkWorld (f (self w)) (drawn w) (searches w).

(** What a result has to satisfy: [Q] when the run completes, [rs] when it
    raises, [oof] when the fuel runs out. *)
Definition post {A} (oof rs : Prop) (Q : A → world → Prop) (r : result A)
  : Prop :=
  match r with
  | Ok a w => Q a w
  | Raise _ _ => rs
  | OutOfFuel => oof
  end.

Definition triple {A} (oof rs : Prop) (P : world → Prop) (m : M A)
    (Q : A → world → Prop) : Prop :=
  ∀ w, P w → post oof rs Q (m w).

(** A computation that never runs out of fuel. *)
Definition total {A} (m : M A) : Prop := ∀ w, m w ≠ OutOfFuel.

(** [m] keeps the property [P n] of the object; with [oof := False] it
    also does not run out of fuel. *)
Definition keeps (oof : Prop) (P : nat → RJCH → Prop) (n : nat) {A}
    (m : M A) : Prop :=
  triple oof True (λ w, P n (self w)) m (λ _ w, P n (self w)).



(** ** A run that the properties are tried on

    Three servers with one ring slot each (slots 0, 1 and 2), a cap of two
    objects, three objects at the start; then two objects are added, one is
    removed, two are added and one is removed. *)
Definition trace_draws : list Z :=
  [ 0; 1; 2;        (* the slots of servers 0, 1, 2 *)
    1; 1; 1; 0;     (* objects 0 and 1 on slot 1, object 2 probes 1, then 0 *)
    0;              (* object 3 on slot 0 *)
    0; 1; 2;        (* object 4 probes 0 and 1, lands on 2 *)
    0; 3; 0; 0;     (* object 0 is removed; object 4 is tried first *)
    0; 1; 2;        (* object 5 probes 0 and 1, lands on 2 *)
    0; 2;           (* object 6 probes 0, lands on 2 *)
    2; 2; 3; 0; 0;  (* object 3 is removed; objects 4 and 6 are tried first *)
    1; 0; 0; 0;     (* for server 1, object 2 is tried first *)
    3; 0; 0; 0;     (* for server 0 again, object 5 is tried first *)
    0; 0; 0; 0 ].   (* for server 2 *)

Definition trace_rng : nat → Z := λ n, nth n trace_draws 0.

Definition blank_world : world :=
  mkWorld (mkRJCH 0 0 0 0 0 0%Q 0 0 [] [] [] ∅ 0 [] [] []) O [].

Definition built_world (c : construction) : world :=
  match c with Built w => w | _ => blank_world end.

(** The world after [m], when [m] completes. *)
Definition after {A} (m : M A) (w : world) : world :=
  match m w with Ok _ w' => w' | _ => w end.

Definition trace_w0 : world := built_world (construct trace_rng 5 3 1 3 1%Q).
Definition trace_w1 : world := after (addOneObject trace_rng 5) trace_w0.
Definition trace_w2 : world := after (addOneObject trace_rng 5) trace_w1.
Definition trace_w3 : world := after (removeOneObject trace_rng 10) trace_w2.
Definition trace_w4 : world := after (addOneObject trace_rng 5) trace_w3.
Definition trace_w5 : world := after (addOneObject trace_rng 5) trace_w4.
Definition trace_w6 : world := after (removeOneObject trace_rng 10) trace_w5.

(** A ring of one server and no object. *)
Definition empty_ring_world : world :=
  built_world (construct (λ _, 0) 0 1 1 0 0%Q).

(** ** The ring and the books of the servers *)

(** The ring as [start] builds it, server by server: the servers listed in
    [serversToIdx] are [ks], in that order; each of them has [dup] slots,
    all different, inside the array and written with its id; and every
    slot written belongs to the list of the server written in it. *)
Definition ring_census (s : RJCH) (ks : list Z) (dup : nat) : Prop :=
  Dict.keys (serversToIdx s) = ks ∧
  (∀ k d, Dict.get k (serversToIdx s) = Some d →
     NoDup d ∧ length d = dup ∧
     ∀ x, x ∈ d → 0 ≤ x < 2 ^ 20 ∧ serversArray s !! x = Some k) ∧
  (∀ x v, serversArray s !! x = Some v →
     ∃ d, Dict.get v (serversToIdx s) = Some d ∧ x ∈ d).

(** The number of servers flagged full. *)
Definition full_count (s : RJCH) : Z :=
  foldr Z.add 0
    ((λ b : bool, if b then 1 else 0) <$> Dict.values (fullFlag s)).

(** The books of the servers: the three per-server dictionaries have the
    servers [0 .. serversCount - 1] as their keys; a server's load counter
    is the size of the set of objects it holds; that set is exactly the
    live objects whose current slot the server owns; [totalFull] counts the
    servers flagged full; and a server flagged full is at its cap or
    above. *)
Record servers_ok (s : RJCH) : Prop := {
  servers_keys : Dict.keys (servers s) = range (serversCount s);
  contains_keys : Dict.keys (serversContains s) = range (serversCount s);
  fullFlag_keys : Dict.keys (fullFlag s) = range (serversCount s);
  load_size : ∀ k l c, Dict.get k (servers s) = Some l →
    Dict.get k (serversContains s) = Some c → l = Z.of_nat (size c);
  contains_live : ∀ k c o, Dict.get k (serversContains s) = Some c →
    (o ∈ c ↔ ∃ cur, Dict.get o (objectsCurrent s) = Some cur ∧
                    array_get s cur = Some k);
  full_total : totalFull s = full_count s;
  full_load : ∀ k l, Dict.get k (fullFlag s) = Some true →
    Dict.get k (servers s) = Some l → loadCap s ≤ l
}.

(** A dictionary without the entries of key [o]. *)
Fixpoint dict_without {V} (o : Z) (d : Dict.t V) : Dict.t V :=
  match d with
  | [] => []
  | (k, v) :: d' =>
      if decide (k = o) then dict_without o d' else (k, v) :: dict_without o d'
  end.

(** The part of the object that [servers_ok] reads. *)
Definition books (s : RJCH)
  : Z * (gmap Z Z * Z * Dict.t (list Z) * Z) * Dict.t Z * Dict.t (gset Z)
    * Dict.t bool * Z * Dict.t Z :=
  (serversCount s, ring_of s, servers s, serversContains s, fullFlag s,
   totalFull s, objectsCurrent s).

(** ** The measurements *)

(** [pctOfFullBins], lines 192 to 196:
    [sum(self.fullFlag.values()) / len(self.fullFlag)].  The quotient is a
    double in the source; here the result is the pair of the two integers
    that are divided.  Without servers the division is a
    [ZeroDivisionError]. *)
Definition pctOfFullBins : M (Z * Z) :=
  s ← get_self;
  let total := foldr Z.add 0 ((λ b : bool, if b then 1 else 0)
                                <$> Dict.values (fullFlag s)) in
  let n := Z.of_nat (length (fullFlag s)) in
  if decide (n = 0) then raise ZeroDivisionError else mret (total, n).

Section measurements.
Variable rng : nat → Z.

(** [self.serversArray[num] != -1 and
     self.fullFlag[self.serversArray[num]]], line 176. *)
Definition slot_full (num : Z) : M bool :=
  k ← serversArray_at num;
  if decide (k ≠ -1) then k ← serversArray_at num; lookup_in fullFlag k
  else mret false.

(** The loop of lines 174 to 177. *)
Fixpoint tried_loop (fuel : nat) (num counter : Z) : M Z :=
  b ← slot_unusable num;
  if b : bool then
    match fuel with
    | O => out_of_fuel
    | S fuel' =>
        s ← get_self;
        num' ← randint rng (serversArrayLen s);
        f ← slot_full num';
        tried_loop fuel' num' (if f : bool then counter + 1 else counter)
    end
  else mret counter.

(** [assignObjectServersTried], lines 167 to 178. *)
Definition assignObjectServersTried (fuel : nat) : M Z :=
  s ← get_self;
  num ← randint rng (serversArrayLen s);
  tried_loop fuel num 1.

(** The loop of lines 187 to 189. *)
Fixpoint steps_loop (fuel : nat) (num counter : Z) : M Z :=
  b ← slot_unusable num;
  if b : bool then
    match fuel with
    | O => out_of_fuel
    | S fuel' =>
        s ← get_self;
        num' ← randint rng (serversArrayLen s);
        steps_loop fuel' num' (counter + 1)
    end
  else mret counter.

(** [assignObjectTotalSteps], lines 180 to 190. *)
Definition assignObjectTotalSteps (fuel : nat) : M Z :=
  s ← get_self;
  num ← randint rng (serversArrayLen s);
  steps_loop fuel num 1.

End measurements.

(** Slot [num] is owned by a server that is flagged full. *)
Definition full_server_slot (s : RJCH) (num : Z) : bool :=
  match array_get s num with
  | Some k =>
      if decide (k = -1) then false
      else default false (Dict.get k (fullFlag s))
  | None => false
  end.

(** How many of the probes [ps] hit a server that is flagged full. *)
Definition hits (s : RJCH) (ps : list Z) : Z :=
  foldr Z.add 0 ((λ p, if full_server_slot s p then 1 else 0) <$> ps).

(** * The simple simulation: [RandomJumpCHSimple]

    Lines 13 to 87.  The class keeps the load counters and the full flags
    only; an object is a draw of a server.  [variance] (a floating-point
    computation) is left out. *)
Module Simple.

Record t : Type := mk {
  serversCount : Z;
  duplicatesCount : Z;
  objectsCount : Z;
  epsilon : Q;
  loadCap : Z;
  firstFull : option Z;     (* [None] is [inf] *)
  servers : Dict.t Z;
  fullFlag : Dict.t bool
}.

Record world : Type := mkWorld {
  self : t;
  drawn : nat
}.

Inductive result (A : Type) : Type :=
  | Ok (a : A) (w : world)
  | Raise (e : exn) (w : world)
  | OutOfFuel.
Arguments Ok {A} a w.
Arguments Raise {A} e w.
Arguments OutOfFuel {A}.

Definition M (A : Type) : Type := world → result A.

#[local] Instance M_ret : MRet M := λ A a w, Ok a w.

#[local] Instance M_bind : MBind M := λ A B k m w,
  match m w with
  | Ok a w' => k a w'
  | Raise e w' => Raise e w'
  | OutOfFuel => OutOfFuel
  end.

Definition raise {A} (e : exn) : M A := λ w, Raise e w.

Definition out_of_fuel {A} : M A := λ _, OutOfFuel.

Definition get_self : M t := λ w, Ok (self w) w.

Definition modify (f : t → t) : M unit := λ w,
  Ok tt (mkWorld (f (self w)) (drawn w)).

Definition of_option {A} (e : exn) (o : option A) : M A :=
  match o with Some a => mret a | None => raise e end.

Definition lookup_in {V} (field : t → Dict.t V) (k : Z) : M V :=
  s ← get_self; of_option KeyError (Dict.get k (field s)).

Definition set_firstFull (v : option Z) (s : t) : t :=
  mk (serversCount s) (duplicatesCount s) (objectsCount s) (epsilon s)
    (loadCap s) v (servers s) (fullFlag s).
Definition set_servers (v : Dict.t Z) (s : t) : t :=
  mk (serversCount s) (duplicatesCount s) (objectsCount s) (epsilon s)
    (loadCap s) (firstFull s) v (fullFlag s).
Definition set_fullFlag (v : Dict.t bool) (s : t) : t :=
  mk (serversCount s) (duplicatesCount s) (objectsCount s) (epsilon s)
    (loadCap s) (firstFull s) (servers s) v.

(** [min(counter, self.firstFull)] *)
Definition min_first (counter : Z) (ff : option Z) : Z :=
  match ff with None => counter | Some c => Z.min counter c end.

Section with_rng.
Variable rng : nat → Z.

(** [np.random.randint(0, n)] *)
Definition randint (n : Z) : M Z := λ w,
  if decide (0 < n) then
    Ok (rng (drawn w) `mod` n) (mkWorld (self w) (S (drawn w)))
  else Raise ValueError w.

(** [np.random.randint(0, n, size=k)]: no element asks for no draw and no
    check of the bound (numpy 1.17 and later); a negative [k] or an empty
    interval is a [ValueError]. *)
Definition randints (n k : Z) : M (list Z) := λ w,
  if decide (k = 0) then Ok [] w
  else if decide (0 < n ∧ 0 < k) then
    Ok ((λ j, rng (drawn w + j)%nat `mod` n) <$> seq 0 (Z.to_nat k))
       (mkWorld (self w) (drawn w + Z.to_nat k))
  else Raise ValueError w.

(** [while self.fullFlag[num]: num = np.random.randint(0, self.serversCount)] *)
Fixpoint find_open (fuel : nat) (num : Z) : M Z :=
  f ← lookup_in fullFlag num;
  if f : bool then
    match fuel with
    | O => out_of_fuel
    | S fuel' =>
        s ← get_self; num' ← randint (serversCount s); find_open fuel' num'
    end
  else mret num.

(** The body of the loop of lines 46 to 55, [counter] already raised. *)
Definition place (fuel : nat) (counter num : Z) : M unit :=
  num ← find_open fuel num;
  l ← lookup_in servers num;
  modify (λ s, set_servers (Dict.set num (l + 1) (servers s)) s);;
  l ← lookup_in servers num;
  s ← get_self;
  if decide (l = loadCap s) then
    modify (λ s, set_fullFlag (Dict.set num true (fullFlag s)) s);;
    modify (λ s, set_firstFull (Some (min_first counter (firstFull s))) s)
  else mret tt.

Fixpoint place_all (fuel : nat) (counter : Z) (randNums : list Z) : M unit :=
  match randNums with
  | [] => mret tt
  | num :: rest =>
      place fuel (counter + 1) num;; place_all fuel (counter + 1) rest
  end.

(** [start], lines 34 to 55. *)
Definition start (fuel : nat) : M unit :=
  modify (set_firstFull None);;
  s ← get_self;
  modify (set_servers (Dict.of_keys (range (serversCount s)) 0));;
  s ← get_self;
  modify (set_fullFlag (Dict.of_keys (range (serversCount s)) false));;
  s ← get_self;
  randNums ← randints (serversCount s) (objectsCount s);
  place_all fuel 0 randNums.

(** The loop of lines 71 to 73. *)
Fixpoint try_loop (fuel : nat) (num counter : Z) : M Z :=
  f ← lookup_in fullFlag num;
  if f : bool then
    match fuel with
    | O => out_of_fuel
    | S fuel' =>
        s ← get_self;
        num' ← randint (serversCount s);
        try_loop fuel' num' (counter + 1)
    end
  else mret counter.

(** [serversToTry], lines 64 to 74. *)
Definition serversToTry (fuel : nat) : M Z :=
  s ← get_self;
  num ← randint (serversCount s);
  try_loop fuel num 1.

End with_rng.

(** [pctOfFullBins], lines 77 to 81: the two integers that are divided. *)
Definition pctOfFullBins : M (Z * Z) :=
  s ← get_self;
  let total := foldr Z.add 0 ((λ b : bool, if b then 1 else 0)
                                <$> Dict.values (fullFlag s)) in
  let n := Z.of_nat (length (fullFlag s)) in
  if decide (n = 0) then raise ZeroDivisionError else mret (total, n).

(** [objectsTillFirstFull], lines 83 to 87. *)
Definition objectsTillFirstFull : M (option Z) :=
  s ← get_self; mret (firstFull s).

(** [__init__], lines 21 to 32, with the load cap in exact rational
    arithmetic; the attributes that only [start] assigns are empty. *)
Definition __init__ (servers duplicates objects : Z) (epsilon : Q)
  : exn + t :=
  if decide (servers = 0) then inl ZeroDivisionError
  else
    let cap := Qceiling (Qdiv (Qmult (Qplus 1 epsilon) (inject_Z objects))
                              (inject_Z servers)) in
    inr (mk servers duplicates objects epsilon cap None [] []).

(** Construction: [__init__] followed by [start], on a fresh random
    stream. *)
Inductive construction : Type :=
  | Built (w : world)
  | ConstructionError (e : exn)
  | NeverBuilt.

Definition construct (rng : nat → Z) (fuel : nat)
    (servers duplicates objects : Z) (epsilon : Q) : construction :=
  match __init__ servers duplicates objects epsilon with
  | inl e => ConstructionError e
  | inr s =>
      match start rng fuel (mkWorld s O) with
      | Ok _ w => Built w
      | Raise e _ => ConstructionError e
      | OutOfFuel => NeverBuilt
      end
  end.

(** The sum of the load counters. *)
Definition sum_loads (s : t) : Z := foldr Z.add 0 (Dict.values (servers s)).

(** The number of servers flagged full. *)
Definition full_count (s : t) : Z :=
  foldr Z.add 0
    ((λ b : bool, if b then 1 else 0) <$> Dict.values (fullFlag s)).

(** The state while [start] places the objects, [n] of them placed: the
    counters and the flags are kept for the servers
    [0 .. serversCount - 1]; the loads add up to [n]; a load is between 0
    and the cap, and the flag says whether it is the cap; [firstFull] is
    [inf] as long as no server is full, and else a count between the cap
    and [n]. *)
Record placing (s : t) (n : Z) : Prop := {
  servers_keys : Dict.keys (servers s) = range (serversCount s);
  fullFlag_keys : Dict.keys (fullFlag s) = range (serversCount s);
  loads_sum : sum_loads s = n;
  loads_flags : ∀ k l, Dict.get k (servers s) = Some l →
    0 ≤ l ≤ loadCap s ∧
    Dict.get k (fullFlag s) = Some (bool_decide (l = loadCap s));
  first_full :
    match firstFull s with
    | None => ∀ k, Dict.get k (fullFlag s) ≠ Some true
    | Some c => 1 ≤ c ≤ n ∧ loadCap s ≤ c ∧
                ∃ k, Dict.get k (fullFlag s) = Some true
    end
}.

Definition blank_world : world := mkWorld (mk 0 0 0 0%Q 0 None [] []) O.

Definition built_world (c : construction) : world :=
  match c with Built w => w | _ => blank_world end.

(** A run that the properties are tried on: two servers, three objects,
    a cap of two.  The first two objects go to server 0 and fill it, the
    third draws server 0 and then server 1; then [serversToTry] draws
    server 0 twice and server 1. *)
Definition trace_draws : list Z := [0; 0; 0; 1; 0; 0; 1].

Definition trace_rng : nat → Z := λ n, nth n trace_draws 0.

Definition trace_w0 : world := built_world (construct trace_rng 3 2 1 3 0%Q).

End Simple.

(** ** The simple simulation: its draws *)

(** The [n] draws of a server from position [d] of the stream, for [sc]
    servers. *)
Definition server_draws (rng : nat → Z) (sc : Z) (d n : nat) : list Z :=
  (λ j, rng (d + j)%nat `mod` sc) <$> seq 0 n.

(** ** What the operations rely on *)

(** The part of the object that [wired] reads. *)
Definition frame (s : RJCH)
  : list Z * list Z * Z * (gmap Z Z * Z * Dict.t (list Z) * Z) :=
  (Dict.keys (objectsHistory s), Dict.keys (objectsCurrent s),
   serversCount s, ring_of s).

(** The registries and the ring fit together: the histories are kept for
    exactly the live objects; [serversToIdx] lists the servers
    [0 .. serversCount - 1]; a slot that is written is written with one of
    them; and the array is not empty. *)
Record wired (s : RJCH) : Prop := {
  hist_cur_keys : Dict.keys (objectsHistory s) = Dict.keys (objectsCurrent s);
  idx_keys : Dict.keys (serversToIdx s) = range (serversCount s);
  owner_known : ∀ x k, array_get s x = Some k → k ≠ -1 →
    k ∈ Dict.keys (serversToIdx s);
  array_nonempty : 0 < serversArrayLen s
}.

(** Everything that holds of the worlds of a run. *)
Definition sound (s : RJCH) : Prop := well_formed s ∧ servers_ok s ∧ wired s.

(** [r] is no exception, and [Q] holds of it when it is a result. *)
Definition simple_post {A} (Q : A → Simple.world → Prop)
    (r : Simple.result A) : Prop :=
  match r with
  | Simple.Ok a w => Q a w
  | Simple.Raise _ _ => False
  | Simple.OutOfFuel => True
  end.

(** ** Dictionaries: lemmas *)

Module DictFacts.
Section facts.
Context {V : Type}.
Implicit Types (d : Dict.t V) (k : Z) (v : V).

Lemma get_set d k k' v :
  Dict.get k' (Dict.set k v d) =
  if decide (k = k') then Some v else Dict.get k' d.
Proof.
  induction d as [|[k0 v0] d IH]; simpl.
  - repeat case_decide; congruence.
  - repeat (case_decide; simpl); try congruence.
Qed.

Lemma get_set_eq d k v : Dict.get k (Dict.set k v d) = Some v.
Proof. rewrite get_set. by case_decide. Qed.

Lemma get_set_ne d k k' v :
  k ≠ k' → Dict.get k' (Dict.set k v d) = Dict.get k' d.
Proof. intros. rewrite get_set. by case_decide. Qed.


Lemma get_None_keys d k : Dict.get k d = None ↔ k ∉ Dict.keys d.
Proof.
  unfold Dict.keys. induction d as [|[k0 v0] d IH]; simpl.
  - split; [intros _; apply not_elem_of_nil | done].
  - rewrite not_elem_of_cons. case_decide; subst; split; try done.
    + intros [? _]; done.
    + intros; split; [congruence | by apply IH].
    + intros [_ ?]; by apply IH.
Qed.


Lemma keys_set_Some d k v v0 :
  Dict.get k d = Some v0 → Dict.keys (Dict.set k v d) = Dict.keys d.
Proof.
  unfold Dict.keys. induction d as [|[k0 v1] d IH]; simpl; [done|].
  case_decide; simpl; [done|]. intros; f_equal; auto.
Qed.

Lemma keys_set_None d k v :
  Dict.get k d = None → Dict.keys (Dict.set k v d) = Dict.keys d ++ [k].
Proof.
  unfold Dict.keys. induction d as [|[k0 v1] d IH]; simpl; [done|].
  case_decide; simpl; [done|]. intros; f_equal; auto.
Qed.

Lemma length_set_Some d k v v0 :
  Dict.get k d = Some v0 → length (Dict.set k v d) = length d.
Proof.
  intros H. apply (keys_set_Some _ _ v) in H. unfold Dict.keys in H.
  by rewrite <- (length_fmap fst), H, length_fmap.
Qed.

Lemma length_set_None d k v :
  Dict.get k d = None → length (Dict.set k v d) = S (length d).
Proof.
  intros H. apply (keys_set_None _ _ v) in H. unfold Dict.keys in H.
  rewrite <- (length_fmap fst), H, length_app, length_fmap. simpl. lia.
Qed.

Lemma set_set d k v v' : Dict.set k v (Dict.set k v' d) = Dict.set k v d.
Proof.
  induction d as [|[k0 v0] d IH]; simpl.
  - by case_decide.
  - case_decide; simpl; case_decide; try done. by rewrite IH.
Qed.

Lemma set_id d k v : Dict.get k d = Some v → Dict.set k v d = d.
Proof.
  induction d as [|[k0 v0] d IH]; simpl; [done|].
  case_decide; [congruence|]. intros; f_equal; auto.
Qed.

Lemma get_pop_ne d k k' : k ≠ k' → Dict.get k' (Dict.pop k d) = Dict.get k' d.
Proof.
  intros Hne. induction d as [|[k0 v0] d IH]; simpl; [done|].
  case_decide; simpl; case_decide; congruence.
Qed.

Lemma keys_pop_subseteq d k : Dict.keys (Dict.pop k d) ⊆ Dict.keys d.
Proof.
  unfold Dict.keys. induction d as [|[k0 v0] d IH]; simpl; [done|].
  case_decide; simpl.
  - intros x Hx. by right.
  - intros x [->|Hx]%elem_of_cons; [left | right; by apply IH].
Qed.

Lemma keys_pop_nodup d k :
  NoDup (Dict.keys d) → NoDup (Dict.keys (Dict.pop k d)).
Proof.
  unfold Dict.keys. induction d as [|[k0 v0] d IH]; simpl; [done|].
  rewrite NoDup_cons. intros [Hn Hd]. case_decide; simpl; [done|].
  apply NoDup_cons. split; [|auto].
  intros Hin. apply Hn. by apply (keys_pop_subseteq d k).
Qed.

Lemma get_pop_eq d k : NoDup (Dict.keys d) → Dict.get k (Dict.pop k d) = None.
Proof.
  unfold Dict.keys. induction d as [|[k0 v0] d IH]; simpl; [done|].
  rewrite NoDup_cons. intros [Hn Hd]. case_decide; simpl.
  - subst. by apply get_None_keys.
  - case_decide; [done | auto].
Qed.

Lemma length_pop d k v :
  Dict.get k d = Some v → S (length (Dict.pop k d)) = length d.
Proof.
  induction d as [|[k0 v0] d IH]; simpl; [done|].
  case_decide; simpl; [done|]. intros; f_equal; auto.
Qed.

Lemma keys_set_nodup d k v :
  NoDup (Dict.keys d) → NoDup (Dict.keys (Dict.set k v d)).
Proof.
  intros Hd. destruct (Dict.get k d) eqn:E.
  - by rewrite (keys_set_Some _ _ _ _ E).
  - rewrite (keys_set_None _ _ _ E). apply NoDup_app. split; [done|].
    split; [|apply NoDup_singleton].
    intros x Hx ->%list_elem_of_singleton. by apply get_None_keys in E.
Qed.

Lemma get_of_keys ks v k :
  Dict.get k (Dict.of_keys ks v) = if decide (k ∈ ks) then Some v else None.
Proof.
  unfold Dict.of_keys. induction ks as [|k0 ks IH]; csimpl.
  - destruct (decide (k ∈ [])) as [Hin|]; [|done]. by apply elem_of_nil in Hin.
  - rewrite IH. destruct (decide (k0 = k)) as [->|Hne].
    + rewrite decide_True; [done | left].
    + destruct (decide (k ∈ ks)) as [Hin|Hin].
      * rewrite decide_True; [done | by right].
      * rewrite decide_False; [done|].
        intros [?|?]%elem_of_cons; [by subst | done].
Qed.

Lemma keys_of_keys ks v : Dict.keys (Dict.of_keys ks v) = ks.
Proof.
  unfold Dict.keys, Dict.of_keys. rewrite <- list_fmap_compose.
  induction ks; simpl; f_equal; auto.
Qed.

End facts.

Lemma sum_set (d : Dict.t Z) k v v0 :
  Dict.get k d = Some v0 →
  foldr Z.add 0 (Dict.values (Dict.set k v d)) =
  foldr Z.add 0 (Dict.values d) - v0 + v.
Proof.
  unfold Dict.values. induction d as [|[k0 v1] d IH]; cbn [Dict.set Dict.get];
    [done|].
  case_decide; csimpl.
  - intros [= ->]. lia.
  - intros H'. rewrite (IH H'). lia.
Qed.

Lemma total_set (d : Dict.t (list Z)) k (h h0 : list Z) :
  Dict.get k d = Some h0 →
  (foldr Nat.add O (length <$> Dict.values (Dict.set k h d)) + length h0 =
   foldr Nat.add O (length <$> Dict.values d) + length h)%nat.
Proof.
  unfold Dict.values. induction d as [|[k0 v1] d IH]; cbn [Dict.set Dict.get];
    [done|].
  case_decide; csimpl.
  - intros [= ->]. lia.
  - intros H'. specialize (IH H'). lia.
Qed.

Lemma total_pop (d : Dict.t (list Z)) k :
  (foldr Nat.add O (length <$> Dict.values (Dict.pop k d)) ≤
   foldr Nat.add O (length <$> Dict.values d))%nat.
Proof.
  unfold Dict.values. induction d as [|[k0 v1] d IH]; cbn [Dict.pop];
    [done|].
  case_decide; csimpl; lia.
Qed.

End DictFacts.

(** ** Reasoning about runs *)

Section runs.
Context {A B : Type}.

Lemma bind_Ok (m : M A) (k : A → M B) w b w' :
  (m ≫= k) w = Ok b w' → ∃ a w1, m w = Ok a w1 ∧ k a w1 = Ok b w'.
Proof.
  unfold mbind, M_bind. destruct (m w) as [a w1| |]; [eauto | done | done].
Qed.

Lemma bind_run (m : M A) (k : A → M B) w a w1 :
  m w = Ok a w1 → (m ≫= k) w = k a w1.
Proof. unfold mbind, M_bind. by intros ->. Qed.

Lemma ret_Ok (a a' : A) w w' :
  (mret a : M A) w = Ok a' w' → a' = a ∧ w' = w.
Proof. unfold mret, M_ret. by intros [= -> ->]. Qed.

Lemma of_option_Ok e (o : option A) a w w' :
  of_option e o w = Ok a w' → o = Some a ∧ w' = w.
Proof. destruct o; simpl; [by intros [-> ->]%ret_Ok | done]. Qed.

Lemma triple_bind oof rs P (m : M A) Q (k : A → M B) R :
  triple oof rs P m Q → (∀ a, triple oof rs (Q a) (k a) R) →
  triple oof rs P (m ≫= k) R.
Proof.
  intros Hm Hk w HP. specialize (Hm w HP). unfold mbind, M_bind.
  destruct (m w) as [a w1| |]; simpl in *; [by apply Hk | done | done].
Qed.

Lemma triple_ret oof rs (P : world → Prop) (Q : A → world → Prop) a :
  (∀ w, P w → Q a w) → triple oof rs P (mret a) Q.
Proof. intros H w HP. by apply H. Qed.


End runs.

Lemma get_self_Ok w s w' : get_self w = Ok s w' → s = self w ∧ w' = w.
Proof. unfold get_self. by intros [= <- <-]. Qed.

Lemma modify_Ok f w u w' : modify f w = Ok u w' → w' = upd f w.
Proof. unfold modify, upd. by intros [= <-]. Qed.

Lemma randint_Ok rng n w k w' :
  randint rng n w = Ok k w' →
  0 < n ∧ k = rng (drawn w) `mod` n ∧
  w' = mkWorld (self w) (S (drawn w)) (searches w).
Proof. unfold randint. case_decide; [by intros [= <- <-] | done]. Qed.

Lemma log_search_Ok k w u w' :
  log_search k w = Ok u w' → w' = mkWorld (self w) (drawn w) (searches w ++ [k]).
Proof. unfold log_search. by intros [= <-]. Qed.

Lemma lookup_in_Ok {V} (field : RJCH → Dict.t V) k w v w' :
  lookup_in field k w = Ok v w' → Dict.get k (field (self w)) = Some v ∧ w' = w.
Proof.
  unfold lookup_in. intros (s & w1 & [-> ->]%get_self_Ok & H)%bind_Ok.
  by apply of_option_Ok in H.
Qed.

Lemma serversArray_at_Ok i w v w' :
  serversArray_at i w = Ok v w' → array_get (self w) i = Some v ∧ w' = w.
Proof.
  unfold serversArray_at. intros (s & w1 & [-> ->]%get_self_Ok & H)%bind_Ok.
  by apply of_option_Ok in H.
Qed.

(** Taking a run apart, one statement at a time. *)
Ltac simpl_state :=
  unfold array_get in *;
  cbn [upd self drawn searches serversCount totalServersAndPastCount
       duplicatesCount objectsCount totalObjectsAndPastCount epsilon loadCap
       totalFull servers fullFlag serversToIdx serversArray serversArrayLen
       serversContains objectsHistory objectsCurrent
       set_objectsCount set_totalObjectsAndPastCount set_totalFull
       set_servers set_fullFlag set_serversToIdx set_serversArray
       set_serversArrayLen set_serversContains set_objectsHistory
       set_objectsCurrent] in *.

Ltac inv_run1 :=
  match goal with
  | H : @mbind M _ _ _ _ _ _ = Ok _ _ |- _ =>
      apply bind_Ok in H; destruct H as (? & ? & ? & H)
  | H : @mret M _ _ _ _ = Ok _ _ |- _ =>
      apply ret_Ok in H; destruct H as [? ?]; subst
  | H : get_self _ = Ok _ _ |- _ =>
      apply get_self_Ok in H; destruct H as [? ?]; subst
  | H : modify _ _ = Ok _ _ |- _ => apply modify_Ok in H; subst
  | H : lookup_in _ _ _ = Ok _ _ |- _ =>
      apply lookup_in_Ok in H; destruct H as [H ?]; subst
  | H : serversArray_at _ _ = Ok _ _ |- _ =>
      apply serversArray_at_Ok in H; destruct H as [H ?]; subst
  | H : of_option _ _ _ = Ok _ _ |- _ =>
      apply of_option_Ok in H; destruct H as [H ?]; subst
  | H : randint _ _ _ = Ok _ _ |- _ =>
      apply randint_Ok in H; destruct H as (? & ? & ?); subst
  | H : log_search _ _ = Ok _ _ |- _ => apply log_search_Ok in H; subst
  | H : raise _ _ = Ok _ _ |- _ => discriminate H
  | H : out_of_fuel _ = Ok _ _ |- _ => discriminate H
  | H : (if decide ?P then _ else _) _ = Ok _ _ |- _ => destruct (decide P)
  | H : (if ?b then _ else _) _ = Ok _ _ |- _ =>
      let E := fresh "E" in destruct b eqn:E
  end.

Ltac inv_run := repeat (inv_run1; simpl_state).

(** Two reads of the same place give the same value. *)
Ltac same_reads :=
  repeat match goal with
  | H1 : ?a = Some ?x, H2 : ?a = Some ?y |- _ =>
      first [ constr_eq x y; clear H2
            | rewrite H1 in H2; injection H2 as ?; subst ]
  end.

Ltac unfold_ops :=
  unfold servers_add, mark_if_full, fullFlag_set, totalFull_add, contains_add,
    contains_remove, history_append, objectsHistory_set, objectsCurrent_set,
    objectsCurrent_pop, objectsHistory_pop, current_server,
    serversArray_set in *.

Lemma view_inv s s' :
  view s' = view s →
  serversArray s' = serversArray s ∧ serversArrayLen s' = serversArrayLen s ∧
  serversToIdx s' = serversToIdx s ∧ loadCap s' = loadCap s ∧
  objectsCount s' = objectsCount s ∧
  totalObjectsAndPastCount s' = totalObjectsAndPastCount s ∧
  objectsHistory s' = objectsHistory s ∧ objectsCurrent s' = objectsCurrent s ∧
  sum_loads s' = sum_loads s.
Proof. unfold view, ring_of, registry. intros [=]. by repeat split. Qed.

Lemma ring_of_array_get s s' x :
  ring_of s' = ring_of s → array_get s' x = array_get s x.
Proof. unfold ring_of, array_get. by intros [= -> -> _ _]. Qed.

Lemma ring_ok_ring s s' : ring_of s' = ring_of s → ring_ok s → ring_ok s'.
Proof.
  intros Hr [H]. split. intros k d x Hk Hx.
  rewrite (ring_of_array_get _ _ _ Hr). apply (H k d x); [|done].
  unfold ring_of in Hr. injection Hr as _ _ <- _. done.
Qed.

Lemma objects_ok_view s s' : view s' = view s → objects_ok s → objects_ok s'.
Proof.
  intros Hv [H1 H2 H3 H4].
  assert (Hr : ring_of s' = ring_of s) by (unfold view in Hv; congruence).
  apply view_inv in Hv as (_ & _ & _ & _ & _ & Ht & Hh & Hc & Hs).
  split.
  - intros o c. rewrite Hc, Hh. intros (h & k & ?)%H1. exists h, k.
    by rewrite (ring_of_array_get _ _ _ Hr).
  - by rewrite Hc.
  - rewrite Hc, Ht. done.
  - unfold live_count in *. by rewrite Hs, Hc.
Qed.

Lemma history_total_view s s' :
  view s' = view s → history_total s' = history_total s.
Proof.
  intros Hv. apply view_inv in Hv as (_ & _ & _ & _ & _ & _ & Hh & _).
  unfold history_total. by rewrite Hh.
Qed.

(** *** Straight-line code never runs out of fuel *)

Lemma total_bind {A B} (m : M A) (k : A → M B) :
  total m → (∀ a, total (k a)) → total (m ≫= k).
Proof.
  intros Hm Hk w. unfold mbind, M_bind. specialize (Hm w).
  destruct (m w); [apply Hk | done | done].
Qed.

Lemma total_ret {A} (a : A) : total (mret a : M A).
Proof. done. Qed.

Lemma total_raise {A} e : total (raise e : M A).
Proof. done. Qed.

Lemma total_of_option {A} e (o : option A) : total (of_option e o).
Proof. by destruct o. Qed.

Lemma total_get_self : total get_self.
Proof. done. Qed.

Lemma total_modify f : total (modify f).
Proof. done. Qed.

Lemma total_log_search k : total (log_search k).
Proof. done. Qed.

Lemma total_randint rng n : total (randint rng n).
Proof. intros w. unfold randint. by case_decide. Qed.

Ltac solve_total :=
  repeat first
    [ apply total_ret | apply total_raise | apply total_of_option
    | apply total_get_self | apply total_modify | apply total_log_search
    | apply total_randint
    | apply total_bind; [|intros ?]
    | match goal with
      | |- total (if decide ?P then _ else _) => destruct (decide P)
      | |- total (if ?b then _ else _) => destruct b
      | |- total (match ?l with [] => _ | _ :: _ => _ end) => destruct l
      end
    | assumption ].

Lemma total_lookup_in {V} (field : RJCH → Dict.t V) k : total (lookup_in field k).
Proof. unfold lookup_in. solve_total. Qed.

Lemma total_serversArray_at i : total (serversArray_at i).
Proof. unfold serversArray_at. solve_total. Qed.

Lemma total_valid_mover key i x : total (valid_mover key i x).
Proof. unfold valid_mover, current_server, serversArray_at, lookup_in. solve_total. Qed.

Lemma total_move_object key i x : total (move_object key i x).
Proof.
  unfold move_object. unfold_ops. unfold serversArray_at, lookup_in.
  solve_total.
Qed.

Lemma total_stop_if_filled key : total (stop_if_filled key).
Proof. unfold stop_if_filled. unfold_ops. unfold lookup_in. solve_total. Qed.

Lemma total_choice rng l : total (choice rng l).
Proof. unfold choice. solve_total. Qed.

Lemma total_shuffle rng n l : total (shuffle rng n l).
Proof.
  revert l. induction n as [|n IH]; intros [|x [|y l]]; simpl; solve_total.
  apply IH.
Qed.

(** *** What the steps of [fillBinOne] do *)

Lemma shuffle_Ok rng n l w l' w' :
  shuffle rng n l w = Ok l' w' →
  self w' = self w ∧ searches w' = searches w ∧ l' ⊆ l.
Proof.
  revert l w l' w'. induction n as [|n IH]; intros [|x [|y l]] w l' w' H;
    simpl in H; try (apply ret_Ok in H as [-> ->]; done).
  inv_run.
  match goal with
  | Hr : shuffle _ _ _ _ = Ok _ _ |- _ => apply IH in Hr as (Hs & Hl & Hsub)
  end.
  simpl in *. repeat split; [done..|].
  intros z [->|Hz]%elem_of_cons.
  - by eapply list_elem_of_lookup_2.
  - apply Hsub in Hz. revert Hz. apply sublist_subseteq, sublist_delete.
Qed.

Lemma valid_mover_Ok key i x w b w' :
  valid_mover key i x w = Ok b w' →
  w' = w ∧
  (b = true →
   ∃ h c k, Dict.get i (objectsHistory (self w)) = Some h ∧ x ∈ h ∧
            Dict.get i (objectsCurrent (self w)) = Some c ∧
            array_get (self w) c = Some k ∧ k ≠ key) ∧
  (b = false →
   ∃ h, Dict.get i (objectsHistory (self w)) = Some h ∧
        (x ∉ h ∨ ∃ c, Dict.get i (objectsCurrent (self w)) = Some c ∧
                      array_get (self w) c = Some key)).
Proof.
  unfold valid_mover, current_server. intros H. inv_run.
  - split; [done|]. split.
    + intros ?%bool_decide_eq_true. eauto 10.
    + intros Hk%bool_decide_eq_false. apply dec_stable in Hk. subst. eauto 10.
  - split; [done|]. split; [done|]. eauto.
Qed.

Lemma move_object_Ok key i x w b w' :
  move_object key i x w = Ok b w' →
  ∃ prev h idx,
    Dict.get i (objectsCurrent (self w)) = Some b ∧
    array_get (self w) b = Some prev ∧
    Dict.get i (objectsHistory (self w)) = Some h ∧
    list_index x h = Some idx ∧
    ring_of (self w') = ring_of (self w) ∧
    objectsCount (self w') = objectsCount (self w) ∧
    totalObjectsAndPastCount (self w') = totalObjectsAndPastCount (self w) ∧
    objectsCurrent (self w') = Dict.set i x (objectsCurrent (self w)) ∧
    objectsHistory (self w') =
      Dict.set i (take (S idx) h) (objectsHistory (self w)) ∧
    sum_loads (self w') = sum_loads (self w) ∧
    drawn w' = drawn w ∧ searches w' = searches w.
Proof.
  intros H. unfold move_object in H. unfold_ops. inv_run.
  all: repeat match goal with
       | H1 : ?a = Some ?x, H2 : ?a = Some ?y |- _ =>
           assert (x = y) by congruence; subst; clear H2
       end.
  all: eexists _, _, _; repeat split; try done.
  all: unfold sum_loads; simpl_state.
  all: match goal with
       | H : Dict.get _ (Dict.set _ _ _) = Some _ |- _ =>
           rewrite (DictFacts.sum_set _ _ _ _ H)
       end.
  all: match goal with
       | H : Dict.get _ (servers _) = Some _ |- _ =>
           rewrite (DictFacts.sum_set _ _ _ _ H)
       end; lia.
Qed.

Lemma stop_if_filled_Ok key w b w' :
  stop_if_filled key w = Ok b w' →
  view (self w') = view (self w) ∧ drawn w' = drawn w ∧
  searches w' = searches w.
Proof. intros H. unfold stop_if_filled in H. unfold_ops. by inv_run. Qed.

(** *** A proof rule for [fillBinOne]

    [P n] is a property of the object, indexed by a budget [n] that every
    move of an object uses up.  It has to survive whatever leaves [view]
    alone, and it pins the ring.  Then [fillBinOne] keeps [P n], and with
    [oof := False] it does so without running out of fuel as soon as the
    fuel exceeds the budget. *)
Section fill_rule.
Variable rng : nat → Z.
Variable oof : Prop.
Variable ring : gmap Z Z * Z * Dict.t (list Z) * Z.
Variable P : nat → RJCH → Prop.
Hypothesis P_ring : ∀ n s, P n s → ring_of s = ring.
Hypothesis P_mono : ∀ m n s, (m ≤ n)%nat → P m s → P n s.
Hypothesis P_view : ∀ n s s', view s' = view s → P n s → P n s'.
Hypothesis P_move : ∀ n key d i x w b w',
  P n (self w) → Dict.get key ring.1.2 = Some d → x ∈ d →
  valid_mover key i x w = Ok true w → move_object key i x w = Ok b w' →
  ∃ m, (m ≤ n)%nat ∧ (oof ∨ (m < n)%nat) ∧ P m (self w').


Lemma fill_step_keeps n rec key d i x :
  (∀ m slot, (m ≤ n)%nat → oof ∨ (m < n)%nat → keeps oof P m (rec slot)) →
  Dict.get key ring.1.2 = Some d → x ∈ d →
  keeps oof P n (fill_step rec key i x).
Proof.
  intros Hrec Hd Hx w HP. unfold fill_step, mbind, M_bind.
  pose proof (total_valid_mover key i x w) as Ht.
  destruct (valid_mover key i x w) as [ok w1| |] eqn:Hv; [|done|done].
  apply valid_mover_Ok in Hv as Hv'. destruct Hv' as [-> _].
  destruct ok; [|done].
  pose proof (total_move_object key i x w) as Ht'.
  destruct (move_object key i x w) as [b w2| |] eqn:Hm; [|done|done].
  destruct (P_move n key d i x w b w2 HP Hd Hx Hv Hm) as (m & Hle & Hlt & HP2).
  specialize (Hrec m b Hle Hlt w2 HP2).
  destruct (rec b w2) as [[] w3| |]; simpl in Hrec; [|done|done].
  pose proof (total_stop_if_filled key w3) as Ht''.
  destruct (stop_if_filled key w3) as [st w4| |] eqn:Hs; [|done|done].
  simpl. apply stop_if_filled_Ok in Hs as (Hview & _ & _).
  eapply P_view; [done|]. by eapply P_mono.
Qed.

Lemma fill_dups_keeps n rec key d i dups :
  (∀ m slot, (m ≤ n)%nat → oof ∨ (m < n)%nat → keeps oof P m (rec slot)) →
  Dict.get key ring.1.2 = Some d → dups ⊆ d →
  keeps oof P n (fill_dups rec key i dups).
Proof.
  intros Hrec Hd. induction dups as [|x dups IH]; intros Hsub; simpl.
  - by apply triple_ret.
  - eapply triple_bind.
    + eapply (fill_step_keeps n rec key d i x); [done..|]. set_solver.
    + intros [|]; simpl; [by apply triple_ret|]. apply IH. set_solver.
Qed.

Lemma fill_objects_keeps n rec key d dups objs :
  (∀ m slot, (m ≤ n)%nat → oof ∨ (m < n)%nat → keeps oof P m (rec slot)) →
  Dict.get key ring.1.2 = Some d → dups ⊆ d →
  keeps oof P n (fill_objects rec key dups objs).
Proof.
  intros Hrec Hd Hsub. induction objs as [|i objs IH]; simpl.
  - by apply triple_ret.
  - eapply triple_bind.
    + by eapply (fill_dups_keeps n rec key d i dups).
    + intros [|]; simpl; [by apply triple_ret | apply IH].
Qed.

Lemma fillBinOne_keeps fuel : ∀ n slot,
  oof ∨ (n < fuel)%nat → keeps oof P n (fillBinOne rng fuel slot).
Proof.
  induction fuel as [|fuel IH]; intros n slot Hn.
  - intros w _. simpl. destruct Hn as [?|?]; [done | lia].
  - intros w HP. cbn [fillBinOne]. unfold mbind, M_bind.
    pose proof (total_serversArray_at slot w) as T1.
    destruct (serversArray_at slot w) as [key w1| |] eqn:E1; [|done|done].
    apply serversArray_at_Ok in E1 as [E1 ->].
    pose proof (total_lookup_in servers key w) as T2.
    destruct (lookup_in servers key w) as [l w1| |] eqn:E2; [|done|done].
    apply lookup_in_Ok in E2 as [E2 ->]. cbn [get_self].
    case_decide; [done|]. cbn [log_search].
    set (w1 := mkWorld (self w) (drawn w) (searches w ++ [key])).
    pose proof (total_lookup_in serversToIdx key w1) as T3.
    destruct (lookup_in serversToIdx key w1) as [d w2| |] eqn:E3; [|done|done].
    apply lookup_in_Ok in E3 as [E3 ->].
    pose proof (total_shuffle rng (length d) d w1) as T4.
    destruct (shuffle rng (length d) d w1) as [dups w2| |] eqn:E4;
      [|done|done].
    apply shuffle_Ok in E4 as (Hs2 & _ & Hsub).
    pose proof (total_shuffle rng (length (Dict.keys (objectsHistory (self w2))))
                  (Dict.keys (objectsHistory (self w2))) w2) as T5.
    destruct (shuffle rng _ (Dict.keys (objectsHistory (self w2))) w2)
      as [objs w3| |] eqn:E5; [|done|done].
    apply shuffle_Ok in E5 as (Hs3 & _ & _).
    assert (HP3 : P n (self w3)) by (by rewrite Hs3, Hs2).
    apply (fill_objects_keeps n (fillBinOne rng fuel) key d dups objs);
      [| |done|done].
    + intros m slot' Hle Hlt. apply IH. destruct Hn, Hlt; auto; right; lia.
    + simpl in E3. rewrite <- (P_ring n (self w) HP). done.
Qed.

End fill_rule.

(** *** [lst.index] and truncation *)

Lemma list_index_Some x h idx :
  list_index x h = Some idx →
  h !! idx = Some x ∧ last (take (S idx) h) = Some x.
Proof.
  revert idx. induction h as [|y h IH]; intros idx; simpl; [done|].
  case_decide.
  - intros [= <-]. by subst.
  - destruct (list_index x h) as [j|] eqn:E; simpl; [|done].
    intros [= <-]. destruct (IH j eq_refl) as [H1 H2]. split; [done|].
    rewrite last_cons. by rewrite H2.
Qed.


Lemma list_index_not_last x h idx c :
  list_index x h = Some idx → last h = Some c → x ≠ c →
  (S idx < length h)%nat.
Proof.
  intros [Hl _]%list_index_Some Hlast Hne.
  apply lookup_lt_Some in Hl as Hlt.
  destruct (decide (S idx = length h)) as [Heq|]; [|lia].
  rewrite last_lookup in Hlast. replace (pred (length h)) with idx in Hlast by lia.
  congruence.
Qed.

(** *** [fillBinOne] keeps the counts *)

Lemma fillBinOne_counts rng fuel slot w w' :
  fillBinOne rng fuel slot w = Ok tt w' → counts (self w') = counts (self w).
Proof.
  intros H.
  pose proof (fillBinOne_keeps rng True (ring_of (self w))
                (λ _ s, counts s = counts (self w))) as K.
  specialize (K (λ n s Hs, f_equal (λ c, c.1.1.1.1) Hs)).
  specialize (K (λ _ _ _ _ Hs, Hs)).
  assert (Hview : ∀ (n : nat) s s', view s' = view s →
            counts s = counts (self w) → counts s' = counts (self w)).
  { intros _ s s' Hv <-. apply view_inv in Hv
      as (? & ? & ? & ? & ? & ? & ? & ? & ?).
    unfold counts, ring_of. congruence. }
  specialize (K Hview).
  assert (Hmove : ∀ (n : nat) key (d : list Z) i x w0 b w0',
            counts (self w0) = counts (self w) →
            Dict.get key (ring_of (self w)).1.2 = Some d → x ∈ d →
            valid_mover key i x w0 = Ok true w0 →
            move_object key i x w0 = Ok b w0' →
            ∃ m, (m ≤ n)%nat ∧ (True ∨ (m < n)%nat) ∧
                 counts (self w0') = counts (self w)).
  { intros n key d i x w0 b w0' Hc _ _ _ Hm. exists n. split; [done|].
    split; [by left|]. rewrite <- Hc.
    apply move_object_Ok in Hm
      as (prev & h & idx & Hb & _ & _ & _ & Hr & Hoc & Ht & Hcur & _ & Hs & _).
    unfold counts. rewrite Hr, Hoc, Ht, Hs, Hcur.
    by rewrite (DictFacts.keys_set_Some _ _ _ _ Hb). }
  specialize (K Hmove fuel O slot (or_introl I) w eq_refl).
  by rewrite H in K.
Qed.

(** *** [fillBinOne] keeps the ring and the registry in order, and every
    move shortens a probe history *)

Lemma move_object_well_formed key d i x w b w' :
  well_formed (self w) →
  Dict.get key (serversToIdx (self w)) = Some d → x ∈ d →
  valid_mover key i x w = Ok true w → move_object key i x w = Ok b w' →
  well_formed (self w') ∧
  (history_total (self w') < history_total (self w))%nat.
Proof.
  intros [Hring Hobj] Hd Hx Hv Hm.
  apply valid_mover_Ok in Hv as (_ & Hv & _).
  destruct (Hv eq_refl) as (h & c & k & Hh & Hxh & Hc & Hk & Hne).
  apply move_object_Ok in Hm
    as (prev & h' & idx & Hb & _ & Hh' & Hidx & Hr & Hoc & Ht & Hcur & Hhist
        & Hs & _).
  assert (h' = h) by congruence. subst h'.
  assert (b = c) by congruence. subst b.
  destruct (dups_owned _ Hring key d x Hd Hx) as [Hxk Hk1].
  assert (x ≠ c) by congruence.
  destruct (cur_hist _ Hobj i c Hc) as (h0 & k0 & Hh0 & Hlast & _).
  assert (h0 = h) by congruence. subst h0.
  pose proof (list_index_not_last _ _ _ _ Hidx Hlast H) as Hlt.
  apply list_index_Some in Hidx as [_ Hlast'].
  split; [split|].
  - by apply (ring_ok_ring (self w)).
  - split.
    + intros o c'. rewrite Hcur, Hhist, !DictFacts.get_set.
      rewrite !(ring_of_array_get _ _ _ Hr). case_decide.
      * intros [= <-]. eauto 10.
      * apply (cur_hist _ Hobj).
    + rewrite Hcur. by apply DictFacts.keys_set_nodup, (keys_nodup _ Hobj).
    + rewrite Hcur, Ht, (DictFacts.keys_set_Some _ _ _ _ Hc).
      apply (keys_fresh _ Hobj).
    + unfold live_count. rewrite Hs, Hcur,
        (DictFacts.length_set_Some _ _ _ _ Hc). apply (loads_live _ Hobj).
  - unfold history_total. rewrite Hhist.
    pose proof (DictFacts.total_set (objectsHistory (self w)) i
                  (take (S idx) h) h Hh) as Htot.
    rewrite length_take in Htot. lia.
Qed.

Lemma fillBinOne_bounded rng (oof : Prop) fuel n slot w :
  well_formed (self w) → (history_total (self w) ≤ n)%nat →
  oof ∨ (n < fuel)%nat →
  post oof True
    (λ _ w', ring_of (self w') = ring_of (self w) ∧ well_formed (self w') ∧
             (history_total (self w') ≤ n)%nat)
    (fillBinOne rng fuel slot w).
Proof.
  intros Hwf Hn Hfuel.
  pose proof (fillBinOne_keeps rng oof (ring_of (self w))
    (λ n s, ring_of s = ring_of (self w) ∧ well_formed s ∧
            (history_total s ≤ n)%nat)) as K.
  specialize (K (λ _ _ Hs, proj1 Hs)).
  assert (Hmono : ∀ (m n : nat) s, (m ≤ n)%nat →
     ring_of s = ring_of (self w) ∧ well_formed s ∧ (history_total s ≤ m)%nat →
     ring_of s = ring_of (self w) ∧ well_formed s ∧ (history_total s ≤ n)%nat).
  { intros m n' s Hle (? & ? & ?). split; [done|]. split; [done|lia]. }
  specialize (K Hmono).
  assert (Hview : ∀ (n : nat) s s', view s' = view s →
     ring_of s = ring_of (self w) ∧ well_formed s ∧ (history_total s ≤ n)%nat →
     ring_of s' = ring_of (self w) ∧ well_formed s' ∧
     (history_total s' ≤ n)%nat).
  { intros n' s s' Hv (Hr & [Hro Hoo] & Hh).
    assert (Hr' : ring_of s' = ring_of s) by (unfold view in Hv; congruence).
    split; [congruence|]. split; [split|].
    - by apply (ring_ok_ring s).
    - by apply (objects_ok_view s).
    - by rewrite (history_total_view _ _ Hv). }
  specialize (K Hview).
  assert (Hmove : ∀ (n : nat) key (d : list Z) i x w0 b w0',
     ring_of (self w0) = ring_of (self w) ∧ well_formed (self w0) ∧
     (history_total (self w0) ≤ n)%nat →
     Dict.get key (ring_of (self w)).1.2 = Some d → x ∈ d →
     valid_mover key i x w0 = Ok true w0 →
     move_object key i x w0 = Ok b w0' →
     ∃ m, (m ≤ n)%nat ∧ (oof ∨ (m < n)%nat) ∧
          ring_of (self w0') = ring_of (self w) ∧ well_formed (self w0') ∧
          (history_total (self w0') ≤ m)%nat).
  { intros n' key d i x w0 b w0' (Hr & Hwf0 & Hh) Hd Hx Hv Hm.
    assert (Hd' : Dict.get key (serversToIdx (self w0)) = Some d).
    { rewrite <- Hd. unfold ring_of in Hr. by injection Hr as _ _ -> _. }
    destruct (move_object_well_formed _ _ _ _ _ _ _ Hwf0 Hd' Hx Hv Hm)
      as [Hwf' Hlt].
    apply move_object_Ok in Hm as (_ & _ & _ & _ & _ & _ & _ & Hr' & _).
    exists (history_total (self w0')).
    split; [lia|]. split; [right; lia|]. split; [congruence|]. done. }
  specialize (K Hmove fuel n slot Hfuel w).
  eapply (K (conj eq_refl (conj Hwf Hn))).
Qed.

Lemma fillBinOne_well_formed rng fuel slot w w' :
  well_formed (self w) → fillBinOne rng fuel slot w = Ok tt w' →
  well_formed (self w') ∧
  (history_total (self w') ≤ history_total (self w))%nat.
Proof.
  intros Hwf H.
  pose proof (fillBinOne_bounded rng True fuel _ slot w Hwf (le_n _)
                (or_introl I)) as K.
  rewrite H in K. simpl in K. tauto.
Qed.

Lemma fillBinOne_terminates rng fuel slot w :
  well_formed (self w) → (history_total (self w) < fuel)%nat →
  fillBinOne rng fuel slot w ≠ OutOfFuel.
Proof.
  intros Hwf Hlt.
  pose proof (fillBinOne_bounded rng False fuel _ slot w Hwf (le_n _)
                (or_intror Hlt)) as K.
  intros E. by rewrite E in K.
Qed.

(** *** Running a computation forward *)

Lemma bind_raise {A B} (m : M A) (k : A → M B) w e w1 :
  m w = Raise e w1 → (m ≫= k) w = Raise e w1.
Proof. unfold mbind, M_bind. by intros ->. Qed.

Lemma bind_oof {A B} (m : M A) (k : A → M B) w :
  m w = OutOfFuel → (m ≫= k) w = OutOfFuel.
Proof. unfold mbind, M_bind. by intros ->. Qed.

Ltac total_prim :=
  first [ apply total_choice | apply total_shuffle
        | unfold_ops; unfold lookup_in, serversArray_at; solve_total ].

(** One statement forward: the run goes on after it, or the goal is settled
    by [tac] when the statement raises. *)
Ltac fwd_with tac :=
  match goal with
  | |- context [@mbind M _ _ _ ?k ?m ?w] =>
      let E := fresh "E" in
      destruct (m w) as [? ?|? ?|] eqn:E;
      [ rewrite (bind_run _ _ _ _ _ E)
      | rewrite (bind_raise _ _ _ _ _ E); tac
      | exfalso; revert E; by total_prim ]
  end.

Lemma choice_Ok rng l w o w' :
  choice rng l w = Ok o w' →
  l !! Z.to_nat (rng (drawn w) `mod` Z.of_nat (length l)) = Some o ∧
  self w' = self w ∧ drawn w' = S (drawn w) ∧ searches w' = searches w.
Proof.
  unfold choice. destruct l as [|x l]; [done|]. intros H. by inv_run.
Qed.

(** *** [removeOneObject]: the object leaves, then the bin is refilled *)

Lemma removeOneObject_split rng fuel w :
  (∃ e w0, removeOneObject rng fuel w = Raise e w0) ∨
  ∃ o c k w1,
    Dict.keys (objectsCurrent (self w)) !!
      Z.to_nat (rng (drawn w) `mod`
                Z.of_nat (length (Dict.keys (objectsCurrent (self w)))))
      = Some o ∧
    Dict.get o (objectsCurrent (self w)) = Some c ∧
    array_get (self w) c = Some k ∧
    ring_of (self w1) = ring_of (self w) ∧
    objectsCount (self w1) = objectsCount (self w) - 1 ∧
    totalObjectsAndPastCount (self w1) = totalObjectsAndPastCount (self w) ∧
    objectsCurrent (self w1) = Dict.pop o (objectsCurrent (self w)) ∧
    objectsHistory (self w1) = Dict.pop o (objectsHistory (self w)) ∧
    sum_loads (self w1) = sum_loads (self w) - 1 ∧
    searches w1 = searches w ∧
    (removeOneObject rng fuel w = Ok tt w1 ∨
     removeOneObject rng fuel w = fillBinOne rng fuel c w1).
Proof.
  unfold removeOneObject.
  do 10 fwd_with ltac:(left; eauto).
  match goal with
  | E : choice _ _ _ = Ok _ _ |- _ =>
      apply choice_Ok in E as (Hch & Hself & _ & Hsrch)
  end.
  assert (Hsum : ∀ k l d, Dict.get k d = Some l →
            foldr Z.add 0 (Dict.values (Dict.set k (l + -1) d)) =
            foldr Z.add 0 (Dict.values d) - 1).
  { intros k l d Hk. rewrite (DictFacts.sum_set _ _ _ _ Hk). lia. }
  match goal with |- context [if ?b then _ else _] => destruct b end.
  - do 2 fwd_with ltac:(left; eauto). unfold_ops. inv_run. right.
    match goal with
    | Ho : _ !! _ = Some ?o, Hc : Dict.get ?o _ = Some ?c,
      Hk : array_read _ _ ?c = Some ?k |- context [fillBinOne _ _ _ ?wf] =>
        exists o, c, k, wf
    end.
    simpl. rewrite !Hself in *. unfold sum_loads. simpl. rewrite ?Hself.
    repeat split; try done; [by apply Hsum | by right].
  - unfold_ops. inv_run. right.
    match goal with
    | Ho : _ !! _ = Some ?o, Hc : Dict.get ?o _ = Some ?c,
      Hk : array_read _ _ ?c = Some ?k |- context [@mret M _ _ _ ?wf] =>
        exists o, c, k, wf
    end.
    simpl. rewrite !Hself in *. unfold sum_loads. simpl. rewrite ?Hself.
    repeat split; try done; [by apply Hsum | by left].
Qed.

Lemma pop_well_formed s s' o c :
  well_formed s →
  Dict.get o (objectsCurrent s) = Some c →
  ring_of s' = ring_of s →
  totalObjectsAndPastCount s' = totalObjectsAndPastCount s →
  objectsCurrent s' = Dict.pop o (objectsCurrent s) →
  objectsHistory s' = Dict.pop o (objectsHistory s) →
  sum_loads s' = sum_loads s - 1 →
  well_formed s' ∧ (history_total s' ≤ history_total s)%nat.
Proof.
  intros [Hring Hobj] Hc Hr Ht Hcur Hhist Hs. split; [split|].
  - by apply (ring_ok_ring s).
  - pose proof (keys_nodup _ Hobj) as Hnd. split.
    + intros o' c'. rewrite Hcur, Hhist. intros Hg.
      assert (o ≠ o').
      { intros <-. by rewrite (DictFacts.get_pop_eq _ _ Hnd) in Hg. }
      rewrite DictFacts.get_pop_ne in Hg by done.
      rewrite DictFacts.get_pop_ne by done.
      rewrite !(ring_of_array_get _ _ _ Hr). by apply (cur_hist _ Hobj).
    + rewrite Hcur. by apply DictFacts.keys_pop_nodup.
    + rewrite Hcur, Ht. intros o' Ho'%DictFacts.keys_pop_subseteq.
      by apply (keys_fresh _ Hobj).
    + unfold live_count. rewrite Hs, Hcur, (loads_live _ Hobj).
      unfold live_count. pose proof (DictFacts.length_pop _ _ _ Hc). lia.
  - unfold history_total. rewrite Hhist. apply DictFacts.total_pop.
Qed.

Lemma removeOneObject_well_formed rng fuel w w' :
  well_formed (self w) → removeOneObject rng fuel w = Ok tt w' →
  well_formed (self w').
Proof.
  intros Hwf H.
  destruct (removeOneObject_split rng fuel w) as [(e & w0 & E)|
    (o & c & k & w1 & _ & Hc & _ & Hr & _ & Ht & Hcur & Hhist & Hs & _ & Hcase)];
    [congruence|].
  destruct (pop_well_formed _ _ _ _ Hwf Hc Hr Ht Hcur Hhist Hs) as [Hwf1 _].
  destruct Hcase as [E|E]; rewrite E in H.
  - by injection H as <-.
  - by apply (fillBinOne_well_formed rng fuel c w1).
Qed.

Lemma removeOneObject_terminates rng fuel w :
  well_formed (self w) → (history_total (self w) < fuel)%nat →
  removeOneObject rng fuel w ≠ OutOfFuel.
Proof.
  intros Hwf Hlt.
  destruct (removeOneObject_split rng fuel w) as [(e & w0 & E)|
    (o & c & k & w1 & _ & Hc & _ & Hr & _ & Ht & Hcur & Hhist & Hs & _ & Hcase)];
    [congruence|].
  destruct (pop_well_formed _ _ _ _ Hwf Hc Hr Ht Hcur Hhist Hs) as [Hwf1 Hle].
  destruct Hcase as [E|E]; rewrite E; [done|].
  apply fillBinOne_terminates; [done|lia].
Qed.

(** *** Probing and placing *)

Lemma slot_unusable_Ok num w b w' :
  slot_unusable num w = Ok b w' →
  w' = w ∧ (b = true → passed_over (self w) num) ∧
  (b = false → eligible (self w) num).
Proof.
  unfold slot_unusable, passed_over, eligible. intros H. inv_run.
  - split; [done|]. split; [|done]. intros _. left. by subst.
  - assert (x0 = x) by congruence. subst x0.
    split; [done|]. split; intros ->; [right|]; eauto.
Qed.


Lemma set_objectsHistory_id s : set_objectsHistory (objectsHistory s) s = s.
Proof. by destruct s. Qed.

Lemma probes_S rng w n :
  probes rng w (S n) =
  rng (drawn w) `mod` serversArrayLen (self w)
  :: probes rng (mkWorld (self w) (S (drawn w)) (searches w)) n.
Proof.
  unfold probes. simpl. rewrite Nat.add_0_r. f_equal.
  rewrite <- fmap_S_seq, <- list_fmap_compose. apply list_fmap_ext.
  intros i x _. simpl. by rewrite Nat.add_succ_r.
Qed.

Lemma probes_ext rng w1 w2 n :
  drawn w1 = drawn w2 →
  serversArrayLen (self w1) = serversArrayLen (self w2) →
  probes rng w1 n = probes rng w2 n.
Proof. unfold probes. by intros -> ->. Qed.

Lemma probe_Ok rng fuel : ∀ o num w h num' w',
  Dict.get o (objectsHistory (self w)) = Some h →
  probe rng fuel o num w = Ok num' w' →
  ∃ n ps,
    drawn w' = (drawn w + n)%nat ∧ searches w' = searches w ∧
    self w' = set_objectsHistory
                (Dict.set o (h ++ probes rng w n) (objectsHistory (self w)))
                (self w) ∧
    num :: probes rng w n = ps ++ [num'] ∧
    Forall (passed_over (self w)) ps ∧ eligible (self w) num'.
Proof.
  induction fuel as [|fuel IH]; intros o num w h num' w' Hh H.
  - simpl in H. apply bind_Ok in H as (b & w1 & Hb & H).
    apply slot_unusable_Ok in Hb as (-> & _ & Hel).
    destruct b; [done|]. apply ret_Ok in H as [-> ->].
    exists O, []. rewrite Nat.add_0_r, app_nil_r.
    rewrite (DictFacts.set_id _ _ _ Hh), set_objectsHistory_id.
    repeat split; [constructor | by apply Hel].
  - cbn [probe] in H. apply bind_Ok in H as (b & w1 & Hb & H).
    apply slot_unusable_Ok in Hb as (-> & Hpass & Hel).
    destruct b.
    + unfold history_append, objectsHistory_set in H. inv_run.
      match goal with Hr : probe _ _ _ _ _ = Ok _ _ |- _ =>
        eapply IH in Hr as (n & ps & Hd & Hs & Hself & Hps & Hall & He);
        [|simpl; apply DictFacts.get_set_eq] end.
      rewrite (probes_ext rng _
                 (mkWorld (self w) (S (drawn w)) (searches w))) in * by done.
      simpl_state. exists (S n), (num :: ps). same_reads.
      rewrite probes_S. split; [lia|]. split; [done|]. split.
      * rewrite Hself, DictFacts.set_set, <- app_assoc. done.
      * split; [simpl; by rewrite Hps|]. split; [|done].
        constructor; [by apply Hpass|done].
    + apply ret_Ok in H as [-> ->]. exists O, [].
      rewrite Nat.add_0_r, app_nil_r.
      rewrite (DictFacts.set_id _ _ _ Hh), set_objectsHistory_id.
    repeat split; [constructor | by apply Hel].
Qed.

Lemma passed_over_frame s s' p :
  ring_of s' = ring_of s → fullFlag s' = fullFlag s →
  passed_over s p → passed_over s' p.
Proof.
  intros Hr Hf. unfold passed_over. by rewrite (ring_of_array_get _ _ _ Hr), Hf.
Qed.


Lemma addOneObject_Ok rng fuel w w' :
  addOneObject rng fuel w = Ok tt w' →
  let s := self w in
  let o := totalObjectsAndPastCount s in
  ∃ n ps num k l c,
    probes rng w (S n) = ps ++ [num] ∧ Forall (passed_over s) ps ∧
    array_get s num = Some k ∧ k ≠ -1 ∧
    Dict.get k (fullFlag s) = Some false ∧
    Dict.get k (servers s) = Some l ∧
    Dict.get k (serversContains s) = Some c ∧
    drawn w' = (drawn w + S n)%nat ∧ searches w' = searches w ∧
    self w' = set_totalObjectsAndPastCount (o + 1)
                (set_objectsCount (objectsCount s + 1)
                   (placed o num k l c (probes rng w (S n)) s)).
Proof.
  intros H. cbv zeta. unfold addOneObject in H.
  apply bind_Ok in H as (s0 & w0 & [-> ->]%get_self_Ok & H).
  apply bind_Ok in H as (num0 & w0 & (Hlen & -> & ->)%randint_Ok & H).
  apply bind_Ok in H as (s0 & w0 & [-> ->]%get_self_Ok & H).
  apply bind_Ok in H as (u & w0 & Hset & H).
  unfold objectsHistory_set in Hset. apply modify_Ok in Hset as ->.
  apply bind_Ok in H as (s0 & w0 & [-> ->]%get_self_Ok & H).
  apply bind_Ok in H as (num & w2 & Hp & H). simpl_state.
  eapply probe_Ok in Hp as (n & ps & Hd & Hsr & Hself & Hps & Hall & Hel);
    [|simpl; apply DictFacts.get_set_eq].
  rewrite (probes_ext rng _ (mkWorld (self w) (S (drawn w)) (searches w)))
    in * by done.
  change ([?x] ++ ?l) with (x :: l) in Hself.
  rewrite <- probes_S in Hself, Hps. simpl_state.
  rewrite DictFacts.set_set in Hself.
  eapply Forall_impl in Hall;
    [|intros p Hp; exact (passed_over_frame _ (self w) p eq_refl eq_refl Hp)].
  destruct Hel as (k & Hk & Hk1 & Hkf). simpl_state.
  destruct w2 as [s2 d2 l2]. simpl in Hd, Hsr, Hself. subst s2 d2 l2.
  unfold_ops. inv_run. all: same_reads.
  all: exists n, ps, num, k; eexists _, _.
  all: repeat (split; [first [done | lia | eassumption]|]).
  all: unfold placed; simpl_state.
  - rewrite DictFacts.get_set_eq in *.
    match goal with H : Some _ = Some _ |- _ => injection H as H end.
    by rewrite decide_True.
  - rewrite DictFacts.get_set_eq in *.
    match goal with H : Some _ = Some _ |- _ => injection H as H end.
    rewrite decide_False; [done | congruence].
Qed.

(** *** [start]: the ring *)

Lemma randint_run rng n w :
  0 < n →
  randint rng n w =
  Ok (rng (drawn w) `mod` n) (mkWorld (self w) (S (drawn w)) (searches w)).
Proof. intros. unfold randint. by rewrite decide_True. Qed.

Lemma serversArray_at_run i w v :
  array_get (self w) i = Some v → serversArray_at i w = Ok v w.
Proof. unfold serversArray_at, mbind, M_bind, get_self. by intros ->. Qed.

Lemma array_get_in_range s i :
  0 ≤ i < serversArrayLen s →
  array_get s i = Some (default (-1) (serversArray s !! i)).
Proof. intros. unfold array_get, array_read. by rewrite decide_True. Qed.

Lemma find_free_spec rng fuel : ∀ cur w,
  0 ≤ cur < serversArrayLen (self w) →
  post True False
    (λ cur' w', self w' = self w ∧ searches w' = searches w ∧
                0 ≤ cur' < serversArrayLen (self w) ∧
                array_get (self w) cur' = Some (-1))
    (find_free rng fuel cur w).
Proof.
  induction fuel as [|fuel IH]; intros cur w Hcur.
  - simpl. rewrite (bind_run _ _ _ _ _
      (serversArray_at_run _ _ _ (array_get_in_range _ _ Hcur))).
    case_decide as Hv; simpl; [done|].
    rewrite array_get_in_range by done. by rewrite Hv.
  - cbn [find_free]. rewrite (bind_run _ _ _ _ _
      (serversArray_at_run _ _ _ (array_get_in_range _ _ Hcur))).
    case_decide as Hv.
    + unfold mbind at 1, M_bind at 1. cbn [get_self].
      assert (Hlen : 0 < serversArrayLen (self w)) by lia.
      rewrite (bind_run _ _ _ _ _ (randint_run rng _ w Hlen)).
      specialize (IH (rng (drawn w) `mod` serversArrayLen (self w))
                    (mkWorld (self w) (S (drawn w)) (searches w))).
      simpl in IH. apply IH. apply Z.mod_pos_bound. lia.
    + simpl. rewrite array_get_in_range by done. by rewrite Hv.
Qed.

Lemma post_bind {A B} oof rs (m : M A) (k : A → M B) w
    (Q : A → world → Prop) (R : B → world → Prop) :
  post oof rs Q (m w) → (∀ a w1, Q a w1 → post oof rs R (k a w1)) →
  post oof rs R ((m ≫= k) w).
Proof.
  unfold mbind, M_bind. destruct (m w) as [a w1| |]; simpl; auto.
Qed.

Lemma array_read_insert_other arr n cur i x k :
  0 ≤ cur < n → array_read arr n cur = Some (-1) →
  array_read arr n x = Some k → k ≠ -1 →
  array_read (<[cur:=i]> arr) n x = Some k.
Proof.
  unfold array_read. intros Hcur Hfree Hx Hk.
  rewrite decide_True in Hfree by done.
  repeat case_decide; try done.
  - rewrite lookup_insert_ne; [done|]. intros <-. congruence.
  - rewrite lookup_insert_ne; [done|]. intros ->. congruence.
Qed.

Lemma array_read_insert_eq arr n cur i :
  0 ≤ cur < n → array_read (<[cur:=i]> arr) n cur = Some i.
Proof.
  intros. unfold array_read. rewrite decide_True by done.
  by rewrite lookup_insert_eq.
Qed.

Lemma ring_building_insert s n cur i :
  ring_building s n → 0 ≤ cur < serversArrayLen s →
  array_get s cur = Some (-1) → i ≠ -1 →
  ring_building (set_serversArray (<[cur:=i]> (serversArray s)) s) (S n).
Proof.
  intros (Hlen & Hsize & Hvals & [Hring]) Hcur Hfree Hi.
  assert (Hnone : serversArray s !! cur = None).
  { rewrite array_get_in_range in Hfree by done.
    destruct (serversArray s !! cur) as [v|] eqn:E; [|done].
    apply Hvals in E as [_ E]. simpl in Hfree. congruence. }
  split; [done|]. split; [|split].
  - simpl. rewrite map_size_insert_None by done. by rewrite Hsize.
  - simpl. intros x v. rewrite lookup_insert. case_decide.
    + intros [= <-]. split; [lia | done].
    + apply Hvals.
  - split. intros k d x Hd Hx. simpl in Hd.
    destruct (Hring k d x Hd Hx) as [Hxk Hk]. split; [|done].
    unfold array_get in *. simpl. by apply array_read_insert_other.
Qed.

Lemma serversArray_set_run i v w :
  0 ≤ i < serversArrayLen (self w) →
  serversArray_set i v w =
  Ok tt (upd (λ s, set_serversArray (<[i:=v]> (serversArray s)) s) w).
Proof.
  intros. unfold serversArray_set, mbind, M_bind, get_self.
  by rewrite decide_True.
Qed.

Lemma assign_dups_spec rng fuel i : ∀ js dups n w,
  ring_building (self w) n → i ≠ -1 →
  (∀ x, x ∈ dups → array_get (self w) x = Some i) →
  post True False
    (λ dups' w',
       outside_ring (self w') = outside_ring (self w) ∧
       serversToIdx (self w') = serversToIdx (self w) ∧
       searches w' = searches w ∧
       ring_building (self w') (n + length js) ∧
       (∀ x, x ∈ dups' → array_get (self w') x = Some i))
    (assign_dups rng fuel i js dups w).
Proof.
  induction js as [|j js IH]; intros dups n w Hb Hi Hd.
  - simpl. rewrite Nat.add_0_r. done.
  - cbn [assign_dups]. unfold mbind at 1, M_bind at 1. cbn [get_self].
    destruct Hb as (Hlen & Hb').
    assert (Hpos : 0 < serversArrayLen (self w)) by (rewrite Hlen; lia).
    rewrite (bind_run _ _ _ _ _ (randint_run rng _ w Hpos)).
    eapply post_bind.
    { apply find_free_spec. simpl. by apply Z.mod_pos_bound. }
    intros cur w1 (Hs1 & Hsr1 & Hcur & Hfree). simpl in Hs1, Hsr1, Hcur, Hfree.
    rewrite <- Hs1 in Hcur.
    rewrite (bind_run _ _ _ _ _ (serversArray_set_run cur i w1 Hcur)).
    rewrite Hs1 in Hcur. unfold upd. rewrite Hs1.
    assert (Hb1 : ring_building
              (set_serversArray (<[cur:=i]> (serversArray (self w))) (self w))
              (S n)).
    { apply ring_building_insert; [by split|done..]. }
    match goal with |- post _ _ _ (assign_dups _ _ _ _ _ ?w2') =>
      set (w2 := w2') end.
    assert (Hall2 : ∀ x, x ∈ dups ++ [cur] → array_get (self w2) x = Some i).
    { simpl. intros x [Hx| ->%list_elem_of_singleton]%elem_of_app.
      * unfold array_get in *. simpl. apply array_read_insert_other; try done.
        by apply Hd.
      * unfold array_get. simpl. by apply array_read_insert_eq. }
    pose proof (IH (dups ++ [cur]) (S n) w2 Hb1 Hi Hall2) as K.
    destruct (assign_dups rng fuel i js (dups ++ [cur]) w2)
      as [dups' w3| |]; simpl in *; [|done..].
    destruct K as (Ho & Hidx & Hsr & Hrb & Hall).
    rewrite Ho, Hidx, Hsr.
    split; [done|]. split; [done|]. split; [done|]. split; [|done].
    by replace (n + S (length js))%nat with (S (n + length js))%nat by lia.
Qed.

Lemma assign_servers_spec rng fuel : ∀ ks n w,
  ring_building (self w) n → (∀ i, i ∈ ks → i ≠ -1) →
  post True False
    (λ _ w',
       outside_ring (self w') = outside_ring (self w) ∧
       searches w' = searches w ∧
       ring_building (self w')
         (n + length ks * length (range (duplicatesCount (self w)))))
    (assign_servers rng fuel ks w).
Proof.
  induction ks as [|i ks IH]; intros n w Hb Hks.
  - simpl. by rewrite Nat.add_0_r.
  - cbn [assign_servers]. unfold mbind at 1, M_bind at 1. cbn [get_self].
    eapply post_bind.
    { apply (assign_dups_spec rng fuel i _ [] n w Hb).
      - apply Hks. left.
      - by intros x ?%elem_of_nil. }
    intros dups w1 (Ho & Hidx & Hsr & Hb1 & Hall).
    unfold mbind at 1, M_bind at 1. cbn [modify].
    set (w2 := mkWorld _ _ _).
    assert (Hb2 : ring_building (self w2)
                    (n + length (range (duplicatesCount (self w))))).
    { destruct Hb1 as (Hlen & Hsize & Hvals & [Hring]).
      split; [done|]. split; [done|]. split; [done|]. split.
      intros k d x. simpl. rewrite DictFacts.get_set. case_decide.
      - intros [= <-] Hx. subst k. unfold array_get in *. simpl.
        split; [by apply Hall | apply Hks; left].
      - intros Hd Hx. unfold array_get in *. simpl. by apply (Hring k d x). }
    eapply IH in Hb2; [|intros; apply Hks; by right].
    destruct (assign_servers rng fuel ks w2) as [u w3| |]; simpl in *;
      [|done..].
    destruct Hb2 as (Ho3 & Hsr3 & Hb3).
    assert (Hdc : duplicatesCount (self w1) = duplicatesCount (self w)).
    { apply (f_equal duplicatesCount) in Ho. done. }
    rewrite Hdc in Hb3. split; [|split].
    + rewrite Ho3. unfold outside_ring in *. simpl. done.
    + by rewrite Hsr3.
    + replace (n + (length (range (duplicatesCount (self w))) +
                    length ks * length (range (duplicatesCount (self w)))))%nat
        with (n + length (range (duplicatesCount (self w))) +
              length ks * length (range (duplicatesCount (self w))))%nat by lia.
      done.
Qed.

(** *** [start]: the objects *)

Lemma history_append_Ok o num w u w' :
  history_append o num w = Ok u w' →
  ∃ h, Dict.get o (objectsHistory (self w)) = Some h ∧
       w' = upd (set_objectsHistory
                   (Dict.set o (h ++ [num]) (objectsHistory (self w)))) w.
Proof.
  unfold history_append, objectsHistory_set. intros H. inv_run. eauto.
Qed.

Lemma start_place_Ok rng fuel i w w' h :
  Dict.get i (objectsHistory (self w)) = Some h →
  start_place rng fuel i w = Ok tt w' →
  ∃ n ps num k l c,
    probes rng w (S n) = ps ++ [num] ∧ Forall (passed_over (self w)) ps ∧
    array_get (self w) num = Some k ∧ k ≠ -1 ∧
    Dict.get k (fullFlag (self w)) = Some false ∧
    Dict.get k (servers (self w)) = Some l ∧
    Dict.get k (serversContains (self w)) = Some c ∧
    drawn w' = (drawn w + S n)%nat ∧ searches w' = searches w ∧
    self w' = placed i num k l c (h ++ probes rng w (S n)) (self w).
Proof.
  intros Hh H. unfold start_place in H.
  apply bind_Ok in H as (s0 & w0 & [-> ->]%get_self_Ok & H).
  apply bind_Ok in H as (num0 & w0 & (Hlen & -> & ->)%randint_Ok & H).
  apply bind_Ok in H as (u & w0 & (h' & Hh' & ->)%history_append_Ok & H).
  simpl in Hh'. assert (h' = h) by congruence. subst h'.
  apply bind_Ok in H as (num & w2 & Hp & H).
  eapply probe_Ok in Hp as (n & ps & Hd & Hsr & Hself & Hps & Hall & Hel);
    [|simpl; apply DictFacts.get_set_eq].
  rewrite (probes_ext rng _ (mkWorld (self w) (S (drawn w)) (searches w)))
    in * by done.
  rewrite <- app_assoc in Hself.
  change ([?x] ++ ?l) with (x :: l) in Hself.
  rewrite <- probes_S in Hself, Hps. simpl_state.
  rewrite DictFacts.set_set in Hself.
  eapply Forall_impl in Hall;
    [|intros p Hp; exact (passed_over_frame _ (self w) p eq_refl eq_refl Hp)].
  destruct Hel as (k & Hk & Hk1 & Hkf). simpl_state.
  destruct w2 as [s2 d2 l2].
  simpl in Hd, Hsr, Hself. subst s2 d2 l2.
  unfold_ops. inv_run. all: same_reads.
  all: exists n, ps, num, k; eexists _, _.
  all: repeat (split; [first [done | lia | eassumption]|]).
  all: unfold placed; simpl_state.
  - rewrite DictFacts.get_set_eq in *.
    match goal with H : Some _ = Some _ |- _ => injection H as H end.
    by rewrite decide_True.
  - rewrite DictFacts.get_set_eq in *.
    match goal with H : Some _ = Some _ |- _ => injection H as H end.
    rewrite decide_False; [done | congruence].
Qed.

Lemma placed_facts s o num k l c hist :
  Dict.get k (servers s) = Some l →
  ring_of (placed o num k l c hist s) = ring_of s ∧
  objectsCount (placed o num k l c hist s) = objectsCount s ∧
  totalObjectsAndPastCount (placed o num k l c hist s) =
    totalObjectsAndPastCount s ∧
  objectsCurrent (placed o num k l c hist s) =
    Dict.set o num (objectsCurrent s) ∧
  objectsHistory (placed o num k l c hist s) =
    Dict.set o hist (objectsHistory s) ∧
  sum_loads (placed o num k l c hist s) = sum_loads s + 1.
Proof.
  intros Hl. unfold placed, sum_loads. simpl_state.
  pose proof (DictFacts.sum_set _ _ (l + 1) _ Hl) as Hsum.
  case_decide; simpl_state; repeat split; try done; rewrite Hsum; lia.
Qed.

Lemma placement_well_formed s s' o num k hist :
  well_formed s → Dict.get o (objectsCurrent s) = None →
  array_get s num = Some k → k ≠ -1 → last hist = Some num →
  ring_of s' = ring_of s →
  objectsCurrent s' = Dict.set o num (objectsCurrent s) →
  objectsHistory s' = Dict.set o hist (objectsHistory s) →
  sum_loads s' = sum_loads s + 1 →
  totalObjectsAndPastCount s ≤ totalObjectsAndPastCount s' →
  o < totalObjectsAndPastCount s' →
  well_formed s' ∧ live_count s' = live_count s + 1.
Proof.
  intros [Hring Hobj] Hnew Hnum Hk Hlast Hr Hcur Hhist Hsum Ht Hfresh.
  assert (Hlive : live_count s' = live_count s + 1).
  { unfold live_count. rewrite Hcur, (DictFacts.length_set_None _ _ _ Hnew).
    lia. }
  split; [split|done].
  - by apply (ring_ok_ring s).
  - split.
    + intros o' c'. rewrite Hcur, Hhist, !DictFacts.get_set.
      rewrite !(ring_of_array_get _ _ _ Hr). case_decide.
      * intros [= <-]. eauto 10.
      * apply (cur_hist _ Hobj).
    + rewrite Hcur. by apply DictFacts.keys_set_nodup, (keys_nodup _ Hobj).
    + rewrite Hcur, (DictFacts.keys_set_None _ _ _ Hnew).
      intros o' [Ho'| ->%list_elem_of_singleton]%elem_of_app; [|done].
      apply (keys_fresh _ Hobj) in Ho'. lia.
    + rewrite Hlive, Hsum, (loads_live _ Hobj). done.
Qed.

Lemma addOneObject_well_formed rng fuel w w' :
  well_formed (self w) → addOneObject rng fuel w = Ok tt w' →
  well_formed (self w') ∧
  sum_loads (self w') = sum_loads (self w) + 1 ∧
  objectsCount (self w') = objectsCount (self w) + 1 ∧
  live_count (self w') = live_count (self w) + 1.
Proof.
  intros Hwf H. apply addOneObject_Ok in H. cbv zeta in H.
  destruct H as (n & ps & num & k & l & c & Hps & _ & Hnum & Hk & _ & Hl & _
                 & _ & _ & Hself).
  assert (Hnew : Dict.get (totalObjectsAndPastCount (self w))
                   (objectsCurrent (self w)) = None).
  { apply DictFacts.get_None_keys. intros Hin.
    apply (keys_fresh _ (proj2 Hwf)) in Hin. lia. }
  assert (Hlast : last (probes rng w (S n)) = Some num).
  { rewrite Hps. apply last_snoc. }
  destruct (placed_facts (self w) (totalObjectsAndPastCount (self w)) num k l
              c (probes rng w (S n)) Hl) as (Hr & Hoc & Ht & Hcur & Hhist & Hsum).
  assert (Hsum' : sum_loads (self w') = sum_loads (self w) + 1).
  { rewrite Hself. exact Hsum. }
  destruct (placement_well_formed (self w) (self w')
              (totalObjectsAndPastCount (self w)) num k (probes rng w (S n)))
    as [Hwf' Hlive]; try done; try (by rewrite Hself).
  - rewrite Hself. simpl_state. lia.
  - rewrite Hself. simpl_state. lia.
  - split; [done|]. split; [done|]. split; [|done].
    rewrite Hself. by simpl_state.
Qed.

Lemma start_place_all_Ok rng fuel : ∀ objs w w',
  well_formed (self w) → NoDup objs →
  (∀ i, i ∈ objs →
        Dict.get i (objectsCurrent (self w)) = None ∧
        Dict.get i (objectsHistory (self w)) = Some [] ∧
        i < totalObjectsAndPastCount (self w)) →
  start_place_all rng fuel objs w = Ok tt w' →
  well_formed (self w') ∧
  Dict.keys (objectsCurrent (self w')) =
    Dict.keys (objectsCurrent (self w)) ++ objs ∧
  objectsCount (self w') = objectsCount (self w).
Proof.
  induction objs as [|i objs IH]; intros w w' Hwf Hnd Hobjs H.
  - apply ret_Ok in H as [_ ->]. by rewrite app_nil_r.
  - cbn [start_place_all] in H. apply bind_Ok in H as ([] & w1 & Hp & H).
    apply NoDup_cons in Hnd as [Hi Hnd].
    destruct (Hobjs i ltac:(left)) as (Hnew & Hh & Hfresh).
    eapply start_place_Ok in Hp; [|exact Hh].
    destruct Hp as (n & ps & num & k & l & c & Hps & _ & Hnum & Hk & _ & Hl & _
                    & _ & _ & Hself).
    destruct (placed_facts (self w) i num k l c ([] ++ probes rng w (S n)) Hl)
      as (Hr & Hoc & Ht & Hcur & Hhist & Hsum).
    rewrite <- Hself in Hr, Hoc, Ht, Hcur, Hhist, Hsum.
    destruct (placement_well_formed (self w) (self w1) i num k
                ([] ++ probes rng w (S n))) as [Hwf1 _]; try done.
    { simpl. rewrite Hps. apply last_snoc. }
    { lia. }
    { lia. }
    apply IH in H as (Hwf' & Hkeys & Hcount); [|done|done|].
    + split; [done|]. split; [|congruence].
      rewrite Hkeys, Hcur, (DictFacts.keys_set_None _ _ _ Hnew).
      by rewrite <- app_assoc.
    + intros j Hj. destruct (Hobjs j ltac:(by right)) as (Hj1 & Hj2 & Hj3).
      assert (i ≠ j) by (intros ->; done).
      rewrite Hcur, Hhist, Ht, !DictFacts.get_set_ne by done. done.
Qed.

Lemma sum_of_keys_zero ks :
  foldr Z.add 0 (Dict.values (Dict.of_keys ks 0)) = 0.
Proof.
  unfold Dict.values, Dict.of_keys. induction ks as [|k ks IH]; csimpl; [done|].
  by rewrite IH.
Qed.

Lemma range_nodup n : NoDup (range n).
Proof.
  unfold range. apply NoDup_fmap; [apply Nat2Z.inj'|apply NoDup_seq].
Qed.

Lemma range_elem n i : i ∈ range n ↔ 0 ≤ i < n.
Proof.
  unfold range. rewrite list_elem_of_fmap. split.
  - intros (j & -> & Hj%elem_of_seq). lia.
  - intros Hi. exists (Z.to_nat i). split; [lia|]. apply elem_of_seq. lia.
Qed.

Lemma range_length n : length (range n) = Z.to_nat n.
Proof. unfold range. by rewrite length_fmap, length_seq. Qed.

Lemma start_eq rng fuel w :
  start rng fuel w =
  (assign_servers rng fuel (Dict.keys (servers (start_ring_blank (self w))))
   ≫= λ _, (λ w1, start_place_all rng fuel (range (objectsCount (self w1)))
                     (upd start_registries w1)) : M unit)
    (upd start_ring_blank w).
Proof. reflexivity. Qed.

Lemma ring_building_blank s : ring_building (start_ring_blank s) 0.
Proof.
  split; [done|]. split; [done|]. split.
  - intros x v Hx. simpl in Hx. by rewrite lookup_empty in Hx.
  - split. by intros k d x.
Qed.

Lemma ring_building_le s n : ring_building s n → Z.of_nat n ≤ 2 ^ 20.
Proof.
  intros (_ & <- & Hvals & _).
  rewrite <- size_dom.
  assert (Hsub : dom (serversArray s) ⊆ list_to_set (C := gset Z) (range (2 ^ 20))).
  { intros x [v Hv]%elem_of_dom.
    apply elem_of_list_to_set, range_elem. by apply (Hvals x v). }
  apply subseteq_size in Hsub.
  rewrite size_list_to_set in Hsub by apply range_nodup.
  rewrite range_length in Hsub. lia.
Qed.

Lemma start_ring rng fuel w :
  post True False
    (λ _ w1,
       outside_ring (self w1) = outside_ring (start_ring_blank (self w)) ∧
       searches w1 = searches w ∧
       ring_building (self w1)
         (Z.to_nat (serversCount (self w)) *
          Z.to_nat (duplicatesCount (self w))))
    (assign_servers rng fuel (Dict.keys (servers (start_ring_blank (self w))))
       (upd start_ring_blank w)).
Proof.
  pose proof (assign_servers_spec rng fuel
    (Dict.keys (servers (start_ring_blank (self w)))) 0
    (upd start_ring_blank w) (ring_building_blank _)) as K.
  simpl in K.
  replace (Dict.keys (servers (start_ring_blank (self w))))
    with (range (serversCount (self w)))
    by (simpl; by rewrite DictFacts.keys_of_keys).
  rewrite DictFacts.keys_of_keys in K. rewrite !range_length in K. apply K.
  intros i Hi%range_elem. lia.
Qed.

Lemma start_never_built rng fuel w :
  0 < serversCount (self w) →
  2 ^ 20 < serversCount (self w) * duplicatesCount (self w) →
  start rng fuel w = OutOfFuel.
Proof.
  intros Hpos Hbig. rewrite start_eq.
  pose proof (start_ring rng fuel w) as K.
  destruct (assign_servers rng fuel _ (upd start_ring_blank w))
    as [u w1| |] eqn:E; simpl in K; [|done|by apply bind_oof].
  destruct K as (_ & _ & Hb%ring_building_le). nia.
Qed.

Lemma start_Ok rng fuel w w' :
  objectsCount (self w) ≤ totalObjectsAndPastCount (self w) →
  start rng fuel w = Ok tt w' →
  well_formed (self w') ∧
  Dict.keys (objectsCurrent (self w')) = range (objectsCount (self w)) ∧
  objectsCount (self w') = objectsCount (self w).
Proof.
  intros Hle H. rewrite start_eq in H.
  apply bind_Ok in H as (u & w1 & E & H).
  pose proof (start_ring rng fuel w) as K. rewrite E in K. simpl in K.
  destruct K as (Ho & _ & (Hlen & Hsize & Hvals & Hring)).
  assert (Hfields : servers (self w1) =
                      Dict.of_keys (range (serversCount (self w))) 0 ∧
                    objectsCount (self w1) = objectsCount (self w) ∧
                    totalObjectsAndPastCount (self w1) =
                      totalObjectsAndPastCount (self w)).
  { repeat split.
    - by apply (f_equal servers) in Ho.
    - by apply (f_equal objectsCount) in Ho.
    - by apply (f_equal totalObjectsAndPastCount) in Ho. }
  destruct Hfields as (Hsv & Hoc & Ht).
  apply start_place_all_Ok in H.
  - destruct H as (Hwf & Hkeys & Hcount). simpl in Hkeys, Hcount.
    rewrite Hoc in Hkeys. rewrite Hoc in Hcount. done.
  - split.
    + apply (ring_ok_ring (self w1)); [done|exact Hring].
    + split; simpl.
      * by intros o c.
      * apply NoDup_nil_2.
      * by intros o ?%elem_of_nil.
      * unfold sum_loads, live_count. simpl. rewrite Hsv.
        apply sum_of_keys_zero.
  - apply range_nodup.
  - intros i Hi. simpl. split; [done|]. rewrite DictFacts.get_of_keys.
    rewrite decide_True by done. split; [done|].
    apply range_elem in Hi. lia.
Qed.

(** *** The worlds of a run *)

Lemma counts_inv s s' :
  counts s' = counts s →
  ring_of s' = ring_of s ∧ objectsCount s' = objectsCount s ∧
  totalObjectsAndPastCount s' = totalObjectsAndPastCount s ∧
  live_count s' = live_count s ∧ sum_loads s' = sum_loads s.
Proof.
  unfold counts. intros H.
  pose proof (f_equal (λ c, c.1.1.1.1) H) as H1.
  pose proof (f_equal (λ c, c.1.1.1.2) H) as H2.
  pose proof (f_equal (λ c, c.1.1.2) H) as H3.
  pose proof (f_equal (λ c, length c.1.2) H) as H4.
  pose proof (f_equal (λ c, c.2) H) as H5. simpl in *.
  unfold Dict.keys in H4. rewrite !length_fmap in H4.
  unfold live_count. by rewrite H4.
Qed.

Lemma removeOneObject_counts rng fuel w w' :
  removeOneObject rng fuel w = Ok tt w' →
  sum_loads (self w') = sum_loads (self w) - 1 ∧
  objectsCount (self w') = objectsCount (self w) - 1 ∧
  live_count (self w') = live_count (self w) - 1.
Proof.
  intros H.
  destruct (removeOneObject_split rng fuel w) as [(e & w0 & E)|
    (o & c & k & w1 & _ & Hc & _ & _ & Hoc & _ & Hcur & _ & Hs & _ & Hcase)];
    [congruence|].
  assert (Hlive : live_count (self w1) = live_count (self w) - 1).
  { unfold live_count. rewrite Hcur.
    pose proof (DictFacts.length_pop _ _ _ Hc). lia. }
  destruct Hcase as [E|E]; rewrite E in H.
  - by injection H as <-.
  - apply fillBinOne_counts, counts_inv in H
      as (_ & Hoc' & _ & Hlive' & Hs'). by rewrite Hoc', Hs', Hlive'.
Qed.

Lemma construct_coherent rng fuel sv dup obj eps w :
  0 ≤ obj → construct rng fuel sv dup obj eps = Built w →
  well_formed (self w) ∧ objectsCount (self w) = live_count (self w).
Proof.
  intros Hobj. unfold construct, __init__. case_decide; [done|].
  destruct (start rng fuel _) as [u w'| |] eqn:E; [|done..].
  intros [= ->]. destruct u. apply start_Ok in E; [|done].
  destruct E as (Hwf & Hkeys & Hoc). simpl in Hkeys, Hoc.
  split; [done|]. unfold live_count.
  rewrite <- (length_fmap fst). fold (Dict.keys (objectsCurrent (self w))).
  rewrite Hkeys, range_length, Hoc. lia.
Qed.

Lemma reachable_coherent w :
  reachable w →
  well_formed (self w) ∧ objectsCount (self w) = live_count (self w).
Proof.
  induction 1 as [rng fuel sv dup obj eps w Hobj Hc
                 |rng fuel w w' _ [IHwf IHc] Hadd
                 |rng fuel w w' _ [IHwf IHc] Hrem].
  - by eapply construct_coherent.
  - destruct (addOneObject_well_formed _ _ _ _ IHwf Hadd)
      as (? & _ & ? & ?). split; [done | lia].
  - split; [by eapply removeOneObject_well_formed|].
    destruct (removeOneObject_counts _ _ _ _ Hrem) as (_ & ? & ?). lia.
Qed.

(** ** The run of [trace_draws] *)

Lemma trace_w0_built : construct trace_rng 5 3 1 3 1%Q = Built trace_w0.
Proof. vm_compute. reflexivity. Qed.

Lemma trace_w1_added : addOneObject trace_rng 5 trace_w0 = Ok tt trace_w1.
Proof. vm_compute. reflexivity. Qed.

Lemma trace_w2_added : addOneObject trace_rng 5 trace_w1 = Ok tt trace_w2.
Proof. vm_compute. reflexivity. Qed.

Lemma trace_w3_removed : removeOneObject trace_rng 10 trace_w2 = Ok tt trace_w3.
Proof. vm_compute. reflexivity. Qed.

Lemma trace_w4_added : addOneObject trace_rng 5 trace_w3 = Ok tt trace_w4.
Proof. vm_compute. reflexivity. Qed.

Lemma trace_w5_added : addOneObject trace_rng 5 trace_w4 = Ok tt trace_w5.
Proof. vm_compute. reflexivity. Qed.

Lemma trace_w6_removed : removeOneObject trace_rng 10 trace_w5 = Ok tt trace_w6.
Proof. vm_compute. reflexivity. Qed.

Lemma trace_w5_reachable : reachable trace_w5.
Proof.
  eapply reach_add; [|exact trace_w5_added].
  eapply reach_add; [|exact trace_w4_added].
  eapply reach_remove; [|exact trace_w3_removed].
  eapply reach_add; [|exact trace_w2_added].
  eapply reach_add; [|exact trace_w1_added].
  eapply reach_construct; [|exact trace_w0_built]. done.
Qed.

Lemma trace_w6_reachable : reachable trace_w6.
Proof.
  eapply reach_remove; [exact trace_w5_reachable | exact trace_w6_removed].
Qed.

(** ** The properties *)

(** C1 (the code departs from it).  The claim: at every observable point a
    server's load is the size of its [containedObjects], is at most
    [loadCap], and the server is flagged full exactly when they are equal.
    On the run of [trace_draws] every server holds exactly [loadCap = 2]
    objects and is flagged full before the last removal; after it, an
    observable point, server 0 holds three objects: its load is above the
    cap, and it is flagged full although its load is not the cap. *)
Theorem C1_load_exceeds_cap :
  reachable trace_w6 ∧
  loadCap (self trace_w5) = 2 ∧
  servers (self trace_w5) = [(0, 2); (1, 2); (2, 2)] ∧
  fullFlag (self trace_w5) = [(0, true); (1, true); (2, true)] ∧
  loadCap (self trace_w6) = 2 ∧
  servers (self trace_w6) = [(0, 3); (1, 2); (2, 0)] ∧
  fullFlag (self trace_w6) = [(0, true); (1, true); (2, false)] ∧
  (size <$> Dict.get 0 (serversContains (self trace_w6))) = Some 3%nat.
Proof.
  split; [exact trace_w6_reachable|]. vm_compute. by repeat split.
Qed.

(** C2.  At every observable point of a ring constructed with a
    non-negative number of objects, the sum of the servers' load counters is
    the number of live objects, and so is the counter [objectsCount]; a
    completed [addOneObject] raises the sum, the counter and the number of
    live objects by one, a completed [removeOneObject] (its cascade
    included) lowers them by one, and a completed [fillBinOne] leaves them
    as they were. *)
Theorem C2_capacity_conservation (w : world) (Hr : reachable w) :
  sum_loads (self w) = live_count (self w) ∧
  objectsCount (self w) = live_count (self w) ∧
  (∀ rng fuel w', addOneObject rng fuel w = Ok tt w' →
     sum_loads (self w') = sum_loads (self w) + 1 ∧
     objectsCount (self w') = objectsCount (self w) + 1 ∧
     live_count (self w') = live_count (self w) + 1) ∧
  (∀ rng fuel w', removeOneObject rng fuel w = Ok tt w' →
     sum_loads (self w') = sum_loads (self w) - 1 ∧
     objectsCount (self w') = objectsCount (self w) - 1 ∧
     live_count (self w') = live_count (self w) - 1) ∧
  (∀ rng fuel slot w', fillBinOne rng fuel slot w = Ok tt w' →
     sum_loads (self w') = sum_loads (self w) ∧
     objectsCount (self w') = objectsCount (self w) ∧
     live_count (self w') = live_count (self w)).
Proof.
  destruct (reachable_coherent w Hr) as [[Hring Hobj] Hcount].
  split; [apply (loads_live _ Hobj)|]. split; [done|]. split; [|split].
  - intros rng fuel w' Hadd.
    by destruct (addOneObject_well_formed rng fuel w w' (conj Hring Hobj) Hadd)
      as (_ & ? & ? & ?).
  - intros rng fuel w' Hrem. by apply (removeOneObject_counts rng fuel).
  - intros rng fuel slot w' Hfill.
    by apply fillBinOne_counts, counts_inv in Hfill as (_ & ? & _ & ? & ?).
Qed.

Lemma C2_capacity_conservation_witness :
  sum_loads (self trace_w5) = 6 ∧ live_count (self trace_w5) = 6 ∧
  objectsCount (self trace_w5) = 6 ∧
  sum_loads (self trace_w6) = sum_loads (self trace_w5) - 1 ∧
  objectsCount (self trace_w6) = objectsCount (self trace_w5) - 1 ∧
  live_count (self trace_w6) = live_count (self trace_w5) - 1.
Proof.
  destruct (C2_capacity_conservation trace_w5 trace_w5_reachable)
    as (H1 & H2 & _ & Hrem & _).
  destruct (Hrem trace_rng 10%nat trace_w6 trace_w6_removed) as (H3 & H4 & H5).
  assert (Hl : live_count (self trace_w5) = 6) by (vm_compute; reflexivity).
  rewrite Hl in H1, H2. repeat split; assumption.
Defined.

(** C3 (the claim fails on the code).  A construction whose load cap comes
    out below 1 succeeds silently: one server, no object, [epsilon = 0]
    give [loadCap = 0] and a ring. *)
Lemma C3_counterexample :
  ∃ w, construct (λ _, 0) 0 1 1 0 0%Q = Built w ∧ loadCap (self w) < 1.
Proof. eexists. split; [vm_compute; reflexivity | vm_compute; reflexivity]. Qed.

(** C3 (amended).  Construction reports no configuration error.  When
    [serverCount * duplicatesPerServer] exceeds the ring size [2 ** 20] (for
    a positive server count), construction never completes, whatever the
    random stream and however long it runs: the loop that looks for a free
    slot does not end, and nothing is raised.  A load cap below 1 is not
    checked: construction can succeed with it. *)
Theorem C3_construction_unchecked :
  (∀ rng fuel sv dup obj eps,
     0 < sv → 2 ^ 20 < sv * dup →
     construct rng fuel sv dup obj eps = NeverBuilt) ∧
  (∃ rng fuel sv dup obj eps w,
     construct rng fuel sv dup obj eps = Built w ∧ loadCap (self w) < 1).
Proof.
  split.
  - intros rng fuel sv dup obj eps Hsv Hbig. unfold construct, __init__.
    rewrite decide_False by lia.
    by rewrite start_never_built.
  - exists (λ _, 0), O, 1, 1, 0, 0%Q. eexists.
    split; [vm_compute; reflexivity | vm_compute; reflexivity].
Qed.

Lemma C3_construction_unchecked_witness :
  0 < 2 ^ 20 + 1 ∧ 2 ^ 20 < (2 ^ 20 + 1) * 1 ∧
  construct trace_rng 7 (2 ^ 20 + 1) 1 10 0%Q = NeverBuilt.
Proof.
  split; [lia|]. split; [lia|].
  apply (proj1 C3_construction_unchecked); lia.
Defined.

Lemma placed_outcome rng w w' o h n ps num k l c :
  probes rng w (S n) = ps ++ [num] → Forall (passed_over (self w)) ps →
  array_get (self w) num = Some k → k ≠ -1 →
  Dict.get k (fullFlag (self w)) = Some false →
  Dict.get k (servers (self w)) = Some l →
  Dict.get k (serversContains (self w)) = Some c →
  drawn w' = (drawn w + S n)%nat →
  objectsHistory (self w') =
    objectsHistory (placed o num k l c (h ++ probes rng w (S n)) (self w)) →
  objectsCurrent (self w') =
    objectsCurrent (placed o num k l c (h ++ probes rng w (S n)) (self w)) →
  servers (self w') =
    servers (placed o num k l c (h ++ probes rng w (S n)) (self w)) →
  serversContains (self w') =
    serversContains (placed o num k l c (h ++ probes rng w (S n)) (self w)) →
  fullFlag (self w') =
    fullFlag (placed o num k l c (h ++ probes rng w (S n)) (self w)) →
  placement_outcome rng w w' o h.
Proof.
  intros Hps Hall Hnum Hk Hf Hl Hc Hd Hhist Hcur Hsv Hcont Hflag.
  exists n, ps, num, k, l, c.
  repeat (split; [done|]).
  rewrite Hhist, Hcur, Hsv, Hcont, Hflag. unfold placed. simpl_state.
  case_decide; simpl_state; rewrite !DictFacts.get_set_eq.
  - rewrite bool_decide_eq_true_2 by done. done.
  - rewrite bool_decide_eq_false_2 by done. done.
Qed.

(** C4.  A completed [addOneObject], and a completed placement of one
    object during the initial load, draw probes until one hits a slot owned
    by a server that is not full; every probe, the failing ones included,
    is recorded in the object's history in the order drawn; the object's
    current slot is the accepted slot, the owning server's load goes up by
    one, the object joins its [containedObjects], and the server is flagged
    full exactly if its load is now [loadCap]. *)
Theorem C4_placement (rng : nat → Z) (fuel : nat) (w w' : world) :
  (addOneObject rng fuel w = Ok tt w' →
   placement_outcome rng w w' (totalObjectsAndPastCount (self w)) []) ∧
  (∀ i h, Dict.get i (objectsHistory (self w)) = Some h →
          start_place rng fuel i w = Ok tt w' →
          placement_outcome rng w w' i h).
Proof.
  split.
  - intros H. apply addOneObject_Ok in H. cbv zeta in H.
    destruct H as (n & ps & num & k & l & c & Hps & Hall & Hnum & Hk & Hf & Hl
                   & Hc & Hd & _ & Hself).
    eapply (placed_outcome rng w w' _ [] n ps num k l c); try done;
      by rewrite Hself.
  - intros i h Hh H. eapply start_place_Ok in H; [|exact Hh].
    destruct H as (n & ps & num & k & l & c & Hps & Hall & Hnum & Hk & Hf & Hl
                   & Hc & Hd & _ & Hself).
    eapply (placed_outcome rng w w' _ h n ps num k l c); try done;
      by rewrite Hself.
Qed.

Lemma C4_placement_witness :
  placement_outcome trace_rng trace_w3 trace_w4
    (totalObjectsAndPastCount (self trace_w3)) [] ∧
  Dict.get 5 (objectsHistory (self trace_w4)) = Some [0; 1; 2].
Proof.
  split.
  - exact (proj1 (C4_placement trace_rng 5%nat trace_w3 trace_w4)
             trace_w4_added).
  - vm_compute. reflexivity.
Defined.

(** C5 (the claim fails on the code).  A probe that hits an empty slot is
    recorded like any other.  One server on slot 0 and object 0 on it; slot
    5 is owned by no server.  [addOneObject] then probes slot 5 and slot 0:
    the new object lives with the history [5; 0], whose first element was
    an empty slot when it was recorded, and is one still. *)
Lemma C5_counterexample :
  ∃ w0 w1,
    construct (λ n, nth n [0; 0; 5; 0] 0) 5 1 1 1 1%Q = Built w0 ∧
    array_get (self w0) 5 = Some (-1) ∧
    addOneObject (λ n, nth n [0; 0; 5; 0] 0) 5 w0 = Ok tt w1 ∧
    reachable w1 ∧
    Dict.get 1 (objectsCurrent (self w1)) = Some 0 ∧
    Dict.get 1 (objectsHistory (self w1)) = Some [5; 0] ∧
    array_get (self w1) 5 = Some (-1).
Proof.
  eexists _, _. split; [vm_compute; reflexivity|].
  split; [vm_compute; reflexivity|].
  split; [vm_compute; reflexivity|]. split.
  - eapply (reach_add (λ n, nth n [0; 0; 5; 0] 0) 5).
    + eapply (reach_construct (λ n, nth n [0; 0; 5; 0] 0) 5 1 1 1 1%Q);
        [done|]. vm_compute. reflexivity.
    + vm_compute. reflexivity.
  - vm_compute. done.
Qed.

(** C5 (amended).  At every observable point every live object sits on the
    last slot of its probe history, and that slot is owned by a server.
    (The earlier slots of the history were probed and passed over: empty
    slots, or slots of servers that were full.) *)
Theorem C5_current_slot_ends_history (w : world) (Hr : reachable w) :
  ∀ o c, Dict.get o (objectsCurrent (self w)) = Some c →
    ∃ h k, Dict.get o (objectsHistory (self w)) = Some h ∧
           last h = Some c ∧ array_get (self w) c = Some k ∧ k ≠ -1.
Proof.
  destruct (reachable_coherent w Hr) as [[_ Hobj] _]. apply (cur_hist _ Hobj).
Qed.

Lemma C5_current_slot_ends_history_witness :
  ∃ h k, Dict.get 4 (objectsHistory (self trace_w6)) = Some h ∧
         last h = Some 0 ∧ array_get (self trace_w6) 0 = Some k ∧ k ≠ -1.
Proof.
  apply (C5_current_slot_ends_history trace_w6 trace_w6_reachable 4 0).
  vm_compute. reflexivity.
Defined.

Lemma lookup_in_run {V} (field : RJCH → Dict.t V) k w v :
  Dict.get k (field (self w)) = Some v → lookup_in field k w = Ok v w.
Proof. unfold lookup_in, mbind, M_bind, get_self. by intros ->. Qed.



(** C7 (the claim fails on the code).  In the last removal of the run of
    [trace_draws] the cascade searches a mover for server 0, then for
    server 1, then for server 0 again, then for server 2: server 0 enters
    the search twice, and the calls are nested four deep with three
    servers, so that a depth of three is not enough. *)
Lemma C7_counterexample :
  reachable trace_w5 ∧
  serversCount (self trace_w5) = 3 ∧
  removeOneObject trace_rng 10 trace_w5 = Ok tt trace_w6 ∧
  searches trace_w6 = searches trace_w5 ++ [0; 1; 0; 2] ∧
  removeOneObject trace_rng 3 trace_w5 = OutOfFuel.
Proof.
  split; [exact trace_w5_reachable|]. by vm_compute.
Qed.

(** C7 (amended).  Within one [removeOneObject] the cascade of [fillBinOne]
    calls always ends: every move cuts the history of the moved object
    short, so the calls are never nested deeper than the total length of
    the probe histories plus one, whatever the random stream.  (A server
    may be searched more than once in one cascade.) *)
Theorem C7_cascade_terminates (w : world) (Hr : reachable w)
    (rng : nat → Z) (fuel : nat)
    (Hfuel : (history_total (self w) < fuel)%nat) :
  removeOneObject rng fuel w ≠ OutOfFuel ∧
  (∀ slot, fillBinOne rng fuel slot w ≠ OutOfFuel).
Proof.
  destruct (reachable_coherent w Hr) as [Hwf _]. split.
  - by apply removeOneObject_terminates.
  - intros slot. by apply fillBinOne_terminates.
Qed.

Lemma C7_cascade_terminates_witness :
  (history_total (self trace_w5) < 12)%nat ∧
  removeOneObject trace_rng 12 trace_w5 ≠ OutOfFuel.
Proof.
  assert (H : (history_total (self trace_w5) < 12)%nat)
    by (vm_compute; lia).
  split; [exact H|].
  exact (proj1 (C7_cascade_terminates trace_w5 trace_w5_reachable trace_rng
                  12%nat H)).
Defined.

(** *** The candidates of [assignObjectWallTime] *)














(** C10.  [removeOneObject] takes no object id: it removes the live object
    that [np.random.choice] picks from the keys of the object registry (the
    key at the index that the random stream gives).  When no object is
    live the choice raises a [ValueError] before anything is read or
    written: the world is as it was. *)
Theorem C10_remove_picks_live_or_fails (rng : nat → Z) (fuel : nat)
    (w : world) :
  (objectsCurrent (self w) = [] →
   removeOneObject rng fuel w = Raise ValueError w) ∧
  (∀ w', removeOneObject rng fuel w = Ok tt w' →
     ∃ o, Dict.keys (objectsCurrent (self w)) !!
            Z.to_nat (rng (drawn w) `mod`
                      Z.of_nat (length (Dict.keys (objectsCurrent (self w)))))
          = Some o ∧
          objectsCurrent (self w') ≠ objectsCurrent (self w) ∧
          Dict.keys (objectsCurrent (self w')) =
            Dict.keys (Dict.pop o (objectsCurrent (self w)))).
Proof.
  split.
  - intros Hempty. unfold removeOneObject, mbind, M_bind, get_self.
    by rewrite Hempty.
  - intros w' H.
    destruct (removeOneObject_split rng fuel w) as [(e & w0 & E)|
      (o & c & k & w1 & Ho & Hc & _ & _ & _ & _ & Hcur & _ & _ & _ & Hcase)];
      [congruence|].
    exists o. split; [done|].
    assert (Hkeys : Dict.keys (objectsCurrent (self w')) =
                    Dict.keys (Dict.pop o (objectsCurrent (self w)))).
    { destruct Hcase as [E|E]; rewrite E in H.
      - injection H as <-. by rewrite Hcur.
      - apply fillBinOne_counts in H. unfold counts in H.
        apply (f_equal (λ c, c.1.2)) in H. simpl in H. by rewrite H, Hcur. }
    split; [|done].
    intros Heq. rewrite Heq in Hkeys. apply (f_equal length) in Hkeys.
    unfold Dict.keys in Hkeys. rewrite !length_fmap in Hkeys.
    pose proof (DictFacts.length_pop _ _ _ Hc). lia.
Qed.

Lemma C10_remove_picks_live_or_fails_witness :
  removeOneObject trace_rng 10 empty_ring_world
  = Raise ValueError empty_ring_world.
Proof.
  apply (proj1 (C10_remove_picks_live_or_fails trace_rng 10%nat
                  empty_ring_world)).
  vm_compute. reflexivity.
Defined.

(** ** Further properties of the ring *)

(** *** What no operation writes *)

Lemma addOneObject_ring rng fuel w w' :
  addOneObject rng fuel w = Ok tt w' → ring_of (self w') = ring_of (self w).
Proof.
  intros H. apply addOneObject_Ok in H. cbv zeta in H.
  destruct H as (n & ps & num & k & l & c & _ & _ & _ & _ & _ & Hl & _ & _ & _
                 & ->).
  by destruct (placed_facts (self w) (totalObjectsAndPastCount (self w)) num k
                 l c (probes rng w (S n)) Hl) as (Hr & _).
Qed.

Lemma removeOneObject_ring rng fuel w w' :
  removeOneObject rng fuel w = Ok tt w' →
  ring_of (self w') = ring_of (self w) ∧
  totalObjectsAndPastCount (self w') = totalObjectsAndPastCount (self w).
Proof.
  intros H.
  destruct (removeOneObject_split rng fuel w) as [(e & w0 & E)|
    (o & c & k & w1 & _ & _ & _ & Hr & _ & Ht & _ & _ & _ & _ & Hcase)];
    [congruence|].
  destruct Hcase as [E|E]; rewrite E in H.
  - by injection H as <-.
  - apply fillBinOne_counts, counts_inv in H as (Hr' & _ & Ht' & _).
    split; congruence.
Qed.

(** X1.  After construction nothing writes the ring: a completed
    [addOneObject], [removeOneObject] or [fillBinOne] leaves the slot array,
    its length, every server's list of slots and the load cap as they
    were.  A slot never changes owner; only objects move. *)
Theorem X1_ring_never_written (rng : nat → Z) (fuel : nat) (w w' : world) :
  (addOneObject rng fuel w = Ok tt w' ∨
   removeOneObject rng fuel w = Ok tt w' ∨
   ∃ slot, fillBinOne rng fuel slot w = Ok tt w') →
  serversArray (self w') = serversArray (self w) ∧
  serversArrayLen (self w') = serversArrayLen (self w) ∧
  serversToIdx (self w') = serversToIdx (self w) ∧
  loadCap (self w') = loadCap (self w).
Proof.
  intros H. assert (Hr : ring_of (self w') = ring_of (self w)).
  { destruct H as [H|[H|[slot H]]].
    - by apply (addOneObject_ring rng fuel).
    - by apply (removeOneObject_ring rng fuel).
    - by apply fillBinOne_counts, counts_inv in H as (? & _). }
  unfold ring_of in Hr. by injection Hr as -> -> -> ->.
Qed.

Lemma X1_ring_never_written_witness :
  serversArray (self trace_w6) = serversArray (self trace_w5) ∧
  serversArrayLen (self trace_w6) = serversArrayLen (self trace_w5) ∧
  serversToIdx (self trace_w6) = serversToIdx (self trace_w5) ∧
  loadCap (self trace_w6) = loadCap (self trace_w5).
Proof.
  apply (X1_ring_never_written trace_rng 10%nat trace_w5 trace_w6).
  right. left. vm_compute. reflexivity.
Defined.

(** *** Object ids *)

(** X2.  Object ids are never reused.  At every observable point every live
    id is below the counter [totalObjectsAndPastCount]; [addOneObject]
    gives the new object exactly that counter as its id, appends it to the
    registry and raises the counter by one; [removeOneObject] leaves the
    counter alone. *)
Theorem X2_object_ids_fresh (w : world) (Hr : reachable w) :
  (∀ o, o ∈ Dict.keys (objectsCurrent (self w)) →
        o < totalObjectsAndPastCount (self w)) ∧
  (∀ rng fuel w', addOneObject rng fuel w = Ok tt w' →
     Dict.keys (objectsCurrent (self w')) =
       Dict.keys (objectsCurrent (self w)) ++
       [totalObjectsAndPastCount (self w)] ∧
     totalObjectsAndPastCount (self w') =
       totalObjectsAndPastCount (self w) + 1) ∧
  (∀ rng fuel w', removeOneObject rng fuel w = Ok tt w' →
     totalObjectsAndPastCount (self w') = totalObjectsAndPastCount (self w)).
Proof.
  destruct (reachable_coherent w Hr) as [[_ Hobj] _].
  split; [apply (keys_fresh _ Hobj)|]. split.
  - intros rng fuel w' H. apply addOneObject_Ok in H. cbv zeta in H.
    destruct H as (n & ps & num & k & l & c & _ & _ & _ & _ & _ & Hl & _ & _
                   & _ & ->).
    destruct (placed_facts (self w) (totalObjectsAndPastCount (self w)) num k
                l c (probes rng w (S n)) Hl) as (_ & _ & _ & Hcur & _).
    simpl_state. rewrite Hcur. split; [|done].
    apply DictFacts.keys_set_None, DictFacts.get_None_keys.
    intros Hin%(keys_fresh _ Hobj). lia.
  - intros rng fuel w' H. by apply removeOneObject_ring in H as [_ ?].
Qed.

Lemma X2_object_ids_fresh_witness :
  Dict.keys (objectsCurrent (self trace_w4)) =
    Dict.keys (objectsCurrent (self trace_w3)) ++
    [totalObjectsAndPastCount (self trace_w3)] ∧
  totalObjectsAndPastCount (self trace_w4) =
    totalObjectsAndPastCount (self trace_w3) + 1.
Proof.
  assert (Hr : reachable trace_w3).
  { eapply reach_remove; [|exact trace_w3_removed].
    eapply reach_add; [|exact trace_w2_added].
    eapply reach_add; [|exact trace_w1_added].
    eapply reach_construct; [|exact trace_w0_built]. done. }
  exact (proj1 (proj2 (X2_object_ids_fresh trace_w3 Hr)) trace_rng 5%nat
           trace_w4 trace_w4_added).
Defined.

(** *** What an addition leaves alone *)

(** X3.  Adding an object moves no other object and touches one server
    only: after a completed [addOneObject] every other object has the
    current slot and the history it had, and every server but the one that
    owns the new object's slot has the load, the contained objects and the
    full flag it had. *)
Theorem X3_add_touches_one_server (rng : nat → Z) (fuel : nat) (w w' : world)
    (H : addOneObject rng fuel w = Ok tt w') :
  ∃ num k,
    Dict.get (totalObjectsAndPastCount (self w)) (objectsCurrent (self w'))
      = Some num ∧
    array_get (self w') num = Some k ∧
    (∀ o, o ≠ totalObjectsAndPastCount (self w) →
       Dict.get o (objectsCurrent (self w')) =
         Dict.get o (objectsCurrent (self w)) ∧
       Dict.get o (objectsHistory (self w')) =
         Dict.get o (objectsHistory (self w))) ∧
    (∀ k', k' ≠ k →
       Dict.get k' (servers (self w')) = Dict.get k' (servers (self w)) ∧
       Dict.get k' (serversContains (self w')) =
         Dict.get k' (serversContains (self w)) ∧
       Dict.get k' (fullFlag (self w')) = Dict.get k' (fullFlag (self w))).
Proof.
  apply addOneObject_Ok in H. cbv zeta in H.
  destruct H as (n & ps & num & k & l & c & _ & _ & Hnum & _ & _ & Hl & _ & _
                 & _ & ->).
  exists num, k. unfold placed. simpl_state.
  split; [case_decide; simpl_state; apply DictFacts.get_set_eq|].
  split; [by case_decide|]. split.
  - intros o Ho. case_decide; simpl_state;
      by rewrite !DictFacts.get_set_ne by done.
  - intros k' Hk'. case_decide; simpl_state;
      by rewrite !DictFacts.get_set_ne by done.
Qed.

Lemma X3_add_touches_one_server_witness :
  ∃ num k,
    Dict.get (totalObjectsAndPastCount (self trace_w3))
      (objectsCurrent (self trace_w4)) = Some num ∧
    array_get (self trace_w4) num = Some k ∧
    (∀ o, o ≠ totalObjectsAndPastCount (self trace_w3) →
       Dict.get o (objectsCurrent (self trace_w4)) =
         Dict.get o (objectsCurrent (self trace_w3)) ∧
       Dict.get o (objectsHistory (self trace_w4)) =
         Dict.get o (objectsHistory (self trace_w3))) ∧
    (∀ k', k' ≠ k →
       Dict.get k' (servers (self trace_w4)) =
         Dict.get k' (servers (self trace_w3)) ∧
       Dict.get k' (serversContains (self trace_w4)) =
         Dict.get k' (serversContains (self trace_w3)) ∧
       Dict.get k' (fullFlag (self trace_w4)) =
         Dict.get k' (fullFlag (self trace_w3))).
Proof.
  exact (X3_add_touches_one_server trace_rng 5%nat trace_w3 trace_w4
           trace_w4_added).
Defined.

(** *** An object only moves back along its own probes *)

Lemma get_Some_in_keys {V} (d : Dict.t V) k v :
  Dict.get k d = Some v → k ∈ Dict.keys d.
Proof.
  intros H. destruct (decide (k ∈ Dict.keys d)) as [|Hn]; [done|].
  apply DictFacts.get_None_keys in Hn. congruence.
Qed.

Lemma fillBinOne_histories rng fuel slot w w' :
  fillBinOne rng fuel slot w = Ok tt w' →
  Dict.keys (objectsHistory (self w')) = Dict.keys (objectsHistory (self w)) ∧
  ∀ o h, Dict.get o (objectsHistory (self w)) = Some h →
    ∃ h', Dict.get o (objectsHistory (self w')) = Some h' ∧ h' `prefix_of` h.
Proof.
  intros H.
  pose proof (fillBinOne_keeps rng True (ring_of (self w))
    (λ _ s, ring_of s = ring_of (self w) ∧
            Dict.keys (objectsHistory s) = Dict.keys (objectsHistory (self w)) ∧
            ∀ o h, Dict.get o (objectsHistory (self w)) = Some h →
              ∃ h', Dict.get o (objectsHistory s) = Some h' ∧
                    h' `prefix_of` h)) as K.
  specialize (K (λ _ _ Hs, proj1 Hs)).
  specialize (K (λ _ _ _ _ Hs, Hs)).
  assert (Hview : ∀ (n : nat) s s', view s' = view s →
    ring_of s = ring_of (self w) ∧
    Dict.keys (objectsHistory s) = Dict.keys (objectsHistory (self w)) ∧
    (∀ o h, Dict.get o (objectsHistory (self w)) = Some h →
       ∃ h', Dict.get o (objectsHistory s) = Some h' ∧ h' `prefix_of` h) →
    ring_of s' = ring_of (self w) ∧
    Dict.keys (objectsHistory s') = Dict.keys (objectsHistory (self w)) ∧
    (∀ o h, Dict.get o (objectsHistory (self w)) = Some h →
       ∃ h', Dict.get o (objectsHistory s') = Some h' ∧ h' `prefix_of` h)).
  { intros _ s s' Hv (Hr & Hk & Hp).
    assert (Hr' : ring_of s' = ring_of s) by (unfold view in Hv; congruence).
    apply view_inv in Hv as (_ & _ & _ & _ & _ & _ & Hh & _).
    rewrite Hh. split; [congruence|done]. }
  specialize (K Hview).
  assert (Hmove : ∀ (n : nat) key (d : list Z) i x w0 b w0',
    ring_of (self w0) = ring_of (self w) ∧
    Dict.keys (objectsHistory (self w0)) =
      Dict.keys (objectsHistory (self w)) ∧
    (∀ o h, Dict.get o (objectsHistory (self w)) = Some h →
       ∃ h', Dict.get o (objectsHistory (self w0)) = Some h' ∧
             h' `prefix_of` h) →
    Dict.get key (ring_of (self w)).1.2 = Some d → x ∈ d →
    valid_mover key i x w0 = Ok true w0 →
    move_object key i x w0 = Ok b w0' →
    ∃ m, (m ≤ n)%nat ∧ (True ∨ (m < n)%nat) ∧
      ring_of (self w0') = ring_of (self w) ∧
      Dict.keys (objectsHistory (self w0')) =
        Dict.keys (objectsHistory (self w)) ∧
      (∀ o h, Dict.get o (objectsHistory (self w)) = Some h →
         ∃ h', Dict.get o (objectsHistory (self w0')) = Some h' ∧
               h' `prefix_of` h)).
  { intros n key d i x w0 b w0' (Hr & Hk & Hp) _ _ _ Hm.
    apply move_object_Ok in Hm
      as (prev & hi & idx & _ & _ & Hhi & _ & Hr' & _ & _ & _ & Hhist & _).
    exists n. split; [done|]. split; [by left|]. split; [congruence|].
    rewrite Hhist. split.
    - by rewrite (DictFacts.keys_set_Some _ _ _ _ Hhi).
    - intros o h Ho. destruct (Hp o h Ho) as (h' & Hh' & Hpre).
      rewrite DictFacts.get_set. case_decide; [|eauto]. subst o.
      assert (h' = hi) by congruence. subst h'.
      eexists. split; [done|]. etrans; [apply prefix_take|done]. }
  specialize (K Hmove fuel O slot (or_introl I) w).
  rewrite H in K. simpl in K. apply K. split; [done|]. split; [done|].
  intros o h Ho. by exists h.
Qed.

(** X4.  A removal relocates objects only back along their own probes.  For
    every object that is live after a completed [removeOneObject], with its
    cascade of [fillBinOne] calls: the object was live before, its probe
    history is a prefix of the history it had, and its current slot, the
    last element of that prefix, is a slot that it had probed. *)
Theorem X4_relocation_follows_history (w : world) (Hr : reachable w)
    (rng : nat → Z) (fuel : nat) (w' : world)
    (H : removeOneObject rng fuel w = Ok tt w') :
  ∀ o c', Dict.get o (objectsCurrent (self w')) = Some c' →
    ∃ c h h',
      Dict.get o (objectsCurrent (self w)) = Some c ∧
      Dict.get o (objectsHistory (self w)) = Some h ∧
      Dict.get o (objectsHistory (self w')) = Some h' ∧
      h' `prefix_of` h ∧ last h' = Some c' ∧ c' ∈ h.
Proof.
  intros o c' Hc'.
  assert (Hr' : reachable w') by (by eapply reach_remove).
  destruct (reachable_coherent w Hr) as [[_ Hobj] _].
  destruct (reachable_coherent w' Hr') as [[_ Hobj'] _].
  destruct (cur_hist _ Hobj' o c' Hc') as (h' & k' & Hh' & Hlast' & _).
  destruct (removeOneObject_split rng fuel w) as [(e & w0 & E)|
    (r & cr & kr & w1 & _ & Hcr & _ & _ & _ & _ & Hcur & Hhist & _ & _ & Hcase)];
    [congruence|].
  assert (Hkeys : Dict.keys (objectsCurrent (self w')) =
                  Dict.keys (objectsCurrent (self w1)) ∧
                  (∀ o h, Dict.get o (objectsHistory (self w1)) = Some h →
                     ∃ h', Dict.get o (objectsHistory (self w')) = Some h' ∧
                           h' `prefix_of` h)).
  { destruct Hcase as [E|E]; rewrite E in H.
    - injection H as <-. split; [done|]. intros ? h ?. by exists h.
    - apply fillBinOne_counts in H as Hc. apply fillBinOne_histories in H.
      split; [|apply H]. unfold counts in Hc.
      by apply (f_equal (λ c, c.1.2)) in Hc. }
  destruct Hkeys as [Hkeys Hpre].
  assert (Hin : o ∈ Dict.keys (Dict.pop r (objectsCurrent (self w)))).
  { rewrite <- Hcur, <- Hkeys. by eapply get_Some_in_keys. }
  assert (Hne : r ≠ o).
  { intros ->. revert Hin. apply DictFacts.get_None_keys.
    apply DictFacts.get_pop_eq, (keys_nodup _ Hobj). }
  assert (Hlive : is_Some (Dict.get o (objectsCurrent (self w)))).
  { destruct (Dict.get o (objectsCurrent (self w))) eqn:E; [eauto|].
    exfalso. revert Hin. apply DictFacts.get_None_keys.
    by rewrite DictFacts.get_pop_ne. }
  destruct Hlive as [c Hc].
  destruct (cur_hist _ Hobj o c Hc) as (h & k & Hh & _).
  assert (Hh1 : Dict.get o (objectsHistory (self w1)) = Some h).
  { by rewrite Hhist, DictFacts.get_pop_ne. }
  destruct (Hpre o h Hh1) as (h'' & Hh'' & Hp).
  assert (h'' = h') by congruence. subst h''.
  exists c, h, h'. repeat (split; [done|]).
  destruct Hp as [t ->]. apply elem_of_app. left.
  rewrite last_lookup in Hlast'. by eapply list_elem_of_lookup_2.
Qed.

Lemma X4_relocation_follows_history_witness :
  ∃ c h h',
    Dict.get 4 (objectsCurrent (self trace_w5)) = Some c ∧
    Dict.get 4 (objectsHistory (self trace_w5)) = Some h ∧
    Dict.get 4 (objectsHistory (self trace_w6)) = Some h' ∧
    h' `prefix_of` h ∧ last h' = Some 0 ∧ 0 ∈ h.
Proof.
  apply (X4_relocation_follows_history trace_w5 trace_w5_reachable trace_rng
           10%nat trace_w6 trace_w6_removed 4 0).
  vm_compute. reflexivity.
Defined.

(** *** The ring that [start] builds *)

Lemma assign_dups_Ok rng fuel i : ∀ js dups w dups' w',
  serversArrayLen (self w) = 2 ^ 20 →
  (∀ x v, serversArray (self w) !! x = Some v → v ≠ -1) →
  i ≠ -1 → NoDup dups →
  (∀ x, x ∈ dups → 0 ≤ x < 2 ^ 20 ∧ serversArray (self w) !! x = Some i) →
  assign_dups rng fuel i js dups w = Ok dups' w' →
  outside_ring (self w') = outside_ring (self w) ∧
  serversToIdx (self w') = serversToIdx (self w) ∧
  NoDup dups' ∧ length dups' = (length dups + length js)%nat ∧
  (∀ x, x ∈ dups → x ∈ dups') ∧
  (∀ x, x ∈ dups' → 0 ≤ x < 2 ^ 20 ∧ serversArray (self w') !! x = Some i) ∧
  (∀ x v, serversArray (self w) !! x = Some v →
          serversArray (self w') !! x = Some v) ∧
  (∀ x v, serversArray (self w') !! x = Some v →
          serversArray (self w) !! x = Some v ∨ (v = i ∧ x ∈ dups')).
Proof.
  induction js as [|j js IH]; intros dups w dups' w' Hlen Hvals Hi Hnd Hd H.
  - apply ret_Ok in H as [-> ->]. rewrite !Nat.add_0_r.
    repeat (split; [done|]). intros x v ?; by left.
  - cbn [assign_dups] in H.
    apply bind_Ok in H as (s0 & w0 & [-> ->]%get_self_Ok & H).
    apply bind_Ok in H as (c0 & w0 & (Hpos & -> & ->)%randint_Ok & H).
    apply bind_Ok in H as (cur & w1 & Hff & H).
    pose proof (find_free_spec rng fuel
                  (rng (drawn w) `mod` serversArrayLen (self w))
                  (mkWorld (self w) (S (drawn w)) (searches w))) as K.
    rewrite Hff in K. simpl in K.
    destruct K as (Hs1 & _ & Hcur & Hfree); [by apply Z.mod_pos_bound|].
    apply bind_Ok in H as ([] & w2 & Hset & H).
    rewrite <- Hs1 in Hcur.
    rewrite (serversArray_set_run cur i w1 Hcur) in Hset.
    injection Hset as <-. rewrite Hs1 in Hcur.
    assert (Hnone : serversArray (self w) !! cur = None).
    { rewrite array_get_in_range in Hfree by done.
      destruct (serversArray (self w) !! cur) as [v|] eqn:E; [|done].
      apply Hvals in E. simpl in Hfree. congruence. }
    apply (IH (dups ++ [cur])) in H; [|by simpl; rewrite Hs1| |done| |].
    + destruct H as (Ho & Hidx & Hnd' & Hlen' & Hin & Hd' & Hmono & Horigin).
      simpl in Ho, Hidx, Hmono, Horigin.
      rewrite Hs1 in Hidx, Hmono, Horigin.
      split; [by rewrite Ho, Hs1|].
      split; [done|]. split; [done|].
      split; [rewrite Hlen', length_app; simpl; lia|].
      split; [intros x Hx; apply Hin, elem_of_app; by left|].
      split; [done|]. split.
      * intros x v Hx. apply Hmono. rewrite lookup_insert_ne; [done|].
        intros <-. congruence.
      * intros x v Hx. destruct (Horigin x v Hx) as [Hold|?]; [|by right].
        rewrite lookup_insert in Hold. case_decide; [|by left].
        injection Hold as <-. subst x. right. split; [done|].
        apply Hin, elem_of_app. right. by apply list_elem_of_singleton.
    + simpl. rewrite Hs1. simpl. intros x v.
      rewrite lookup_insert. case_decide; [congruence|apply Hvals].
    + apply NoDup_app. split; [done|]. split; [|apply NoDup_singleton].
      intros x Hx ->%list_elem_of_singleton.
      destruct (Hd cur Hx) as [_ E]. congruence.
    + simpl. rewrite Hs1. simpl.
      intros x [Hx| ->%list_elem_of_singleton]%elem_of_app.
      * destruct (Hd x Hx) as [Hr E]. split; [done|].
        rewrite lookup_insert_ne; [done|]. intros <-. congruence.
      * split; [lia|]. by rewrite lookup_insert_eq.
Qed.

Lemma assign_servers_Ok rng fuel : ∀ ks pre w w',
  serversArrayLen (self w) = 2 ^ 20 →
  (∀ x v, serversArray (self w) !! x = Some v → v ≠ -1) →
  ring_census (self w) pre (length (range (duplicatesCount (self w)))) →
  NoDup (pre ++ ks) → (∀ i, i ∈ ks → i ≠ -1) →
  assign_servers rng fuel ks w = Ok tt w' →
  ring_census (self w') (pre ++ ks)
    (length (range (duplicatesCount (self w)))).
Proof.
  induction ks as [|i ks IH]; intros pre w w' Hlen Hvals Hc Hnd Hks H.
  - apply ret_Ok in H as [_ ->]. by rewrite app_nil_r.
  - cbn [assign_servers] in H.
    apply bind_Ok in H as (s0 & w0 & [-> ->]%get_self_Ok & H).
    apply bind_Ok in H as (dups & w1 & Hdups & H).
    apply bind_Ok in H as ([] & w2 & ->%modify_Ok & H).
    assert (Hi : i ≠ -1) by (apply Hks; by left).
    apply assign_dups_Ok in Hdups; [|done|done|done|apply NoDup_nil_2|].
    2: by intros x ?%elem_of_nil.
    destruct Hdups as (Ho & Hidx & Hndd & Hlend & _ & Hd & Hmono & Horigin).
    assert (Hdc : duplicatesCount (self w1) = duplicatesCount (self w))
      by (by apply (f_equal duplicatesCount) in Ho).
    assert (Hl1 : serversArrayLen (self w1) = 2 ^ 20)
      by (apply (f_equal serversArrayLen) in Ho; simpl in Ho; congruence).
    destruct Hc as (Hkeys & Hlists & Hslots).
    assert (Hnew : Dict.get i (serversToIdx (self w)) = None).
    { apply DictFacts.get_None_keys. rewrite Hkeys.
      apply NoDup_app in Hnd as (_ & Hnd & _). intros Hin.
      apply (Hnd i Hin). by left. }
    replace (pre ++ i :: ks) with ((pre ++ [i]) ++ ks)
      by (by rewrite <- app_assoc).
    rewrite <- Hdc.
    apply (IH (pre ++ [i])
             (upd (λ s, set_serversToIdx (Dict.set i dups (serversToIdx s)) s)
                w1)); simpl; [done| | |by rewrite <- app_assoc| |done].
    + intros x v Hx. destruct (Horigin x v Hx) as [?|[-> _]]; [|done].
      by apply (Hvals x v).
    + rewrite Hdc, Hidx. split; [|split].
      * simpl. by rewrite (DictFacts.keys_set_None _ _ _ Hnew), Hkeys.
      * simpl. intros k d. rewrite DictFacts.get_set. case_decide.
        -- intros [= <-]. subst k. split; [done|]. split; [|done].
           by rewrite Hlend.
        -- intros Hk. destruct (Hlists k d Hk) as (? & ? & Hel).
           split; [done|]. split; [done|].
           intros x Hx. destruct (Hel x Hx). split; [done|]. by apply Hmono.
      * simpl. intros x v Hx. destruct (Horigin x v Hx) as [Hold|[-> Hin]].
        -- destruct (Hslots x v Hold) as (d & Hg & Hin). exists d.
           split; [|done]. rewrite DictFacts.get_set_ne; [done|].
           intros <-. congruence.
        -- exists dups. by rewrite DictFacts.get_set_eq.
    + intros k Hk. apply Hks. by right.
Qed.

Lemma start_place_ring rng fuel i w w' :
  start_place rng fuel i w = Ok tt w' → ring_of (self w') = ring_of (self w).
Proof.
  intros H. pose proof H as H0. unfold start_place in H0.
  apply bind_Ok in H0 as (s0 & w0 & [-> ->]%get_self_Ok & H0).
  apply bind_Ok in H0 as (num0 & w0 & (_ & -> & ->)%randint_Ok & H0).
  apply bind_Ok in H0 as (u & w0 & (h & Hh & _)%history_append_Ok & _).
  simpl in Hh.
  apply (start_place_Ok rng fuel i w w' h Hh) in H
    as (n & ps & num & k & l & c & _ & _ & _ & _ & _ & Hl & _ & _ & _ & ->).
  by destruct (placed_facts (self w) i num k l c (h ++ probes rng w (S n)) Hl)
    as (Hr & _).
Qed.

Lemma start_place_all_ring rng fuel : ∀ objs w w',
  start_place_all rng fuel objs w = Ok tt w' →
  ring_of (self w') = ring_of (self w).
Proof.
  induction objs as [|i objs IH]; intros w w' H.
  - by apply ret_Ok in H as [_ ->].
  - cbn [start_place_all] in H. apply bind_Ok in H as ([] & w1 & Hp & H).
    apply IH in H. apply start_place_ring in Hp. congruence.
Qed.

Lemma ring_census_ring s s' ks dup :
  ring_of s' = ring_of s → ring_census s ks dup → ring_census s' ks dup.
Proof.
  unfold ring_of, ring_census. intros [= -> _ ->]. done.
Qed.

(** X5.  The ring that a completed construction leaves: the array has
    [2 ** 20] slots, of which [serverCount * duplicatesPerServer] are
    written; [serversToIdx] lists the servers [0 .. serverCount - 1] in
    order; each server has [duplicatesPerServer] slots, all different,
    inside the array and written with the server's id; and every written
    slot is in the list of the server written in it.  (Negative counts
    behave like zero, as [range] does.) *)
Theorem X5_ring_census (rng : nat → Z) (fuel : nat) (sv dup obj : Z) (eps : Q)
    (w : world) (H : construct rng fuel sv dup obj eps = Built w) :
  serversArrayLen (self w) = 2 ^ 20 ∧
  size (serversArray (self w)) = (Z.to_nat sv * Z.to_nat dup)%nat ∧
  ring_census (self w) (range sv) (Z.to_nat dup).
Proof.
  unfold construct, __init__ in H. case_decide as Hsv; [done|].
  match type of H with
  | match start _ _ ?w0 with _ => _ end = _ =>
      destruct (start rng fuel w0) as [[] w1| |] eqn:E; [|done|done];
      set (wi := w0) in *
  end.
  injection H as ->. rewrite start_eq in E.
  apply bind_Ok in E as ([] & w1 & E1 & E2).
  pose proof (start_ring rng fuel wi) as K. rewrite E1 in K. simpl in K.
  destruct K as (_ & _ & (Hlen & Hsize & _ & _)).
  apply start_place_all_ring in E2. simpl in E2.
  assert (Hc : ring_census (self w1) (range sv) (Z.to_nat dup)).
  { rewrite <- (range_length dup).
    apply (assign_servers_Ok rng fuel (range sv) [] (upd start_ring_blank wi)
             w1).
    - done.
    - intros x v Hx. simpl in Hx. by rewrite lookup_empty in Hx.
    - split; [done|]. split; [by intros k d ?|].
      intros x v Hx. simpl in Hx. by rewrite lookup_empty in Hx.
    - apply range_nodup.
    - intros i Hi%range_elem. lia.
    - simpl in E1. by rewrite DictFacts.keys_of_keys in E1. }
  split; [|split].
  - unfold ring_of in E2. injection E2 as _ Hl _ _. congruence.
  - unfold ring_of in E2. injection E2 as Ha _ _ _. rewrite Ha. exact Hsize.
  - by apply (ring_census_ring (self w1)).
Qed.

Lemma X5_ring_census_witness :
  serversArrayLen (self trace_w0) = 2 ^ 20 ∧
  size (serversArray (self trace_w0)) = (Z.to_nat 3 * Z.to_nat 1)%nat ∧
  ring_census (self trace_w0) (range 3) (Z.to_nat 1).
Proof.
  apply (X5_ring_census trace_rng 5 3 1 3 1%Q trace_w0).
  vm_compute. reflexivity.
Defined.

(** ** The books of the servers *)

Lemma weight_set {V} (f : V → Z) (d : Dict.t V) k v v0 :
  Dict.get k d = Some v0 →
  foldr Z.add 0 (f <$> Dict.values (Dict.set k v d)) =
  foldr Z.add 0 (f <$> Dict.values d) - f v0 + f v.
Proof.
  unfold Dict.values. induction d as [|[k0 v1] d IH]; simpl; [done|].
  case_decide; csimpl.
  - intros [= ->]. lia.
  - intros Hk. rewrite (IH Hk). lia.
Qed.

Lemma get_without {V} (d : Dict.t V) o o' :
  Dict.get o' (dict_without o d) =
  if decide (o = o') then None else Dict.get o' d.
Proof.
  induction d as [|[k0 v0] d IH]; simpl.
  - by case_decide.
  - repeat (case_decide; simpl; rewrite ?IH); congruence.
Qed.

(** An object that is not live enters server [k] on slot [x]. *)
Lemma servers_ok_enter s s' o x k l c :
  servers_ok s →
  Dict.get o (objectsCurrent s) = None →
  array_get s x = Some k →
  Dict.get k (servers s) = Some l → Dict.get k (serversContains s) = Some c →
  serversCount s' = serversCount s → ring_of s' = ring_of s →
  Dict.keys (servers s') = Dict.keys (servers s) →
  Dict.keys (serversContains s') = Dict.keys (serversContains s) →
  (∀ k', Dict.get k' (servers s') =
         if decide (k = k') then Some (l + 1) else Dict.get k' (servers s)) →
  (∀ k', Dict.get k' (serversContains s') =
         if decide (k = k') then Some (c ∪ {[o]})
         else Dict.get k' (serversContains s)) →
  fullFlag s' = fullFlag s → totalFull s' = totalFull s →
  (∀ o', Dict.get o' (objectsCurrent s') =
         if decide (o = o') then Some x else Dict.get o' (objectsCurrent s)) →
  servers_ok s'.
Proof.
  intros [K1 K2 K3 I1 I2 I3 I4] Hdead Hx Hl Hc Hsc Hr Hks Hkc Hsv Hct Hff Htf
    Hcur.
  assert (Hno : ∀ k' c', Dict.get k' (serversContains s) = Some c' → o ∉ c').
  { intros k' c' Hc' Hin. apply (I2 k' c' o Hc') in Hin as (cur & E & _).
    congruence. }
  split.
  - by rewrite Hks, Hsc.
  - by rewrite Hkc, Hsc.
  - by rewrite Hff, Hsc.
  - intros k' l' c'. rewrite Hsv, Hct. case_decide.
    + intros [= <-] [= <-]. rewrite size_union, size_singleton.
      * rewrite (I1 k l c Hl Hc). lia.
      * apply disjoint_singleton_r. by apply (Hno k).
    + apply I1.
  - intros k' c' o'. rewrite Hct, Hcur.
    setoid_rewrite (ring_of_array_get s s' _ Hr).
    case_decide as Ek; case_decide as Eo.
    + intros [= <-]. subst. split; [eauto|]. intros _.
      apply elem_of_union. right. by apply elem_of_singleton.
    + intros [= <-]. subst. rewrite <- (I2 k' c o' Hc).
      rewrite elem_of_union, elem_of_singleton.
      split; [intros [?|?]; [done|congruence] | by left].
    + intros Hc'. subst. split.
      * intros Hin. by apply (Hno k' c') in Hin.
      * intros (cur & [= <-] & Hx'). congruence.
    + apply I2.
  - unfold full_count. by rewrite Htf, Hff.
  - intros k' l'. rewrite Hff, Hsv.
    unfold ring_of in Hr. injection Hr as _ _ _ ->.
    case_decide.
    + subst. intros Hf [= <-]. pose proof (I4 k' l Hf Hl). lia.
    + apply I4.
Qed.

(** A live object leaves its server, which is not flagged full. *)
Lemma servers_ok_leave s s' o b k l c :
  servers_ok s →
  Dict.get o (objectsCurrent s) = Some b →
  array_get s b = Some k →
  Dict.get k (servers s) = Some l → Dict.get k (serversContains s) = Some c →
  Dict.get k (fullFlag s) = Some false →
  serversCount s' = serversCount s → ring_of s' = ring_of s →
  Dict.keys (servers s') = Dict.keys (servers s) →
  Dict.keys (serversContains s') = Dict.keys (serversContains s) →
  (∀ k', Dict.get k' (servers s') =
         if decide (k = k') then Some (l + -1) else Dict.get k' (servers s)) →
  (∀ k', Dict.get k' (serversContains s') =
         if decide (k = k') then Some (c ∖ {[o]})
         else Dict.get k' (serversContains s)) →
  fullFlag s' = fullFlag s → totalFull s' = totalFull s →
  (∀ o', Dict.get o' (objectsCurrent s') =
         if decide (o = o') then None else Dict.get o' (objectsCurrent s)) →
  servers_ok s'.
Proof.
  intros [K1 K2 K3 I1 I2 I3 I4] Hlive Hb Hl Hc Hf Hsc Hr Hks Hkc Hsv Hct Hff
    Htf Hcur.
  assert (Hin : o ∈ c) by (apply (I2 k c o Hc); eauto).
  split.
  - by rewrite Hks, Hsc.
  - by rewrite Hkc, Hsc.
  - by rewrite Hff, Hsc.
  - intros k' l' c'. rewrite Hsv, Hct. case_decide.
    + intros [= <-] [= <-].
      assert (Hs : size c = S (size (c ∖ {[o]}))).
      { rewrite (union_difference_singleton_L o c Hin) at 1.
        rewrite size_union, size_singleton; [done|].
        apply disjoint_singleton_l.
        intros [_ Hn]%elem_of_difference. apply Hn. by apply elem_of_singleton. }
      rewrite (I1 k l c Hl Hc), Hs. lia.
    + apply I1.
  - intros k' c' o'. rewrite Hct, Hcur.
    setoid_rewrite (ring_of_array_get s s' _ Hr).
    case_decide as Ek; case_decide as Eo.
    + intros [= <-]. subst. split; [|by intros (? & ? & _)].
      intros [_ Hn]%elem_of_difference. destruct Hn. by apply elem_of_singleton.
    + intros [= <-]. subst. rewrite <- (I2 k' c o' Hc).
      rewrite elem_of_difference, elem_of_singleton.
      split; [by intros [? _] | intros ?; split; [done|congruence]].
    + intros Hc'. subst. split; [|by intros (? & ? & _)].
      intros (cur & E & Hk')%(I2 k' c' o' Hc'). congruence.
    + apply I2.
  - unfold full_count. by rewrite Htf, Hff.
  - intros k' l'. rewrite Hff, Hsv.
    unfold ring_of in Hr. injection Hr as _ _ _ ->.
    case_decide; [subst; congruence | apply I4].
Qed.

(** The flag of server [k] changes, and [totalFull] with it. *)
Lemma servers_ok_flag s s' k (b : bool) :
  servers_ok s →
  Dict.get k (fullFlag s) = Some (negb b) →
  (b = true → ∃ l, Dict.get k (servers s) = Some l ∧ loadCap s ≤ l) →
  serversCount s' = serversCount s → ring_of s' = ring_of s →
  servers s' = servers s → serversContains s' = serversContains s →
  objectsCurrent s' = objectsCurrent s →
  fullFlag s' = Dict.set k b (fullFlag s) →
  totalFull s' = totalFull s + (if b then 1 else -1) →
  servers_ok s'.
Proof.
  intros [K1 K2 K3 I1 I2 I3 I4] Hf Hb Hsc Hr Hsv Hct Hcur Hff Htf.
  split.
  - by rewrite Hsv, Hsc.
  - by rewrite Hct, Hsc.
  - by rewrite Hff, (DictFacts.keys_set_Some _ _ _ _ Hf), Hsc.
  - intros k' l' c'. rewrite Hsv, Hct. apply I1.
  - intros k' c' o'. rewrite Hct, Hcur.
    setoid_rewrite (ring_of_array_get s s' _ Hr). apply I2.
  - unfold full_count in *. rewrite Htf, Hff, (weight_set _ _ _ _ _ Hf), I3.
    by destruct b; simpl; lia.
  - intros k' l'. rewrite Hff, Hsv, DictFacts.get_set.
    unfold ring_of in Hr. injection Hr as _ _ _ ->.
    case_decide; [|apply I4].
    subst. intros [= ->]. destruct (Hb eq_refl) as (l & Hl & Hle). congruence.
Qed.

Lemma servers_ok_books s s' : books s' = books s → servers_ok s → servers_ok s'.
Proof.
  unfold books, ring_of.
  intros [= Hsc Harr Hlen Hidx Hcap Hsv Hct Hff Htf Hcur]
    [K1 K2 K3 I1 I2 I3 I4].
  assert (Ha : ∀ x, array_get s' x = array_get s x)
    by (intros x; unfold array_get; congruence).
  split.
  - by rewrite Hsv, Hsc.
  - by rewrite Hct, Hsc.
  - by rewrite Hff, Hsc.
  - rewrite Hsv, Hct. apply I1.
  - intros k c o. setoid_rewrite Ha. rewrite Hct, Hcur. apply I2.
  - unfold full_count. by rewrite Htf, Hff.
  - rewrite Hff, Hsv, Hcap. apply I4.
Qed.

Lemma placed_servers_ok s o num k l c hist :
  servers_ok s →
  Dict.get o (objectsCurrent s) = None →
  array_get s num = Some k →
  Dict.get k (fullFlag s) = Some false →
  Dict.get k (servers s) = Some l → Dict.get k (serversContains s) = Some c →
  servers_ok (placed o num k l c hist s).
Proof.
  intros Hok Hdead Hnum Hf Hl Hc.
  set (s1 := set_objectsCurrent (Dict.set o num (objectsCurrent s))
               (set_serversContains
                  (Dict.set k (c ∪ {[o]}) (serversContains s))
                  (set_servers (Dict.set k (l + 1) (servers s))
                     (set_objectsHistory (Dict.set o hist (objectsHistory s))
                        s)))).
  assert (Hok1 : servers_ok s1).
  { apply (servers_ok_enter s s1 o num k l c); try done; subst s1; simpl.
    - by apply DictFacts.keys_set_Some with l.
    - by apply DictFacts.keys_set_Some with c.
    - intros k'. apply DictFacts.get_set.
    - intros k'. apply DictFacts.get_set.
    - intros o'. apply DictFacts.get_set. }
  unfold placed. simpl_state. case_decide as Hfull; [|exact Hok1].
  apply (servers_ok_flag s1 _ k true); try done; subst s1; simpl.
  intros _. exists (l + 1). split; [apply DictFacts.get_set_eq | lia].
Qed.

Lemma stop_if_filled_servers_ok key w b w' :
  servers_ok (self w) → stop_if_filled key w = Ok b w' →
  servers_ok (self w').
Proof.
  intros Hok H. unfold stop_if_filled in H. unfold_ops. inv_run; try done.
  eapply (servers_ok_flag _ _ key true); try done; simpl.
  intros _. eexists. split; [done | lia].
Qed.

(** A live object leaves its server, whose flag is cleared if it was set:
    the first half of [removeOneObject], and of a move. *)
Lemma servers_ok_removed s s' o b k l c (f : bool) :
  servers_ok s →
  Dict.get o (objectsCurrent s) = Some b →
  array_get s b = Some k →
  Dict.get k (servers s) = Some l → Dict.get k (serversContains s) = Some c →
  Dict.get k (fullFlag s) = Some f →
  serversCount s' = serversCount s → ring_of s' = ring_of s →
  servers s' = Dict.set k (l + -1) (servers s) →
  serversContains s' = Dict.set k (c ∖ {[o]}) (serversContains s) →
  fullFlag s' = (if f then Dict.set k false (fullFlag s) else fullFlag s) →
  totalFull s' = (if f then totalFull s + -1 else totalFull s) →
  (∀ o', Dict.get o' (objectsCurrent s') =
         if decide (o = o') then None else Dict.get o' (objectsCurrent s)) →
  servers_ok s'.
Proof.
  intros Hok Hb Hk Hl Hc Hf Hsc Hr Hsv Hct Hff Htf Hcur.
  set (s1 := if f then set_totalFull (totalFull s + -1)
                         (set_fullFlag (Dict.set k false (fullFlag s)) s)
             else s).
  assert (H1 : servers_ok s1 ∧ Dict.get k (fullFlag s1) = Some false ∧
            serversCount s1 = serversCount s ∧ ring_of s1 = ring_of s ∧
            servers s1 = servers s ∧ serversContains s1 = serversContains s ∧
            fullFlag s1 = fullFlag s' ∧ totalFull s1 = totalFull s' ∧
            objectsCurrent s1 = objectsCurrent s).
  { subst s1. destruct f.
    - split; [by apply (servers_ok_flag s _ k false)|].
      split; [simpl; apply DictFacts.get_set_eq|]. by rewrite Hff, Htf.
    - split; [done|]. split; [done|]. by rewrite Hff, Htf. }
  destruct H1 as (Hok1 & Hf1 & Hsc1 & Hr1 & Hsv1 & Hct1 & Hff1 & Htf1 & Hcur1).
  clearbody s1.
  apply (servers_ok_leave s1 s' o b k l c); try done.
  - by rewrite Hcur1.
  - by rewrite (ring_of_array_get s s1).
  - by rewrite Hsv1.
  - by rewrite Hct1.
  - congruence.
  - congruence.
  - rewrite Hsv, Hsv1. by apply DictFacts.keys_set_Some with l.
  - rewrite Hct, Hct1. by apply DictFacts.keys_set_Some with c.
  - intros k'. rewrite Hsv, Hsv1. apply DictFacts.get_set.
  - intros k'. rewrite Hct, Hct1. apply DictFacts.get_set.
  - intros o'. by rewrite Hcur, Hcur1.
Qed.

(** An object moves from the server that owns its slot to another one, as
    lines 302 to 316 do it. *)
Lemma servers_ok_transfer s s' i x key b prev lk ck lp cp (fp : bool) :
  servers_ok s →
  Dict.get i (objectsCurrent s) = Some b →
  array_get s b = Some prev → prev ≠ key → array_get s x = Some key →
  Dict.get key (servers s) = Some lk →
  Dict.get key (serversContains s) = Some ck →
  Dict.get prev (servers s) = Some lp →
  Dict.get prev (serversContains s) = Some cp →
  Dict.get prev (fullFlag s) = Some fp →
  serversCount s' = serversCount s → ring_of s' = ring_of s →
  servers s' = Dict.set prev (lp + -1) (Dict.set key (lk + 1) (servers s)) →
  serversContains s' =
    Dict.set prev (cp ∖ {[i]})
      (Dict.set key (ck ∪ {[i]}) (serversContains s)) →
  fullFlag s' = (if fp then Dict.set prev false (fullFlag s) else fullFlag s) →
  totalFull s' = (if fp then totalFull s + -1 else totalFull s) →
  objectsCurrent s' = Dict.set i x (objectsCurrent s) →
  servers_ok s'.
Proof.
  intros Hok Hb Hprev Hne Hx Hlk Hck Hlp Hcp Hfp Hsc Hr Hsv Hct Hff Htf Hcur.
  set (s2 := set_objectsCurrent (dict_without i (objectsCurrent s))
               (set_totalFull (totalFull s')
                  (set_fullFlag (fullFlag s')
                     (set_serversContains
                        (Dict.set prev (cp ∖ {[i]}) (serversContains s))
                        (set_servers (Dict.set prev (lp + -1) (servers s))
                           s))))).
  assert (Hok2 : servers_ok s2).
  { apply (servers_ok_removed s s2 i b prev lp cp fp); try done; subst s2;
      simpl; try done.
    intros o'. apply get_without. }
  apply (servers_ok_enter s2 s' i x key lk ck); try done; subst s2; simpl.
  - rewrite get_without. by rewrite decide_True.
  - rewrite DictFacts.get_set_ne; done.
  - rewrite DictFacts.get_set_ne; done.
  - rewrite Hsv.
    assert (Dict.get prev (Dict.set key (lk + 1) (servers s)) = Some lp)
      by (by rewrite DictFacts.get_set_ne).
    rewrite !(DictFacts.keys_set_Some _ prev _ lp) by done.
    by apply DictFacts.keys_set_Some with lk.
  - rewrite Hct.
    assert (Dict.get prev (Dict.set key (ck ∪ {[i]}) (serversContains s))
            = Some cp) by (by rewrite DictFacts.get_set_ne).
    rewrite !(DictFacts.keys_set_Some _ prev _ cp) by done.
    by apply DictFacts.keys_set_Some with ck.
  - intros k'. rewrite Hsv, !DictFacts.get_set.
    repeat case_decide; congruence.
  - intros k'. rewrite Hct, !DictFacts.get_set.
    repeat case_decide; congruence.
  - intros o'. rewrite Hcur, DictFacts.get_set, get_without.
    by destruct (decide (i = o')).
Qed.

Lemma move_object_servers_ok key i x w b w' :
  servers_ok (self w) → array_get (self w) x = Some key →
  valid_mover key i x w = Ok true w → move_object key i x w = Ok b w' →
  servers_ok (self w').
Proof.
  intros Hok Hx Hv H.
  apply valid_mover_Ok in Hv as (_ & Hv & _).
  destruct (Hv eq_refl) as (h & c0 & k0 & Hh & Hxh & Hc0 & Hk0 & Hne).
  clear Hv. unfold move_object in H. unfold_ops. inv_run.
  all: rewrite ?DictFacts.get_set in *.
  all: same_reads.
  all: rewrite ?decide_False in * by congruence.
  - eapply (servers_ok_transfer (self w) _ i x key c0 k0 _ _ _ _ true);
      try done; by simpl_state.
  - eapply (servers_ok_transfer (self w) _ i x key c0 k0 _ _ _ _ false);
      try done; by simpl_state.
Qed.

(** *** A second proof rule for [fillBinOne]

    For a property [Q] of the object that a move and the stop test of
    lines 321 to 324 keep, whatever else they change. *)
Section fill_books.
Variable rng : nat → Z.
Variable Q : RJCH → Prop.
Hypothesis Q_move : ∀ key d i x w b w',
  Q (self w) → Dict.get key (serversToIdx (self w)) = Some d → x ∈ d →
  valid_mover key i x w = Ok true w → move_object key i x w = Ok b w' →
  Q (self w').
Hypothesis Q_stop : ∀ key w b w',
  Q (self w) → stop_if_filled key w = Ok b w' → Q (self w').

Lemma fill_step_books rec key d i x w b w' :
  (∀ slot w w', Q (self w) → rec slot w = Ok tt w' →
                Q (self w') ∧ ring_of (self w') = ring_of (self w)) →
  Q (self w) → Dict.get key (serversToIdx (self w)) = Some d → x ∈ d →
  fill_step rec key i x w = Ok b w' →
  Q (self w') ∧ ring_of (self w') = ring_of (self w).
Proof.
  intros Hrec HQ Hd Hx H. unfold fill_step in H.
  apply bind_Ok in H as (ok & w1 & Hv & H).
  pose proof Hv as Hv'. apply valid_mover_Ok in Hv' as [-> _].
  destruct ok; [|by apply ret_Ok in H as [_ ->]].
  apply bind_Ok in H as (b0 & w2 & Hm & H).
  apply bind_Ok in H as ([] & w3 & Hr & H).
  pose proof (Q_move _ _ _ _ _ _ _ HQ Hd Hx Hv Hm) as HQ2.
  apply move_object_Ok in Hm
    as (? & ? & ? & _ & _ & _ & _ & Hr2 & _).
  destruct (Hrec _ _ _ HQ2 Hr) as [HQ3 Hr3].
  split; [by apply (Q_stop _ _ _ _ HQ3 H)|].
  apply stop_if_filled_Ok in H as (Hview%view_inv & _).
  destruct Hview as (Ha & Hl & Hi & Hc & _).
  unfold ring_of in *. congruence.
Qed.

Lemma fill_dups_books rec key d i : ∀ dups w b w',
  (∀ slot w w', Q (self w) → rec slot w = Ok tt w' →
                Q (self w') ∧ ring_of (self w') = ring_of (self w)) →
  Q (self w) → Dict.get key (serversToIdx (self w)) = Some d → dups ⊆ d →
  fill_dups rec key i dups w = Ok b w' →
  Q (self w') ∧ ring_of (self w') = ring_of (self w).
Proof.
  induction dups as [|x dups IH]; intros w b w' Hrec HQ Hd Hsub H.
  - by apply ret_Ok in H as [_ ->].
  - cbn [fill_dups] in H. apply bind_Ok in H as (st & w1 & Hs & H).
    apply (fill_step_books rec key d) in Hs as [HQ1 Hr1]; [|done..|].
    2: { apply Hsub. by left. }
    destruct st; [by apply ret_Ok in H as [_ ->]|].
    apply IH in H as [HQ2 Hr2]; [split; [done|congruence]|done|done| |].
    + unfold ring_of in Hr1. injection Hr1 as _ _ -> _. done.
    + intros y Hy. apply Hsub. by right.
Qed.

Lemma fill_objects_books rec key d dups : ∀ objs w w',
  (∀ slot w w', Q (self w) → rec slot w = Ok tt w' →
                Q (self w') ∧ ring_of (self w') = ring_of (self w)) →
  Q (self w) → Dict.get key (serversToIdx (self w)) = Some d → dups ⊆ d →
  fill_objects rec key dups objs w = Ok tt w' →
  Q (self w') ∧ ring_of (self w') = ring_of (self w).
Proof.
  induction objs as [|i objs IH]; intros w w' Hrec HQ Hd Hsub H.
  - by apply ret_Ok in H as [_ ->].
  - cbn [fill_objects] in H. apply bind_Ok in H as (st & w1 & Hs & H).
    apply (fill_dups_books rec key d) in Hs as [HQ1 Hr1]; [|done..].
    destruct st; [by apply ret_Ok in H as [_ ->]|].
    apply IH in H as [HQ2 Hr2]; [split; [done|congruence]|done|done| |done].
    unfold ring_of in Hr1. injection Hr1 as _ _ -> _. done.
Qed.

Lemma fillBinOne_books fuel : ∀ slot w w',
  Q (self w) → fillBinOne rng fuel slot w = Ok tt w' →
  Q (self w') ∧ ring_of (self w') = ring_of (self w).
Proof.
  induction fuel as [|fuel IH]; intros slot w w' HQ H; [done|].
  cbn [fillBinOne] in H.
  apply bind_Ok in H as (key & w0 & [_ ->]%serversArray_at_Ok & H).
  apply bind_Ok in H as (l & w0 & [_ ->]%lookup_in_Ok & H).
  apply bind_Ok in H as (s0 & w0 & [-> ->]%get_self_Ok & H).
  case_decide; [by apply ret_Ok in H as [_ ->]|].
  apply bind_Ok in H as ([] & w1 & ->%log_search_Ok & H).
  apply bind_Ok in H as (d & w0 & [Hd ->]%lookup_in_Ok & H).
  apply bind_Ok in H as (dups & w2 & (Hs2 & _ & Hsub)%shuffle_Ok & H).
  apply bind_Ok in H as (s0 & w0 & [-> ->]%get_self_Ok & H).
  apply bind_Ok in H as (objs & w3 & (Hs3 & _ & _)%shuffle_Ok & H).
  simpl in Hd, Hs2. rewrite Hs2 in Hs3.
  apply (fill_objects_books (fillBinOne rng fuel) key d) in H;
    rewrite ?Hs3 in *; done.
Qed.

End fill_books.

Lemma fillBinOne_servers_ok rng fuel slot w w' :
  servers_ok (self w) → ring_ok (self w) →
  fillBinOne rng fuel slot w = Ok tt w' → servers_ok (self w').
Proof.
  intros Hok Hring H.
  apply (fillBinOne_books rng (λ s, servers_ok s ∧ ring_ok s)) in H;
    [tauto| | |done].
  - intros key d i x w0 b w1 [Hok0 Hring0] Hd Hx Hv Hm. split.
    + apply (move_object_servers_ok key i x w0 b w1); try done.
      by apply (dups_owned _ Hring0 key d x).
    + apply move_object_Ok in Hm as (? & ? & ? & _ & _ & _ & _ & Hr & _).
      by apply (ring_ok_ring (self w0)).
  - intros key w0 b w1 [Hok0 Hring0] Hs. split.
    + by apply (stop_if_filled_servers_ok key w0 b w1).
    + apply stop_if_filled_Ok in Hs as (Hview%view_inv & _).
      destruct Hview as (Ha & Hl & Hi & Hc & _).
      apply (ring_ok_ring (self w0)); [|done]. unfold ring_of. congruence.
Qed.

Lemma get_pop {V} (d : Dict.t V) o o' :
  NoDup (Dict.keys d) →
  Dict.get o' (Dict.pop o d) = if decide (o = o') then None else Dict.get o' d.
Proof.
  intros Hnd. case_decide.
  - subst. by apply DictFacts.get_pop_eq.
  - by apply DictFacts.get_pop_ne.
Qed.

Lemma removeOneObject_servers_ok rng fuel w w' :
  well_formed (self w) → servers_ok (self w) →
  removeOneObject rng fuel w = Ok tt w' → servers_ok (self w').
Proof.
  intros [Hring Hobj] Hok H. unfold removeOneObject in H. unfold_ops.
  apply bind_Ok in H as (s0 & w0 & [-> ->]%get_self_Ok & H).
  apply bind_Ok in H as (o & w0 & (_ & Hs0 & _)%choice_Ok & H).
  inv_run.
  all: rewrite ?Hs0 in *.
  all: same_reads.
  - apply fillBinOne_servers_ok in H; [done| |].
    + simpl_state. rewrite ?Hs0.
      eapply (servers_ok_removed (self w) _ o _ _ _ _ true); try done;
        simpl_state; try done.
      intros o'. apply get_pop, (keys_nodup _ Hobj).
    + simpl_state. rewrite ?Hs0. by apply (ring_ok_ring (self w)).
  - simpl_state. rewrite ?Hs0.
    eapply (servers_ok_removed (self w) _ o _ _ _ _ false); try done;
      simpl_state; try done.
    intros o'. apply get_pop, (keys_nodup _ Hobj).
Qed.

Lemma addOneObject_servers_ok rng fuel w w' :
  well_formed (self w) → servers_ok (self w) →
  addOneObject rng fuel w = Ok tt w' → servers_ok (self w').
Proof.
  intros [_ Hobj] Hok H. apply addOneObject_Ok in H. cbv zeta in H.
  destruct H as (n & ps & num & k & l & c & _ & _ & Hnum & _ & Hf & Hl & Hc
                 & _ & _ & ->).
  eapply servers_ok_books;
    [|apply (placed_servers_ok (self w) (totalObjectsAndPastCount (self w))
               num k l c (probes rng w (S n))); try done].
  - done.
  - apply DictFacts.get_None_keys. intros Hin.
    apply (keys_fresh _ Hobj) in Hin. lia.
Qed.

Lemma start_place_servers_ok rng fuel i w w' :
  servers_ok (self w) → Dict.get i (objectsCurrent (self w)) = None →
  start_place rng fuel i w = Ok tt w' →
  servers_ok (self w') ∧
  ∃ num, objectsCurrent (self w') = Dict.set i num (objectsCurrent (self w)).
Proof.
  intros Hok Hdead H. pose proof H as H0. unfold start_place in H0.
  apply bind_Ok in H0 as (s0 & w0 & [-> ->]%get_self_Ok & H0).
  apply bind_Ok in H0 as (num0 & w0 & (_ & -> & ->)%randint_Ok & H0).
  apply bind_Ok in H0 as (u & w0 & (h & Hh & _)%history_append_Ok & _).
  simpl in Hh.
  apply (start_place_Ok rng fuel i w w' h Hh) in H
    as (n & ps & num & k & l & c & _ & _ & Hnum & _ & Hf & Hl & Hc & _ & _
        & ->).
  split; [by apply placed_servers_ok|].
  exists num.
  by destruct (placed_facts (self w) i num k l c (h ++ probes rng w (S n)) Hl)
    as (_ & _ & _ & Hcur & _).
Qed.

Lemma start_place_all_servers_ok rng fuel : ∀ objs w w',
  servers_ok (self w) → NoDup objs →
  (∀ i, i ∈ objs → Dict.get i (objectsCurrent (self w)) = None) →
  start_place_all rng fuel objs w = Ok tt w' → servers_ok (self w').
Proof.
  induction objs as [|i objs IH]; intros w w' Hok Hnd Hdead H.
  - by apply ret_Ok in H as [_ ->].
  - cbn [start_place_all] in H. apply bind_Ok in H as ([] & w1 & Hp & H).
    apply NoDup_cons in Hnd as [Hi Hnd].
    apply start_place_servers_ok in Hp as (Hok1 & num & Hcur);
      [|done|apply Hdead; by left].
    apply IH in H; [done..|].
    intros j Hj. rewrite Hcur, DictFacts.get_set_ne.
    + apply Hdead. by right.
    + by intros ->.
Qed.

Lemma full_count_of_keys ks :
  foldr Z.add 0
    ((λ b : bool, if b then 1 else 0) <$> Dict.values (Dict.of_keys ks false))
  = 0.
Proof.
  unfold Dict.values, Dict.of_keys. induction ks as [|k ks IH]; csimpl; lia.
Qed.

Lemma start_servers_ok rng fuel w w' :
  totalFull (self w) = 0 → start rng fuel w = Ok tt w' →
  servers_ok (self w').
Proof.
  intros Htf H. rewrite start_eq in H.
  apply bind_Ok in H as (u & w1 & E & H).
  pose proof (start_ring rng fuel w) as K. rewrite E in K. simpl in K.
  destruct K as (Ho & _ & _).
  apply start_place_all_servers_ok in H; [done| |apply range_nodup|done].
  assert (Hsc : serversCount (self w1) = serversCount (self w))
    by (by apply (f_equal serversCount) in Ho).
  assert (Hsv : servers (self w1) =
                Dict.of_keys (range (serversCount (self w))) 0)
    by (by apply (f_equal servers) in Ho).
  assert (Hff : fullFlag (self w1) =
                Dict.of_keys (range (serversCount (self w))) false)
    by (by apply (f_equal fullFlag) in Ho).
  assert (Htf1 : totalFull (self w1) = 0)
    by (apply (f_equal totalFull) in Ho; simpl in Ho; congruence).
  split; simpl.
  - by rewrite Hsv, Hsc, DictFacts.keys_of_keys.
  - by rewrite DictFacts.keys_of_keys.
  - by rewrite Hff, Hsc, DictFacts.keys_of_keys.
  - intros k l c. rewrite Hsv, !DictFacts.get_of_keys, Hsc.
    case_decide; [|done]. intros [= E1] [= E2]. subst.
    by rewrite size_empty.
  - intros k c o. rewrite DictFacts.get_of_keys.
    case_decide; [|done]. intros [= E1]. subst c.
    split; [|by intros (? & ? & _)].
    intros Hin. by apply elem_of_empty in Hin.
  - unfold full_count. simpl. rewrite Htf1, Hff. by rewrite full_count_of_keys.
  - intros k l. rewrite Hff, DictFacts.get_of_keys. by case_decide.
Qed.

Lemma reachable_servers_ok w : reachable w → servers_ok (self w).
Proof.
  induction 1 as [rng fuel sv dup obj eps w Hobj Hc
                 |rng fuel w w' Hr IH Hadd
                 |rng fuel w w' Hr IH Hrem].
  - unfold construct, __init__ in Hc. case_decide; [done|].
    match type of Hc with
    | match start _ _ ?w0 with _ => _ end = _ =>
        destruct (start rng fuel w0) as [[] w1| |] eqn:E; [|done|done]
    end.
    injection Hc as <-. by apply start_servers_ok in E.
  - apply reachable_coherent in Hr as [Hwf _].
    by apply (addOneObject_servers_ok rng fuel w).
  - apply reachable_coherent in Hr as [Hwf _].
    by apply (removeOneObject_servers_ok rng fuel w).
Qed.

Lemma get_is_Some_keys {V} (d : Dict.t V) k :
  k ∈ Dict.keys d → ∃ v, Dict.get k d = Some v.
Proof.
  intros Hin. destruct (Dict.get k d) as [v|] eqn:E; [by exists v|].
  by apply DictFacts.get_None_keys in E.
Qed.

Lemma full_count_bounds (l : list bool) :
  0 ≤ foldr Z.add 0 ((λ b : bool, if b then 1 else 0) <$> l)
    ≤ Z.of_nat (length l).
Proof. induction l as [|[] l IH]; csimpl; lia. Qed.

(** X6.  The servers' books balance in every world of a run.  The load
    counters, the contained sets and the full flags are kept for exactly
    the servers [0 .. serversCount - 1]; a server's load counter is the
    number of objects in its contained set, hence never negative; and that
    set is exactly the live objects whose current slot the server owns. *)
Theorem X6_server_books (w : world) (Hr : reachable w) :
  Dict.keys (servers (self w)) = range (serversCount (self w)) ∧
  Dict.keys (serversContains (self w)) = range (serversCount (self w)) ∧
  Dict.keys (fullFlag (self w)) = range (serversCount (self w)) ∧
  ∀ k l, Dict.get k (servers (self w)) = Some l →
    ∃ c, Dict.get k (serversContains (self w)) = Some c ∧
         l = Z.of_nat (size c) ∧ 0 ≤ l ∧
         ∀ o, o ∈ c ↔
              ∃ cur, Dict.get o (objectsCurrent (self w)) = Some cur ∧
                     array_get (self w) cur = Some k.
Proof.
  destruct (reachable_servers_ok w Hr) as [K1 K2 K3 I1 I2 _ _].
  repeat (split; [done|]). intros k l Hl.
  destruct (get_is_Some_keys (serversContains (self w)) k) as [c Hc].
  { rewrite K2, <- K1. by apply (get_Some_in_keys _ _ l). }
  exists c. split; [done|]. rewrite (I1 k l c Hl Hc).
  split; [done|]. split; [lia|]. intros o. by apply I2.
Qed.

Lemma X6_server_books_witness :
  ∃ c, Dict.get 0 (serversContains (self trace_w6)) = Some c ∧
       3 = Z.of_nat (size c) ∧ 0 ≤ 3 ∧
       ∀ o, o ∈ c ↔
            ∃ cur, Dict.get o (objectsCurrent (self trace_w6)) = Some cur ∧
                   array_get (self trace_w6) cur = Some 0.
Proof.
  apply (proj2 (proj2 (proj2 (X6_server_books trace_w6 trace_w6_reachable)))
           0 3).
  vm_compute. reflexivity.
Defined.

(** X7.  The full flags in every world of a run: [totalFull] is the number
    of servers whose flag is set, so it lies between 0 and the number of
    servers; and a server whose flag is set holds at least [loadCap]
    objects.  (The converse fails: see C1.) *)
Theorem X7_full_flags (w : world) (Hr : reachable w) :
  totalFull (self w) = full_count (self w) ∧
  0 ≤ totalFull (self w) ≤ Z.max 0 (serversCount (self w)) ∧
  ∀ k l, Dict.get k (fullFlag (self w)) = Some true →
         Dict.get k (servers (self w)) = Some l → loadCap (self w) ≤ l.
Proof.
  destruct (reachable_servers_ok w Hr) as [_ _ K3 _ _ I3 I4].
  split; [done|]. split; [|done].
  rewrite I3. unfold full_count.
  pose proof (full_count_bounds (Dict.values (fullFlag (self w)))) as Hb.
  assert (Hlen : length (Dict.values (fullFlag (self w))) =
                 Z.to_nat (serversCount (self w))).
  { rewrite <- range_length, <- K3. unfold Dict.values, Dict.keys.
    by rewrite !length_fmap. }
  rewrite Hlen in Hb. lia.
Qed.

Lemma X7_full_flags_witness :
  totalFull (self trace_w6) = full_count (self trace_w6) ∧
  0 ≤ totalFull (self trace_w6) ≤ Z.max 0 (serversCount (self trace_w6)) ∧
  ∀ k l, Dict.get k (fullFlag (self trace_w6)) = Some true →
         Dict.get k (servers (self trace_w6)) = Some l →
         loadCap (self trace_w6) ≤ l.
Proof. exact (X7_full_flags trace_w6 trace_w6_reachable). Defined.

(** ** The measurements *)

(** X8.  [pctOfFullBins] in a world of a run: with servers it changes
    nothing and divides the counter [totalFull] by [serversCount], a
    quotient between 0 and 1; with none ([serversCount] negative, the
    dictionaries empty) it raises [ZeroDivisionError]. *)
Theorem X8_pctOfFullBins (w : world) (Hr : reachable w) :
  (0 < serversCount (self w) →
   pctOfFullBins w = Ok (totalFull (self w), serversCount (self w)) w ∧
   0 ≤ totalFull (self w) ≤ serversCount (self w)) ∧
  (serversCount (self w) ≤ 0 → pctOfFullBins w = Raise ZeroDivisionError w).
Proof.
  destruct (reachable_servers_ok w Hr) as [_ _ K3 _ _ I3 _].
  assert (Hlen : length (fullFlag (self w)) = Z.to_nat (serversCount (self w))).
  { rewrite <- range_length, <- K3. unfold Dict.keys. by rewrite length_fmap. }
  pose proof (full_count_bounds (Dict.values (fullFlag (self w)))) as Hb.
  unfold Dict.values in Hb. rewrite length_fmap, Hlen in Hb.
  unfold pctOfFullBins, mbind, M_bind, get_self. rewrite Hlen.
  split; intros Hsc.
  - rewrite decide_False by lia. rewrite I3. unfold full_count, Dict.values.
    split; [|lia]. unfold mret, M_ret. do 2 f_equal. lia.
  - rewrite decide_True by lia. done.
Qed.

Lemma X8_pctOfFullBins_witness :
  pctOfFullBins trace_w6 =
    Ok (totalFull (self trace_w6), serversCount (self trace_w6)) trace_w6 ∧
  0 ≤ totalFull (self trace_w6) ≤ serversCount (self trace_w6).
Proof.
  apply (proj1 (X8_pctOfFullBins trace_w6 trace_w6_reachable)).
  vm_compute. reflexivity.
Defined.

Lemma slot_full_Ok num w f w' :
  slot_full num w = Ok f w' → w' = w ∧ f = full_server_slot (self w) num.
Proof.
  unfold slot_full, full_server_slot. intros H. inv_run; same_reads.
  - match goal with H : array_read _ _ _ = Some _ |- _ => rewrite H end.
    rewrite decide_False by done.
    match goal with H : Dict.get _ _ = Some _ |- _ => by rewrite H end.
  - match goal with H : array_read _ _ _ = Some _ |- _ => rewrite H end.
    by case_decide.
Qed.

Lemma hits_bounds s ps : 0 ≤ hits s ps ≤ Z.of_nat (length ps).
Proof.
  unfold hits. induction ps as [|p ps IH]; csimpl; [lia|].
  destruct (full_server_slot s p); lia.
Qed.

Lemma probes_length rng w n : length (probes rng w n) = n.
Proof. unfold probes. by rewrite length_fmap, length_seq. Qed.

Lemma steps_loop_Ok rng fuel : ∀ num c w r w',
  steps_loop rng fuel num c w = Ok r w' →
  ∃ n ps num',
    drawn w' = (drawn w + n)%nat ∧ searches w' = searches w ∧
    self w' = self w ∧ r = c + Z.of_nat n ∧
    num :: probes rng w n = ps ++ [num'] ∧
    Forall (passed_over (self w)) ps ∧ eligible (self w) num'.
Proof.
  induction fuel as [|fuel IH]; intros num c w r w' H.
  - simpl in H. apply bind_Ok in H as (b & w1 & Hb & H).
    apply slot_unusable_Ok in Hb as (-> & _ & Hel).
    destruct b; [done|]. apply ret_Ok in H as [-> ->].
    exists O, [], num. rewrite Nat.add_0_r, Z.add_0_r.
    repeat split; [constructor | by apply Hel].
  - cbn [steps_loop] in H. apply bind_Ok in H as (b & w1 & Hb & H).
    apply slot_unusable_Ok in Hb as (-> & Hpass & Hel).
    destruct b.
    + apply bind_Ok in H as (s0 & w0 & [-> ->]%get_self_Ok & H).
      apply bind_Ok in H as (num1 & w1 & (Hlen & -> & ->)%randint_Ok & H).
      apply IH in H as (n & ps & num' & Hd & Hs & Hself & -> & Hps & Hall & He).
      simpl in *. exists (S n), (num :: ps), num'. rewrite probes_S.
      split; [lia|]. split; [done|]. split; [done|]. split; [lia|].
      split; [simpl; by rewrite Hps|]. split; [|done].
      constructor; [by apply Hpass|done].
    + apply ret_Ok in H as [-> ->]. exists O, [], num.
      rewrite Nat.add_0_r, Z.add_0_r.
      repeat split; [constructor | by apply Hel].
Qed.

Lemma tried_loop_steps rng fuel : ∀ num c1 c2 w r w',
  tried_loop rng fuel num c1 w = Ok r w' →
  ∃ n, steps_loop rng fuel num c2 w = Ok (c2 + Z.of_nat n) w' ∧
       r = c1 + hits (self w) (probes rng w n).
Proof.
  induction fuel as [|fuel IH]; intros num c1 c2 w r w' H.
  - simpl in H. apply bind_Ok in H as (b & w1 & Hb & H).
    simpl. rewrite (bind_run _ _ _ _ _ Hb).
    destruct b; [done|]. apply ret_Ok in H as [-> ->].
    exists O. rewrite !Z.add_0_r. done.
  - cbn [tried_loop] in H. apply bind_Ok in H as (b & w1 & Hb & H).
    cbn [steps_loop]. rewrite (bind_run _ _ _ _ _ Hb).
    apply slot_unusable_Ok in Hb as (-> & _).
    destruct b.
    + apply bind_Ok in H as (s0 & w0 & [-> ->]%get_self_Ok & H).
      apply bind_Ok in H as (num1 & w1 & Hrand & H).
      rewrite (bind_run _ _ _ _ _ (eq_refl : get_self w = Ok (self w) w)).
      rewrite (bind_run _ _ _ _ _ Hrand).
      apply randint_Ok in Hrand as (Hlen & -> & ->).
      apply bind_Ok in H as (f & w1 & [-> ->]%slot_full_Ok & H).
      apply (IH _ _ (c2 + 1)) in H as (n & -> & ->).
      exists (S n). split; [f_equal; lia|].
      rewrite probes_S. unfold hits. csimpl.
      destruct (full_server_slot (self w) _); lia.
    + apply ret_Ok in H as [-> ->]. exists O. rewrite !Z.add_0_r. done.
Qed.

(** X10.  [assignObjectServersTried] against [assignObjectTotalSteps] on
    the same random stream.  When the first returns [t], the second returns
    the number of probes [n + 1] in the same final world; neither changes
    the object, both consume the [n + 1] draws; and [t] is 1 plus the number
    of probes after the first that hit a server flagged full, so
    [1 ≤ t ≤ n + 1]: probes of empty slots are not counted. *)
Theorem X10_servers_tried (rng : nat → Z) (fuel : nat) (w : world) (t : Z)
    (w' : world) (H : assignObjectServersTried rng fuel w = Ok t w') :
  ∃ n, assignObjectTotalSteps rng fuel w = Ok (Z.of_nat (S n)) w' ∧
       self w' = self w ∧ drawn w' = (drawn w + S n)%nat ∧
       t = 1 + hits (self w) (tail (probes rng w (S n))) ∧
       1 ≤ t ≤ Z.of_nat (S n).
Proof.
  unfold assignObjectServersTried in H. unfold assignObjectTotalSteps.
  apply bind_Ok in H as (s0 & w0 & [-> ->]%get_self_Ok & H).
  apply bind_Ok in H as (num & w1 & Hrand & H).
  rewrite (bind_run _ _ _ _ _ (eq_refl : get_self w = Ok (self w) w)).
  rewrite (bind_run _ _ _ _ _ Hrand).
  apply randint_Ok in Hrand as (Hlen & -> & ->).
  apply (tried_loop_steps _ _ _ _ 1) in H as (n & Hsteps & ->).
  pose proof Hsteps as K.
  apply steps_loop_Ok in K as (n' & ps & num' & Hd & _ & Hself & Hn & _).
  assert (n' = n) by lia. subst n'. cbn [self drawn] in *.
  exists n. split; [rewrite Hsteps; f_equal; lia|].
  split; [done|]. split; [lia|]. rewrite probes_S. cbn [tail].
  split; [done|].
  pose proof (hits_bounds (self w)
    (probes rng (mkWorld (self w) (S (drawn w)) (searches w)) n)) as Hb.
  rewrite probes_length in Hb. lia.
Qed.

Lemma X10_servers_tried_witness :
  ∃ n, assignObjectTotalSteps (λ j, nth (j - 7) [1; 1; 0] 0) 3 trace_w0
         = Ok (Z.of_nat (S n))
              (after (assignObjectServersTried
                        (λ j, nth (j - 7) [1; 1; 0] 0) 3) trace_w0) ∧
       self (after (assignObjectServersTried
                      (λ j, nth (j - 7) [1; 1; 0] 0) 3) trace_w0)
         = self trace_w0 ∧
       drawn (after (assignObjectServersTried
                       (λ j, nth (j - 7) [1; 1; 0] 0) 3) trace_w0)
         = (drawn trace_w0 + S n)%nat ∧
       2 = 1 + hits (self trace_w0)
                 (tail (probes (λ j, nth (j - 7) [1; 1; 0] 0) trace_w0 (S n))) ∧
       1 ≤ 2 ≤ Z.of_nat (S n).
Proof.
  apply (X10_servers_tried (λ j, nth (j - 7) [1; 1; 0] 0) 3 trace_w0 2).
  vm_compute. reflexivity.
Defined.

Lemma slot_unusable_frame num w1 w2 b :
  ring_of (self w2) = ring_of (self w1) →
  fullFlag (self w2) = fullFlag (self w1) →
  slot_unusable num w1 = Ok b w1 → slot_unusable num w2 = Ok b w2.
Proof.
  intros Hr Hf.
  unfold slot_unusable, serversArray_at, lookup_in, mbind, M_bind, get_self,
    of_option.
  rewrite (ring_of_array_get _ _ num Hr).
  destruct (array_get (self w1) num) as [k|]; simpl; [|done].
  case_decide; simpl; [by intros [= <-]|].
  rewrite (ring_of_array_get _ _ num Hr).
  destruct (array_get (self w1) num) as [k'|]; simpl; [|done].
  rewrite Hf.
  destruct (Dict.get k' (fullFlag (self w1))); simpl; [|done].
  by intros [= <-].
Qed.

Lemma history_append_run o num w h :
  Dict.get o (objectsHistory (self w)) = Some h →
  history_append o num w =
  Ok tt (upd (set_objectsHistory
                (Dict.set o (h ++ [num]) (objectsHistory (self w)))) w).
Proof.
  intros Hh. unfold history_append.
  by rewrite (bind_run _ _ _ _ _ (lookup_in_run objectsHistory o w h Hh)).
Qed.

(** The probe loop of [addOneObject] follows the loop of
    [assignObjectTotalSteps] draw by draw. *)
Lemma probe_follows rng fuel : ∀ num c w1 r w1' o w2 h,
  steps_loop rng fuel num c w1 = Ok r w1' →
  ring_of (self w2) = ring_of (self w1) →
  fullFlag (self w2) = fullFlag (self w1) → drawn w2 = drawn w1 →
  Dict.get o (objectsHistory (self w2)) = Some h →
  ∃ num' w2', probe rng fuel o num w2 = Ok num' w2' ∧ drawn w2' = drawn w1'.
Proof.
  induction fuel as [|fuel IH]; intros num c w1 r w1' o w2 h H Hr Hf Hd Hh.
  - simpl in H. apply bind_Ok in H as (b & w0 & Hb & H).
    pose proof Hb as Hb'. apply slot_unusable_Ok in Hb' as (-> & _).
    apply (slot_unusable_frame num w1 w2 b Hr Hf) in Hb.
    simpl. rewrite (bind_run _ _ _ _ _ Hb).
    destruct b; [done|]. apply ret_Ok in H as [_ ->]. eauto.
  - cbn [steps_loop] in H. apply bind_Ok in H as (b & w0 & Hb & H).
    pose proof Hb as Hb'. apply slot_unusable_Ok in Hb' as (-> & _).
    apply (slot_unusable_frame num w1 w2 b Hr Hf) in Hb.
    cbn [probe]. rewrite (bind_run _ _ _ _ _ Hb).
    destruct b; [|apply ret_Ok in H as [_ ->]; eauto].
    apply bind_Ok in H as (s0 & w0 & [-> ->]%get_self_Ok & H).
    apply bind_Ok in H as (num1 & w1a & (Hlen & -> & ->)%randint_Ok & H).
    assert (Hl2 : serversArrayLen (self w2) = serversArrayLen (self w1))
      by (unfold ring_of in Hr; by injection Hr as _ -> _ _).
    rewrite (bind_run _ _ _ _ _ (eq_refl : get_self w2 = Ok (self w2) w2)).
    assert (Hr2 : randint rng (serversArrayLen (self w2)) w2 =
              Ok (rng (drawn w1) `mod` serversArrayLen (self w1))
                 (mkWorld (self w2) (S (drawn w1)) (searches w2))).
    { rewrite randint_run by (by rewrite Hl2). by rewrite Hl2, Hd. }
    rewrite (bind_run _ _ _ _ _ Hr2).
    rewrite (bind_run _ _ _ _ _ (history_append_run o _
               (mkWorld (self w2) (S (drawn w1)) (searches w2)) h Hh)).
    eapply (IH _ _ _ _ _ o _ _ H); simpl; try done.
    apply DictFacts.get_set_eq.
Qed.

Lemma servers_add_run k d w l :
  Dict.get k (servers (self w)) = Some l →
  servers_add k d w =
  Ok tt (upd (λ s, set_servers (Dict.set k (l + d) (servers s)) s) w).
Proof.
  intros Hl. unfold servers_add.
  by rewrite (bind_run _ _ _ _ _ (lookup_in_run servers k w l Hl)).
Qed.

Lemma contains_add_run k o w c :
  Dict.get k (serversContains (self w)) = Some c →
  contains_add k o w =
  Ok tt (upd (λ s, set_serversContains
                     (Dict.set k (c ∪ {[o]}) (serversContains s)) s) w).
Proof.
  intros Hc. unfold contains_add.
  by rewrite (bind_run _ _ _ _ _ (lookup_in_run serversContains k w c Hc)).
Qed.

Lemma mark_if_full_run k w l :
  Dict.get k (servers (self w)) = Some l →
  ∃ w1, mark_if_full k w = Ok tt w1 ∧ drawn w1 = drawn w ∧
        serversContains (self w1) = serversContains (self w) ∧
        totalObjectsAndPastCount (self w1) = totalObjectsAndPastCount (self w) ∧
        objectsHistory (self w1) = objectsHistory (self w).
Proof.
  intros Hl. unfold mark_if_full.
  rewrite (bind_run _ _ _ _ _ (lookup_in_run servers k w l Hl)).
  rewrite (bind_run _ _ _ _ _ (eq_refl : get_self w = Ok (self w) w)).
  case_decide; eexists; (split; [reflexivity|done]).
Qed.

(** X9.  [assignObjectTotalSteps] predicts [addOneObject].  In a world of
    a run, when [assignObjectTotalSteps] returns [c], it has changed
    nothing in the object; and [addOneObject], run from the same world on
    the same random stream with the same fuel, completes, consumes the same
    draws, and records a probe history of length [c] for the new object. *)
Theorem X9_total_steps_predict_add (w : world) (Hr : reachable w)
    (rng : nat → Z) (fuel : nat) (c : Z) (w' : world)
    (H : assignObjectTotalSteps rng fuel w = Ok c w') :
  self w' = self w ∧
  ∃ w'' h, addOneObject rng fuel w = Ok tt w'' ∧ drawn w'' = drawn w' ∧
    Dict.get (totalObjectsAndPastCount (self w)) (objectsHistory (self w''))
      = Some h ∧
    Z.of_nat (length h) = c.
Proof.
  destruct (reachable_servers_ok w Hr) as [K1 K2 K3 _ _ _ _].
  unfold assignObjectTotalSteps in H.
  apply bind_Ok in H as (s0 & w0 & [-> ->]%get_self_Ok & H).
  apply bind_Ok in H as (num & w1 & (Hlen & -> & ->)%randint_Ok & H).
  set (num := rng (drawn w) `mod` serversArrayLen (self w)) in *.
  set (o := totalObjectsAndPastCount (self w)).
  set (w2 := mkWorld (set_objectsHistory
                        (Dict.set o [num] (objectsHistory (self w))) (self w))
               (S (drawn w)) (searches w)).
  pose proof H as Hsteps.
  apply steps_loop_Ok in Hsteps
    as (n & ps & num' & Hd & _ & Hself & -> & _).
  simpl in Hd, Hself. split; [done|].
  destruct (probe_follows rng fuel num 1 _ _ _ o w2 [num] H)
    as (num2 & w2' & Hp & Hd2); try done.
  { simpl. apply DictFacts.get_set_eq. }
  pose proof Hp as Hp'.
  apply (probe_Ok rng fuel o num w2 [num]) in Hp'
    as (n2 & ps2 & Hdn & _ & Hself2 & _ & _ & (k & Hk & Hk1 & Hf));
    [|simpl; apply DictFacts.get_set_eq].
  simpl in Hdn, Hk, Hf.
  assert (n2 = n) by lia. subst n2.
  destruct (get_is_Some_keys (servers (self w)) k) as [l Hl].
  { rewrite K1, <- K3. by apply (get_Some_in_keys _ _ false). }
  destruct (get_is_Some_keys (serversContains (self w)) k) as [cs Hcs].
  { rewrite K2, <- K3. by apply (get_Some_in_keys _ _ false). }
  unfold addOneObject.
  rewrite (bind_run _ _ _ _ _ (eq_refl : get_self w = Ok (self w) w)).
  rewrite (bind_run _ _ _ _ _ (randint_run rng _ w Hlen)).
  unfold mbind at 1, M_bind at 1, get_self at 1.
  unfold mbind at 1, M_bind at 1, objectsHistory_set at 1, modify at 1.
  unfold mbind at 1, M_bind at 1, get_self at 1.
  cbn [self upd totalObjectsAndPastCount set_objectsHistory].
  fold o. fold num. fold w2.
  rewrite (bind_run _ _ _ _ _ Hp).
  rewrite (bind_run _ _ _ _ _ (serversArray_at_run num2 w2' k
             ltac:(by rewrite Hself2))).
  rewrite (bind_run _ _ _ _ _ (servers_add_run k 1 w2' l
             ltac:(by rewrite Hself2))).
  match goal with |- context [@mbind M _ _ _ _ (mark_if_full k) ?wx] =>
    destruct (mark_if_full_run k wx (l + 1)) as (w3 & Hm & Hd3 & Hc3 & Ht3 & Hh3);
      [simpl; apply DictFacts.get_set_eq|]
  end.
  simpl in Hd3, Hc3, Ht3, Hh3.
  rewrite (bind_run _ _ _ _ _ Hm).
  rewrite (bind_run _ _ _ _ _ (eq_refl : get_self w3 = Ok (self w3) w3)).
  rewrite (bind_run _ _ _ _ _ (contains_add_run k _ w3 cs
             ltac:(by rewrite Hc3, Hself2))).
  eexists _, _. split; [reflexivity|]. simpl.
  split; [congruence|]. rewrite Hh3, Hself2. simpl.
  split; [apply DictFacts.get_set_eq|].
  cbn [length app]. rewrite probes_length. lia.
Qed.

Lemma X9_total_steps_predict_add_witness :
  self (after (assignObjectTotalSteps trace_rng 5) trace_w4) = self trace_w4 ∧
  ∃ w'' h, addOneObject trace_rng 5 trace_w4 = Ok tt w'' ∧
    drawn w'' = drawn (after (assignObjectTotalSteps trace_rng 5) trace_w4) ∧
    Dict.get (totalObjectsAndPastCount (self trace_w4))
      (objectsHistory (self w'')) = Some h ∧
    Z.of_nat (length h) = 2.
Proof.
  assert (Hr : reachable trace_w4).
  { eapply reach_add; [|exact trace_w4_added].
    eapply reach_remove; [|exact trace_w3_removed].
    eapply reach_add; [|exact trace_w2_added].
    eapply reach_add; [|exact trace_w1_added].
    eapply reach_construct; [|exact trace_w0_built]. done. }
  apply (X9_total_steps_predict_add trace_w4 Hr trace_rng 5 2).
  vm_compute. reflexivity.
Defined.

(** * The simple simulation: properties *)
Module SimpleFacts.
Import Simple.
#[local] Existing Instances Simple.M_ret Simple.M_bind.

Lemma simple_bind_Ok {A B} (m : M A) (k : A → M B) w b w' :
  (m ≫= k) w = Ok b w' → ∃ a w1, m w = Ok a w1 ∧ k a w1 = Ok b w'.
Proof. unfold mbind, M_bind. destruct (m w) as [a w1| |]; [eauto|done|done]. Qed.

Lemma simple_ret_Ok {A} (a a' : A) w w' :
  (mret a : M A) w = Ok a' w' → a' = a ∧ w' = w.
Proof. unfold mret, M_ret. by intros [= <- <-]. Qed.

Lemma simple_get_self_Ok w s w' : get_self w = Ok s w' → s = self w ∧ w' = w.
Proof. unfold get_self. by intros [= <- <-]. Qed.

Lemma simple_modify_Ok f w u w' :
  modify f w = Ok u w' → w' = mkWorld (f (self w)) (drawn w).
Proof. unfold modify. by intros [= <-]. Qed.

Lemma simple_lookup_in_Ok {V} (field : t → Dict.t V) k w v w' :
  lookup_in field k w = Ok v w' → Dict.get k (field (self w)) = Some v ∧ w' = w.
Proof.
  unfold lookup_in, mbind, M_bind, get_self, of_option.
  destruct (Dict.get k (field (self w))); [|done].
  unfold mret, M_ret. by intros [= <- <-].
Qed.

Lemma simple_randint_Ok rng n w k w' :
  randint rng n w = Ok k w' →
  0 < n ∧ k = rng (drawn w) `mod` n ∧ w' = mkWorld (self w) (S (drawn w)).
Proof. unfold randint. case_decide; [by intros [= <- <-] | done]. Qed.


Lemma server_draws_S rng sc d n :
  server_draws rng sc d (S n) = rng d `mod` sc :: server_draws rng sc (S d) n.
Proof.
  unfold server_draws. simpl. rewrite Nat.add_0_r. f_equal.
  rewrite <- fmap_S_seq, <- list_fmap_compose. apply list_fmap_ext.
  intros _ j _. simpl. do 2 f_equal. lia.
Qed.

(** The loop of [start] and of [serversToTry] draws until a server is not
    flagged full: every server tried before the last is flagged, the last
    is not, and nothing but the stream position changes. *)
Lemma find_open_Ok rng fuel : ∀ num w num' w',
  find_open rng fuel num w = Ok num' w' →
  ∃ n ps,
    self w' = self w ∧ drawn w' = (drawn w + n)%nat ∧
    num :: server_draws rng (serversCount (self w)) (drawn w) n = ps ++ [num'] ∧
    Forall (λ p, Dict.get p (fullFlag (self w)) = Some true) ps ∧
    Dict.get num' (fullFlag (self w)) = Some false.
Proof.
  induction fuel as [|fuel IH]; intros num w num' w' H.
  - simpl in H. apply simple_bind_Ok in H as (f & w1 & [Hf ->]%simple_lookup_in_Ok & H).
    destruct f; [done|]. apply simple_ret_Ok in H as [-> ->].
    exists O, []. rewrite Nat.add_0_r. repeat split; [constructor|done].
  - cbn [find_open] in H.
    apply simple_bind_Ok in H as (f & w1 & [Hf ->]%simple_lookup_in_Ok & H).
    destruct f.
    + apply simple_bind_Ok in H as (s0 & w0 & [-> ->]%simple_get_self_Ok & H).
      apply simple_bind_Ok in H
        as (num1 & w1 & (Hlen & -> & ->)%simple_randint_Ok & H).
      apply IH in H as (n & ps & Hself & Hd & Hps & Hall & Hlast).
      simpl in *. exists (S n), (num :: ps). rewrite server_draws_S.
      split; [done|]. split; [lia|]. split; [simpl; by rewrite Hps|].
      split; [|done]. by constructor.
    + apply simple_ret_Ok in H as [-> ->].
      exists O, []. rewrite Nat.add_0_r. repeat split; [constructor|done].
Qed.


Lemma simple_get_tail {V} (d : Dict.t V) k0 (v0 : V) k l :
  k0 ∉ Dict.keys d → Dict.get k d = Some l →
  Dict.get k ((k0, v0) :: d) = Some l.
Proof.
  intros Hn Hk. simpl. case_decide; [|done].
  subst. destruct Hn. by apply (get_Some_in_keys d k l).
Qed.

Lemma simple_sum_nonneg (d : Dict.t Z) :
  NoDup (Dict.keys d) → (∀ k l, Dict.get k d = Some l → 0 ≤ l) →
  0 ≤ foldr Z.add 0 (Dict.values d).
Proof.
  induction d as [|[k0 v0] d IH]; [done|].
  unfold Dict.keys, Dict.values in *. csimpl.
  intros [Hn Hd]%NoDup_cons Hpos.
  assert (0 ≤ v0) by (apply (Hpos k0 v0); simpl; by rewrite decide_True).
  assert (0 ≤ foldr Z.add 0 d.*2); [|lia].
  apply IH; [done|]. intros k l Hk. apply (Hpos k l).
  by apply simple_get_tail.
Qed.

Lemma simple_sum_ge (d : Dict.t Z) k l :
  NoDup (Dict.keys d) → (∀ k l, Dict.get k d = Some l → 0 ≤ l) →
  Dict.get k d = Some l → l ≤ foldr Z.add 0 (Dict.values d).
Proof.
  induction d as [|[k0 v0] d IH]; [done|].
  intros Hnd Hpos Hk.
  assert (Hnd' := Hnd). unfold Dict.keys in Hnd'. csimpl in Hnd'.
  apply NoDup_cons in Hnd' as [Hn Hd].
  assert (Htail : ∀ k l, Dict.get k d = Some l → 0 ≤ l).
  { intros k1 l1 H1. apply (Hpos k1 l1). by apply simple_get_tail. }
  assert (H0 : 0 ≤ v0) by (apply (Hpos k0 v0); simpl; by rewrite decide_True).
  pose proof (simple_sum_nonneg d Hd Htail) as Hs.
  unfold Dict.values in *. csimpl. simpl in Hk. case_decide.
  - injection Hk as ->. lia.
  - pose proof (IH Hd Htail Hk). lia.
Qed.

(** One object placed. *)
Lemma place_placing rng fuel n num w w' :
  placing (self w) n → 0 ≤ n → 1 ≤ loadCap (self w) →
  place rng fuel (n + 1) num w = Ok tt w' →
  placing (self w') (n + 1) ∧
  serversCount (self w') = serversCount (self w) ∧
  objectsCount (self w') = objectsCount (self w) ∧
  loadCap (self w') = loadCap (self w).
Proof.
  intros [K1 K2 Hsum Hlf Hff] Hn Hcap H. unfold place in H.
  apply simple_bind_Ok in H as (k & w1 & Hopen & H).
  apply find_open_Ok in Hopen as (j & ps & Hself & _ & _ & _ & Hflag).
  apply simple_bind_Ok in H as (l & w0 & [Hl ->]%simple_lookup_in_Ok & H).
  apply simple_bind_Ok in H as ([] & w0 & ->%simple_modify_Ok & H).
  apply simple_bind_Ok in H as (l1 & w0 & [Hl1 ->]%simple_lookup_in_Ok & H).
  apply simple_bind_Ok in H as (s0 & w0 & [-> ->]%simple_get_self_Ok & H).
  simpl in Hl1, H. rewrite DictFacts.get_set_eq in Hl1. injection Hl1 as <-.
  rewrite Hself in *. clear Hself.
  destruct (Hlf k l Hl) as [[Hl0 Hlc] Hfk].
  assert (Hlt : l < loadCap (self w)).
  { rewrite Hflag in Hfk. injection Hfk as Hfk. symmetry in Hfk.
    apply bool_decide_eq_false in Hfk. lia. }
  assert (Hsum' : foldr Z.add 0 (Dict.values (Dict.set k (l + 1)
                    (servers (self w)))) = n + 1).
  { rewrite (DictFacts.sum_set _ _ _ _ Hl). unfold sum_loads in Hsum. lia. }
  assert (Hloads : ∀ k' l', Dict.get k' (Dict.set k (l + 1) (servers (self w)))
                     = Some l' → 0 ≤ l' ≤ loadCap (self w)).
  { intros k' l'. rewrite DictFacts.get_set.
    destruct (decide (k = k')) as [->|Hne].
    - intros [= <-]. lia.
    - intros Hk'. by destruct (Hlf k' l' Hk'). }
  case_decide as Hfull.
  - apply simple_bind_Ok in H as ([] & w0 & ->%simple_modify_Ok & H).
    apply simple_modify_Ok in H as ->. simpl. split; [|done]. split; simpl.
    + by rewrite (DictFacts.keys_set_Some _ _ _ _ Hl).
    + by rewrite (DictFacts.keys_set_Some _ _ _ _ Hflag).
    + done.
    + intros k' l' Hk'. split; [by apply (Hloads k' l')|].
      revert Hk'. rewrite !DictFacts.get_set.
      destruct (decide (k = k')) as [->|Hne].
      * intros [= <-]. by rewrite bool_decide_eq_true_2.
      * intros Hk'. by destruct (Hlf k' l' Hk').
    + assert (Hle : loadCap (self w) ≤ n + 1).
      { rewrite <- Hfull, <- Hsum'. apply (simple_sum_ge _ k).
        - by rewrite (DictFacts.keys_set_Some _ _ _ _ Hl), K1; apply range_nodup.
        - intros k' l' Hk'. by apply (Hloads k' l').
        - apply DictFacts.get_set_eq. }
      assert (Hex : ∃ k0, Dict.get k0 (Dict.set k true (fullFlag (self w)))
                          = Some true)
        by (exists k; apply DictFacts.get_set_eq).
      destruct (firstFull (self w)) as [c|]; simpl.
      * destruct Hff as (Hc & Hcc & _). rewrite Z.min_r by lia.
        split; [lia|]. split; [done|done].
      * split; [lia|]. split; [done|done].
  - apply simple_ret_Ok in H as [_ ->]. simpl. split; [|done]. split; simpl.
    + by rewrite (DictFacts.keys_set_Some _ _ _ _ Hl).
    + done.
    + done.
    + intros k' l' Hk'. split; [by apply (Hloads k' l')|].
      revert Hk'. rewrite DictFacts.get_set.
      destruct (decide (k = k')) as [->|Hne].
      * intros [= <-]. rewrite Hflag. f_equal. symmetry.
        by apply bool_decide_eq_false_2.
      * intros Hk'. by destruct (Hlf k' l' Hk').
    + destruct (firstFull (self w)) as [c|]; [|done].
      destruct Hff as (Hc & Hcc & Hex). split; [lia|done].
Qed.

Lemma place_all_placing rng fuel : ∀ nums n w w',
  placing (self w) n → 0 ≤ n → 1 ≤ loadCap (self w) →
  place_all rng fuel n nums w = Ok tt w' →
  placing (self w') (n + Z.of_nat (length nums)) ∧
  serversCount (self w') = serversCount (self w) ∧
  objectsCount (self w') = objectsCount (self w) ∧
  loadCap (self w') = loadCap (self w).
Proof.
  induction nums as [|num nums IH]; intros n w w' Hp Hn Hcap H.
  - apply simple_ret_Ok in H as [_ ->]. simpl. by rewrite Z.add_0_r.
  - cbn [place_all] in H. apply simple_bind_Ok in H as ([] & w1 & H1 & H).
    apply place_placing in H1 as (Hp1 & Hsc & Hoc & Hlc); [|done..].
    apply IH in H as (Hp2 & Hsc2 & Hoc2 & Hlc2); [|done|lia|by rewrite Hlc].
    replace (n + Z.of_nat (length (num :: nums)))
      with (n + 1 + Z.of_nat (length nums)) by (simpl; lia).
    split; [done|]. split; [congruence|]. split; congruence.
Qed.

Lemma start_placing rng fuel w w' :
  1 ≤ loadCap (self w) → start rng fuel w = Ok tt w' →
  placing (self w') (objectsCount (self w)) ∧
  serversCount (self w') = serversCount (self w) ∧
  objectsCount (self w') = objectsCount (self w) ∧
  loadCap (self w') = loadCap (self w).
Proof.
  intros Hcap H. unfold start in H.
  apply simple_bind_Ok in H as ([] & w0 & ->%simple_modify_Ok & H).
  apply simple_bind_Ok in H as (s0 & w0 & [-> ->]%simple_get_self_Ok & H).
  apply simple_bind_Ok in H as ([] & w0 & ->%simple_modify_Ok & H).
  apply simple_bind_Ok in H as (s0 & w0 & [-> ->]%simple_get_self_Ok & H).
  apply simple_bind_Ok in H as ([] & w0 & ->%simple_modify_Ok & H).
  apply simple_bind_Ok in H as (s0 & w0 & [-> ->]%simple_get_self_Ok & H).
  apply simple_bind_Ok in H as (nums & w1 & Hr & H).
  simpl in Hr.
  assert (Hnums : self w1 = set_fullFlag
                    (Dict.of_keys (range (serversCount (self w))) false)
                    (set_servers (Dict.of_keys (range (serversCount (self w))) 0)
                       (set_firstFull None (self w))) ∧
                  Z.of_nat (length nums) = objectsCount (self w)).
  { unfold randints in Hr. simpl in Hr. case_decide as Hk.
    - injection Hr as <- <-. by rewrite Hk.
    - case_decide as Hpos; [|done]. injection Hr as <- <-.
      rewrite length_fmap, length_seq. split; [done | lia]. }
  destruct Hnums as [Hs1 Hlen].
  apply place_all_placing in H; [| |done|by rewrite Hs1].
  - rewrite Hs1, Z.add_0_l, Hlen in H. exact H.
  - rewrite Hs1. split; simpl.
    + by rewrite DictFacts.keys_of_keys.
    + by rewrite DictFacts.keys_of_keys.
    + unfold sum_loads. simpl. apply sum_of_keys_zero.
    + intros k l. rewrite !DictFacts.get_of_keys. case_decide; [|done].
      intros [= <-]. split; [lia|]. f_equal. symmetry.
      apply bool_decide_eq_false_2. lia.
    + intros k. rewrite DictFacts.get_of_keys. by case_decide.
Qed.


Lemma place_loadCap rng fuel c num w w' :
  place rng fuel c num w = Ok tt w' → loadCap (self w') = loadCap (self w).
Proof.
  intros H. unfold place in H.
  apply simple_bind_Ok in H as (k & w1 & Hopen & H).
  apply find_open_Ok in Hopen as (j & ps & Hself & _).
  apply simple_bind_Ok in H as (l & w0 & [Hl ->]%simple_lookup_in_Ok & H).
  apply simple_bind_Ok in H as ([] & w0 & ->%simple_modify_Ok & H).
  apply simple_bind_Ok in H as (l1 & w0 & [Hl1 ->]%simple_lookup_in_Ok & H).
  apply simple_bind_Ok in H as (s0 & w0 & [-> ->]%simple_get_self_Ok & H).
  destruct (decide _) in H.
  - apply simple_bind_Ok in H as ([] & w0 & ->%simple_modify_Ok & H).
    apply simple_modify_Ok in H as ->. simpl. by rewrite Hself.
  - apply simple_ret_Ok in H as [_ ->]. simpl. by rewrite Hself.
Qed.

Lemma place_all_loadCap rng fuel : ∀ nums c w w',
  place_all rng fuel c nums w = Ok tt w' →
  loadCap (self w') = loadCap (self w).
Proof.
  induction nums as [|num nums IH]; intros c w w' H.
  - by apply simple_ret_Ok in H as [_ ->].
  - cbn [place_all] in H. apply simple_bind_Ok in H as ([] & w1 & H1 & H).
    apply place_loadCap in H1. apply IH in H. congruence.
Qed.

Lemma start_loadCap rng fuel w w' :
  start rng fuel w = Ok tt w' → loadCap (self w') = loadCap (self w).
Proof.
  intros H. unfold start in H.
  apply simple_bind_Ok in H as ([] & w0 & ->%simple_modify_Ok & H).
  apply simple_bind_Ok in H as (s0 & w0 & [-> ->]%simple_get_self_Ok & H).
  apply simple_bind_Ok in H as ([] & w0 & ->%simple_modify_Ok & H).
  apply simple_bind_Ok in H as (s0 & w0 & [-> ->]%simple_get_self_Ok & H).
  apply simple_bind_Ok in H as ([] & w0 & ->%simple_modify_Ok & H).
  apply simple_bind_Ok in H as (s0 & w0 & [-> ->]%simple_get_self_Ok & H).
  apply simple_bind_Ok in H as (nums & w1 & Hr & H).
  apply place_all_loadCap in H. rewrite H.
  unfold randints in Hr. simpl in Hr.
  repeat case_decide; try done; by injection Hr as <- <-.
Qed.

Lemma simple_sum_keys {V} (f : V → Z) (d : Dict.t V) :
  NoDup (Dict.keys d) →
  foldr Z.add 0 (f <$> Dict.values d) =
  foldr Z.add 0 ((λ k, from_option f 0 (Dict.get k d)) <$> Dict.keys d).
Proof.
  induction d as [|[k0 v0] d IH]; [done|].
  intros Hnd. assert (Hnd' := Hnd). unfold Dict.keys in Hnd'. csimpl in Hnd'.
  apply NoDup_cons in Hnd' as [Hn Hd].
  unfold Dict.keys, Dict.values in *. csimpl. rewrite decide_True by done.
  simpl. f_equal. rewrite (IH Hd). f_equal. apply list_fmap_ext.
  intros _ k Hk%list_elem_of_lookup_2. case_decide; [|done].
  subst. by destruct Hn.
Qed.

Lemma simple_sum_le (g h : Z → Z) (ks : list Z) :
  (∀ k, k ∈ ks → g k ≤ h k) →
  foldr Z.add 0 (g <$> ks) ≤ foldr Z.add 0 (h <$> ks).
Proof.
  induction ks as [|k ks IH]; csimpl; [done|]. intros Hle.
  assert (g k ≤ h k) by (apply Hle; by left).
  assert (foldr Z.add 0 (g <$> ks) ≤ foldr Z.add 0 (h <$> ks)); [|lia].
  apply IH. intros k' Hk'. apply Hle. by right.
Qed.

Lemma simple_sum_scale (c : Z) (g : Z → Z) (ks : list Z) :
  foldr Z.add 0 ((λ k, g k * c) <$> ks) = foldr Z.add 0 (g <$> ks) * c.
Proof. induction ks as [|k ks IH]; csimpl; [done|]. rewrite IH. lia. Qed.

(** The servers flagged full hold [loadCap] objects each. *)
Lemma placing_full_count s n :
  placing s n → full_count s * loadCap s ≤ n.
Proof.
  intros [K1 K2 Hsum Hlf _]. rewrite <- Hsum. unfold full_count, sum_loads.
  rewrite (simple_sum_keys _ (fullFlag s))
    by (rewrite K2; apply range_nodup).
  rewrite <- (list_fmap_id (Dict.values (servers s))).
  rewrite (simple_sum_keys id (servers s)) by (rewrite K1; apply range_nodup).
  rewrite K1, K2, <- simple_sum_scale. apply simple_sum_le.
  intros k Hk. rewrite <- K1 in Hk.
  apply get_is_Some_keys in Hk as [l Hl].
  destruct (Hlf k l Hl) as [Hb Hf]. rewrite Hl, Hf. simpl.
  case_bool_decide; simpl; lia.
Qed.

(** No more objects are placed than the servers can hold. *)
Lemma placing_capacity s n :
  placing s n → n ≤ Z.max 0 (serversCount s) * loadCap s.
Proof.
  intros [K1 _ Hsum Hlf _]. rewrite <- Hsum. unfold sum_loads.
  rewrite <- (list_fmap_id (Dict.values (servers s))).
  rewrite (simple_sum_keys id (servers s)) by (rewrite K1; apply range_nodup).
  etrans.
  - apply (simple_sum_le _ (λ _, 1 * loadCap s)).
    intros k [l Hl]%get_is_Some_keys. rewrite Hl. simpl.
    destruct (Hlf k l Hl) as [Hb _]. unfold id. lia.
  - rewrite (simple_sum_scale (loadCap s) (λ _, 1)), K1.
    assert (Hlen : foldr Z.add 0 ((λ _ : Z, 1) <$> range (serversCount s))
                   = Z.max 0 (serversCount s)).
    { unfold range. rewrite <- list_fmap_compose.
      assert (∀ m, foldr Z.add 0 ((λ _, 1) <$> seq 0 m) = Z.of_nat m) as ->.
      { intros m. generalize O. induction m as [|m IH]; intros a; csimpl;
          [done|]. rewrite IH. lia. }
      lia. }
    rewrite Hlen. lia.
Qed.

Lemma try_loop_Ok rng fuel : ∀ num c w r w',
  try_loop rng fuel num c w = Ok r w' →
  ∃ n ps num',
    self w' = self w ∧ drawn w' = (drawn w + n)%nat ∧ r = c + Z.of_nat n ∧
    num :: server_draws rng (serversCount (self w)) (drawn w) n = ps ++ [num'] ∧
    Forall (λ p, Dict.get p (fullFlag (self w)) = Some true) ps ∧
    Dict.get num' (fullFlag (self w)) = Some false.
Proof.
  induction fuel as [|fuel IH]; intros num c w r w' H.
  - simpl in H.
    apply simple_bind_Ok in H as (f & w1 & [Hf ->]%simple_lookup_in_Ok & H).
    destruct f; [done|]. apply simple_ret_Ok in H as [-> ->].
    exists O, [], num. rewrite Nat.add_0_r, Z.add_0_r.
    repeat split; [constructor|done].
  - cbn [try_loop] in H.
    apply simple_bind_Ok in H as (f & w1 & [Hf ->]%simple_lookup_in_Ok & H).
    destruct f.
    + apply simple_bind_Ok in H as (s0 & w0 & [-> ->]%simple_get_self_Ok & H).
      apply simple_bind_Ok in H
        as (num1 & w1 & (Hlen & -> & ->)%simple_randint_Ok & H).
      apply IH in H as (n & ps & num' & Hself & Hd & -> & Hps & Hall & Hlast).
      simpl in *. exists (S n), (num :: ps), num'. rewrite server_draws_S.
      split; [done|]. split; [lia|]. split; [lia|].
      split; [simpl; by rewrite Hps|]. split; [|done]. by constructor.
    + apply simple_ret_Ok in H as [-> ->].
      exists O, [], num. rewrite Nat.add_0_r, Z.add_0_r.
      repeat split; [constructor|done].
Qed.

End SimpleFacts.

(** X11.  [RandomJumpCHSimple.start] with a load cap of at least 1: when it
    completes, the load counters and the full flags are kept for the
    servers [0 .. serversCount - 1]; the loads add up to [objectsCount];
    every load lies between 0 and the cap, and a server is flagged full
    exactly when its load is the cap.  So [start] completes only if the
    servers can hold the objects: [objectsCount ≤ serversCount * loadCap]. *)
Theorem X11_simple_start_loads (rng : nat → Z) (fuel : nat)
    (w w' : Simple.world)
    (Hcap : 1 ≤ Simple.loadCap (Simple.self w))
    (H : Simple.start rng fuel w = Simple.Ok tt w') :
  Dict.keys (Simple.servers (Simple.self w')) =
    range (Simple.serversCount (Simple.self w)) ∧
  Dict.keys (Simple.fullFlag (Simple.self w')) =
    range (Simple.serversCount (Simple.self w)) ∧
  Simple.sum_loads (Simple.self w') = Simple.objectsCount (Simple.self w) ∧
  Simple.objectsCount (Simple.self w) ≤
    Z.max 0 (Simple.serversCount (Simple.self w)) *
    Simple.loadCap (Simple.self w) ∧
  ∀ k l, Dict.get k (Simple.servers (Simple.self w')) = Some l →
    0 ≤ l ≤ Simple.loadCap (Simple.self w) ∧
    Dict.get k (Simple.fullFlag (Simple.self w')) =
      Some (bool_decide (l = Simple.loadCap (Simple.self w))).
Proof.
  destruct (SimpleFacts.start_placing rng fuel w w' Hcap H)
    as (Hp & Hsc & _ & Hlc).
  pose proof (SimpleFacts.placing_capacity _ _ Hp) as Hcapacity.
  destruct Hp as [K1 K2 Hsum Hlf _].
  rewrite <- Hsc, <- Hlc. done.
Qed.

Lemma X11_simple_start_loads_witness :
  Dict.keys (Simple.servers (Simple.self Simple.trace_w0)) = range 2 ∧
  Dict.keys (Simple.fullFlag (Simple.self Simple.trace_w0)) = range 2 ∧
  Simple.sum_loads (Simple.self Simple.trace_w0) = 3 ∧
  3 ≤ Z.max 0 2 * 2 ∧
  ∀ k l, Dict.get k (Simple.servers (Simple.self Simple.trace_w0)) = Some l →
    0 ≤ l ≤ 2 ∧
    Dict.get k (Simple.fullFlag (Simple.self Simple.trace_w0)) =
      Some (bool_decide (l = 2)).
Proof.
  apply (X11_simple_start_loads Simple.trace_rng 3
           (Simple.mkWorld (Simple.mk 2 1 3 0%Q 2 None [] []) 0)
           Simple.trace_w0).
  - simpl. lia.
  - vm_compute. reflexivity.
Defined.

(** X12.  What a completed construction of [RandomJumpCHSimple] with a
    load cap of at least 1 leaves for [objectsTillFirstFull] and
    [pctOfFullBins].  [objectsTillFirstFull] returns [inf] exactly when no
    server is flagged full, and else a count between the cap and the
    number of objects.  The servers flagged full hold [loadCap] objects
    each, so their number times the cap is at most the number of objects;
    with a positive number of servers, [pctOfFullBins] divides that number
    by [serversCount]. *)
Theorem X12_simple_first_full (rng : nat → Z) (fuel : nat)
    (sv dup obj : Z) (eps : Q) (w : Simple.world)
    (H : Simple.construct rng fuel sv dup obj eps = Simple.Built w)
    (Hcap : 1 ≤ Simple.loadCap (Simple.self w)) :
  Simple.objectsTillFirstFull w = Simple.Ok (Simple.firstFull (Simple.self w)) w ∧
  match Simple.firstFull (Simple.self w) with
  | None => ∀ k, Dict.get k (Simple.fullFlag (Simple.self w)) ≠ Some true
  | Some c => Simple.loadCap (Simple.self w) ≤ c ≤ obj ∧
              ∃ k, Dict.get k (Simple.fullFlag (Simple.self w)) = Some true
  end ∧
  Simple.full_count (Simple.self w) * Simple.loadCap (Simple.self w) ≤ obj ∧
  (0 < sv →
   Simple.pctOfFullBins w = Simple.Ok (Simple.full_count (Simple.self w), sv) w).
Proof.
  unfold Simple.construct, Simple.__init__ in H. case_decide as Hsv; [done|].
  match type of H with
  | match Simple.start _ _ ?w0 with _ => _ end = _ =>
      destruct (Simple.start rng fuel w0) as [[] w1| |] eqn:E; [|done|done]
  end.
  injection H as ->.
  pose proof (SimpleFacts.start_loadCap _ _ _ _ E) as Hlc0.
  apply SimpleFacts.start_placing in E as (Hp & Hsc & Hoc & Hlc);
    [|by rewrite <- Hlc0].
  simpl in Hp, Hsc.
  split; [done|]. split; [|split].
  - destruct Hp as [_ _ _ _ Hff].
    destruct (Simple.firstFull (Simple.self w)) as [c|]; [|done].
    destruct Hff as (? & ? & ?). split; [lia|done].
  - by apply SimpleFacts.placing_full_count.
  - intros Hpos. destruct Hp as [_ K2 _ _ _].
    unfold Simple.pctOfFullBins, mbind, Simple.M_bind, Simple.get_self.
    assert (Hlen : length (Simple.fullFlag (Simple.self w)) = Z.to_nat sv).
    { rewrite <- range_length, <- Hsc, <- K2. unfold Dict.keys.
      by rewrite length_fmap. }
    rewrite Hlen, decide_False by lia.
    unfold mret, Simple.M_ret, Simple.full_count. do 2 f_equal. lia.
Qed.

Lemma X12_simple_first_full_witness :
  Simple.objectsTillFirstFull Simple.trace_w0 =
    Simple.Ok (Simple.firstFull (Simple.self Simple.trace_w0)) Simple.trace_w0 ∧
  match Simple.firstFull (Simple.self Simple.trace_w0) with
  | None => ∀ k, Dict.get k (Simple.fullFlag (Simple.self Simple.trace_w0))
                 ≠ Some true
  | Some c => Simple.loadCap (Simple.self Simple.trace_w0) ≤ c ≤ 3 ∧
              ∃ k, Dict.get k (Simple.fullFlag (Simple.self Simple.trace_w0))
                   = Some true
  end ∧
  Simple.full_count (Simple.self Simple.trace_w0) *
    Simple.loadCap (Simple.self Simple.trace_w0) ≤ 3 ∧
  (0 < 2 →
   Simple.pctOfFullBins Simple.trace_w0 =
     Simple.Ok (Simple.full_count (Simple.self Simple.trace_w0), 2)
       Simple.trace_w0).
Proof.
  apply (X12_simple_first_full Simple.trace_rng 3 2 1 3 0%Q Simple.trace_w0).
  - vm_compute. reflexivity.
  - vm_compute. by intros [=].
Defined.

(** X13.  [RandomJumpCHSimple.serversToTry] returns the number of servers
    it drew: the object is unchanged, the stream has advanced by that many
    draws, every server drawn before the last is flagged full and the last
    one is not. *)
Theorem X13_simple_serversToTry (rng : nat → Z) (fuel : nat)
    (w : Simple.world) (c : Z) (w' : Simple.world)
    (H : Simple.serversToTry rng fuel w = Simple.Ok c w') :
  Simple.self w' = Simple.self w ∧
  ∃ n ps num,
    c = Z.of_nat (S n) ∧ Simple.drawn w' = (Simple.drawn w + S n)%nat ∧
    server_draws rng (Simple.serversCount (Simple.self w)) (Simple.drawn w)
      (S n) = ps ++ [num] ∧
    Forall (λ p, Dict.get p (Simple.fullFlag (Simple.self w)) = Some true) ps ∧
    Dict.get num (Simple.fullFlag (Simple.self w)) = Some false.
Proof.
  unfold Simple.serversToTry in H.
  apply SimpleFacts.simple_bind_Ok in H
    as (s0 & w0 & [-> ->]%SimpleFacts.simple_get_self_Ok & H).
  apply SimpleFacts.simple_bind_Ok in H
    as (num0 & w1 & (Hlen & -> & ->)%SimpleFacts.simple_randint_Ok & H).
  apply SimpleFacts.try_loop_Ok in H
    as (n & ps & num & Hself & Hd & -> & Hps & Hall & Hlast).
  simpl in *. split; [done|]. exists n, ps, num.
  rewrite SimpleFacts.server_draws_S.
  split; [lia|]. split; [lia|]. done.
Qed.

Lemma X13_simple_serversToTry_witness :
  ∃ n ps num,
    3 = Z.of_nat (S n) ∧
    Simple.drawn (Simple.mkWorld (Simple.self Simple.trace_w0) 7) =
      (Simple.drawn Simple.trace_w0 + S n)%nat ∧
    server_draws Simple.trace_rng
      (Simple.serversCount (Simple.self Simple.trace_w0))
      (Simple.drawn Simple.trace_w0) (S n) = ps ++ [num] ∧
    Forall (λ p, Dict.get p (Simple.fullFlag (Simple.self Simple.trace_w0))
                 = Some true) ps ∧
    Dict.get num (Simple.fullFlag (Simple.self Simple.trace_w0)) = Some false.
Proof.
  apply (X13_simple_serversToTry Simple.trace_rng 3 Simple.trace_w0 3
           (Simple.mkWorld (Simple.self Simple.trace_w0) 7)).
  vm_compute. reflexivity.
Defined.

(** ** No operation of a run raises *)

(** *** The worlds of a run are sound *)

Lemma wired_frame s s' : frame s' = frame s → wired s → wired s'.
Proof.
  unfold frame. intros Hf [H1 H2 H3 H4].
  assert (Hh : Dict.keys (objectsHistory s') = Dict.keys (objectsHistory s))
    by congruence.
  assert (Hc : Dict.keys (objectsCurrent s') = Dict.keys (objectsCurrent s))
    by congruence.
  assert (Hsc : serversCount s' = serversCount s) by congruence.
  assert (Hr : ring_of s' = ring_of s) by congruence.
  assert (Hi : serversToIdx s' = serversToIdx s)
    by (unfold ring_of in Hr; congruence).
  assert (Hl : serversArrayLen s' = serversArrayLen s)
    by (unfold ring_of in Hr; congruence).
  split.
  - congruence.
  - congruence.
  - intros x k. rewrite (ring_of_array_get _ _ _ Hr), Hi. apply H3.
  - congruence.
Qed.

Lemma move_object_frame key i x w b w' :
  move_object key i x w = Ok b w' → frame (self w') = frame (self w).
Proof.
  intros H. unfold move_object in H. unfold_ops. inv_run.
  all: unfold frame; simpl_state.
  all: repeat match goal with
       | H : Dict.get ?k ?d = Some ?v |- context [Dict.keys (Dict.set ?k _ ?d)] =>
           rewrite (DictFacts.keys_set_Some d k _ v H)
       end; done.
Qed.

Lemma stop_if_filled_frame key w b w' :
  stop_if_filled key w = Ok b w' → frame (self w') = frame (self w).
Proof. intros H. unfold stop_if_filled in H. unfold_ops. by inv_run. Qed.

Lemma fillBinOne_wired rng fuel slot w w' :
  wired (self w) → fillBinOne rng fuel slot w = Ok tt w' → wired (self w').
Proof.
  intros Hw H. apply (fillBinOne_books rng wired) in H; [tauto| | |done].
  - intros key d i x w0 b w1 Hw0 _ _ _ Hm.
    apply (wired_frame (self w0)); [|done]. by eapply move_object_frame.
  - intros key w0 b w1 Hw0 Hs0.
    apply (wired_frame (self w0)); [|done]. by eapply stop_if_filled_frame.
Qed.

Lemma keys_pop_eq {U V} (d1 : Dict.t U) (d2 : Dict.t V) o :
  Dict.keys d1 = Dict.keys d2 →
  Dict.keys (Dict.pop o d1) = Dict.keys (Dict.pop o d2).
Proof.
  unfold Dict.keys. revert d2.
  induction d1 as [|[k1 v1] d1 IH]; intros [|[k2 v2] d2]; csimpl; try done.
  intros [= -> Hk]. case_decide; csimpl; [done|]. f_equal. by apply IH.
Qed.

Lemma removeOneObject_wired rng fuel w w' :
  wired (self w) → removeOneObject rng fuel w = Ok tt w' → wired (self w').
Proof.
  intros [H1 H2 H3 H4] H. unfold removeOneObject in H. unfold_ops.
  apply bind_Ok in H as (s0 & w0 & [-> ->]%get_self_Ok & H).
  apply bind_Ok in H as (o & w0 & (_ & Hs0 & _)%choice_Ok & H).
  inv_run.
  all: rewrite ?Hs0 in *.
  - apply fillBinOne_wired in H; [done|]. simpl_state. rewrite ?Hs0.
    split; simpl_state; try done. by apply keys_pop_eq.
  - simpl_state. rewrite ?Hs0. split; simpl_state; try done.
    by apply keys_pop_eq.
Qed.

Lemma placed_frame s o num k l c hist :
  Dict.get k (servers s) = Some l →
  serversCount (placed o num k l c hist s) = serversCount s ∧
  ring_of (placed o num k l c hist s) = ring_of s ∧
  objectsHistory (placed o num k l c hist s) =
    Dict.set o hist (objectsHistory s) ∧
  objectsCurrent (placed o num k l c hist s) =
    Dict.set o num (objectsCurrent s).
Proof.
  intros Hl. unfold placed. simpl_state. by case_decide.
Qed.

Lemma addOneObject_wired rng fuel w w' :
  well_formed (self w) → wired (self w) →
  addOneObject rng fuel w = Ok tt w' → wired (self w').
Proof.
  intros [_ Hobj] [H1 H2 H3 H4] H. apply addOneObject_Ok in H. cbv zeta in H.
  destruct H as (n & ps & num & k & l & c & _ & _ & _ & _ & _ & Hl & _ & _ & _
                 & ->).
  destruct (placed_frame (self w) (totalObjectsAndPastCount (self w)) num k l c
              (probes rng w (S n)) Hl) as (Hsc & Hr & Hh & Hc).
  assert (Hnew : Dict.get (totalObjectsAndPastCount (self w))
                   (objectsCurrent (self w)) = None).
  { apply DictFacts.get_None_keys. intros Hin.
    apply (keys_fresh _ Hobj) in Hin. lia. }
  assert (Hnewh : Dict.get (totalObjectsAndPastCount (self w))
                    (objectsHistory (self w)) = None).
  { apply DictFacts.get_None_keys. rewrite H1.
    by apply DictFacts.get_None_keys. }
  assert (Hi : serversToIdx (placed (totalObjectsAndPastCount (self w)) num k
                 l c (probes rng w (S n)) (self w)) = serversToIdx (self w))
    by (unfold ring_of in Hr; congruence).
  assert (Hlen : serversArrayLen (placed (totalObjectsAndPastCount (self w))
                   num k l c (probes rng w (S n)) (self w))
                 = serversArrayLen (self w))
    by (unfold ring_of in Hr; congruence).
  assert (Harr : serversArray (placed (totalObjectsAndPastCount (self w))
                   num k l c (probes rng w (S n)) (self w))
                 = serversArray (self w))
    by (unfold ring_of in Hr; congruence).
  split; simpl_state.
  - rewrite Hh, Hc, (DictFacts.keys_set_None _ _ _ Hnew),
      (DictFacts.keys_set_None _ _ _ Hnewh). by rewrite H1.
  - by rewrite Hi, Hsc.
  - intros x k0. rewrite Hi, Harr, Hlen. apply H3.
  - by rewrite Hlen.
Qed.

Lemma start_place_all_frame rng fuel : ∀ objs w w',
  (∀ i, i ∈ objs → i ∈ Dict.keys (objectsHistory (self w))) →
  start_place_all rng fuel objs w = Ok tt w' →
  serversCount (self w') = serversCount (self w) ∧
  Dict.keys (objectsHistory (self w')) = Dict.keys (objectsHistory (self w)).
Proof.
  induction objs as [|i objs IH]; intros w w' Hin H.
  - by apply ret_Ok in H as [_ ->].
  - cbn [start_place_all] in H. apply bind_Ok in H as ([] & w1 & Hp & H).
    destruct (get_is_Some_keys (objectsHistory (self w)) i) as [h Hh];
      [apply Hin; by left|].
    apply (start_place_Ok rng fuel i w w1 h Hh) in Hp
      as (n & ps & num & k & l & c & _ & _ & _ & _ & _ & Hl & _ & _ & _ & Hs1).
    destruct (placed_frame (self w) i num k l c (h ++ probes rng w (S n)) Hl)
      as (Hsc & _ & Hhist & _).
    assert (Hk1 : Dict.keys (objectsHistory (self w1)) =
                  Dict.keys (objectsHistory (self w))).
    { rewrite Hs1, Hhist. by apply DictFacts.keys_set_Some with h. }
    apply IH in H as [Hsc2 Hk2].
    + split; [rewrite Hsc2, Hs1; exact Hsc | congruence].
    + intros j Hj. rewrite Hk1. apply Hin. by right.
Qed.

Lemma array_get_written s x k :
  array_get s x = Some k → k ≠ -1 → ∃ x', serversArray s !! x' = Some k.
Proof.
  unfold array_get, array_read. intros H Hk.
  repeat case_decide; try done; injection H as H;
    match type of H with
    | default _ (?m !! ?i) = _ =>
        destruct (m !! i) as [v|] eqn:E; simpl in H; [|congruence];
        exists i; congruence
    end.
Qed.

Lemma start_wired rng fuel w w' :
  objectsCount (self w) ≤ totalObjectsAndPastCount (self w) →
  start rng fuel w = Ok tt w' → wired (self w').
Proof.
  intros Hle H.
  destruct (start_Ok rng fuel w w' Hle H) as (_ & Hcur & _).
  rewrite start_eq in H.
  apply bind_Ok in H as ([] & w1 & E1 & E2).
  pose proof (start_ring rng fuel w) as K. rewrite E1 in K. simpl in K.
  destruct K as (Ho & _ & (Hlen & _ & _ & _)).
  assert (Hsc1 : serversCount (self w1) = serversCount (self w))
    by (by apply (f_equal serversCount) in Ho).
  assert (Hoc1 : objectsCount (self w1) = objectsCount (self w))
    by (by apply (f_equal objectsCount) in Ho).
  assert (Hc : ring_census (self w1) (range (serversCount (self w)))
                 (length (range (duplicatesCount (self w))))).
  { apply (assign_servers_Ok rng fuel (range (serversCount (self w))) []
             (upd start_ring_blank w) w1).
    - done.
    - intros x v Hx. simpl in Hx. by rewrite lookup_empty in Hx.
    - split; [done|]. split; [by intros k d ?|].
      intros x v Hx. simpl in Hx. by rewrite lookup_empty in Hx.
    - apply range_nodup.
    - intros i Hi%range_elem. lia.
    - simpl in E1. by rewrite DictFacts.keys_of_keys in E1. }
  pose proof (start_place_all_ring _ _ _ _ _ E2) as Hr. simpl in Hr.
  apply start_place_all_frame in E2 as [Hsc2 Hk2].
  2: { intros i Hi. simpl. by rewrite DictFacts.keys_of_keys. }
  simpl in Hsc2, Hk2. rewrite DictFacts.keys_of_keys in Hk2.
  apply (ring_census_ring _ (self w') _ _ Hr) in Hc.
  destruct Hc as (Hkeys & _ & Hslots).
  assert (Hl' : serversArrayLen (self w') = 2 ^ 20).
  { unfold ring_of in Hr. simpl in Hr. injection Hr as _ Hl2 _ _.
    by rewrite Hl2. }
  split.
  - rewrite Hk2, Hcur. by rewrite Hoc1.
  - rewrite Hkeys. congruence.
  - intros x k Hx Hk. destruct (array_get_written _ _ _ Hx Hk) as [x' Hx'].
    destruct (Hslots x' k Hx') as (d & Hd & _).
    by apply (get_Some_in_keys _ _ d).
  - rewrite Hl'. lia.
Qed.

Lemma reachable_sound w : reachable w → sound (self w).
Proof.
  intros Hr. split; [by apply reachable_coherent|].
  split; [by apply reachable_servers_ok|].
  induction Hr as [rng fuel sv dup obj eps w Hobj Hc
                  |rng fuel w w' Hr IH Hadd
                  |rng fuel w w' Hr IH Hrem].
  - unfold construct, __init__ in Hc. case_decide; [done|].
    match type of Hc with
    | match start _ _ ?w0 with _ => _ end = _ =>
        destruct (start rng fuel w0) as [[] w1| |] eqn:E; [|done|done]
    end.
    injection Hc as <-. apply start_wired in E; [done|]. simpl. lia.
  - apply reachable_coherent in Hr as [Hwf _].
    by apply (addOneObject_wired rng fuel w).
  - by apply (removeOneObject_wired rng fuel w).
Qed.

(** *** What a sound world offers to the operations *)

Lemma sound_server s k :
  sound s → k ∈ Dict.keys (serversToIdx s) →
  ∃ l c f d, Dict.get k (servers s) = Some l ∧
             Dict.get k (serversContains s) = Some c ∧
             Dict.get k (fullFlag s) = Some f ∧
             Dict.get k (serversToIdx s) = Some d.
Proof.
  intros (_ & [K1 K2 K3 _ _ _ _] & [_ Hi _ _]) Hk.
  destruct (get_is_Some_keys (servers s) k) as [l Hl]; [congruence|].
  destruct (get_is_Some_keys (serversContains s) k) as [c Hc]; [congruence|].
  destruct (get_is_Some_keys (fullFlag s) k) as [f Hf]; [congruence|].
  destruct (get_is_Some_keys (serversToIdx s) k) as [d Hd]; [done|].
  eauto 10.
Qed.



(** *** The steps run *)











(** *** [fillBinOne] does not raise *)

Section fill_safe.
Variable rng : nat → Z.
Variable rec : Z → M unit.
Hypothesis rec_safe : ∀ slot w,
  sound (self w) → (∃ k, array_get (self w) slot = Some k ∧ k ≠ -1) →
  post True False
    (λ _ w', sound (self w') ∧ frame (self w') = frame (self w))
    (rec slot w).




End fill_safe.


(** *** [removeOneObject] does not raise *)



(** *** [addOneObject] does not raise *)

Lemma sound_flags s :
  sound s →
  ∀ x k, array_get s x = Some k → k ≠ -1 →
         ∃ f, Dict.get k (fullFlag s) = Some f.
Proof.
  intros Hs x k Hx Hk.
  assert (Hkin : k ∈ Dict.keys (serversToIdx s))
    by (destruct Hs as (_ & _ & [_ _ Ho _]); by apply (Ho x)).
  destruct (sound_server _ k Hs Hkin) as (l & c & f & _ & _ & _ & Hf & _).
  eauto.
Qed.

Lemma slot_unusable_run num w :
  (∀ x k, array_get (self w) x = Some k → k ≠ -1 →
          ∃ f, Dict.get k (fullFlag (self w)) = Some f) →
  0 ≤ num < serversArrayLen (self w) →
  ∃ b, slot_unusable num w = Ok b w.
Proof.
  intros Hflags Hnum. unfold slot_unusable.
  pose proof (array_get_in_range (self w) num Hnum) as Hget.
  rewrite (bind_run _ _ _ _ _ (serversArray_at_run num w _ Hget)).
  case_decide as Hv; [eauto|].
  rewrite (bind_run _ _ _ _ _ (serversArray_at_run num w _ Hget)).
  destruct (Hflags num _ Hget Hv) as [f Hf].
  rewrite (lookup_in_run fullFlag _ w f Hf). eauto.
Qed.

Lemma probe_safe rng fuel : ∀ o num w h,
  (∀ x k, array_get (self w) x = Some k → k ≠ -1 →
          ∃ f, Dict.get k (fullFlag (self w)) = Some f) →
  0 ≤ num < serversArrayLen (self w) →
  Dict.get o (objectsHistory (self w)) = Some h →
  post True False (λ _ _, True) (probe rng fuel o num w).
Proof.
  induction fuel as [|fuel IH]; intros o num w h Hflags Hnum Hh.
  - simpl. destruct (slot_unusable_run num w Hflags Hnum) as [b Hb].
    rewrite (bind_run _ _ _ _ _ Hb). by destruct b.
  - cbn [probe]. destruct (slot_unusable_run num w Hflags Hnum) as [b Hb].
    rewrite (bind_run _ _ _ _ _ Hb). destruct b; [|done].
    rewrite (bind_run _ _ _ _ _ (eq_refl : get_self w = Ok (self w) w)).
    assert (Hlen : 0 < serversArrayLen (self w)) by lia.
    rewrite (bind_run _ _ _ _ _ (randint_run rng _ w Hlen)).
    erewrite bind_run; [|by apply (history_append_run o _ _ h)].
    eapply IH.
    + exact Hflags.
    + simpl. by apply Z.mod_pos_bound.
    + simpl. apply DictFacts.get_set_eq.
Qed.

Lemma addOneObject_safe rng fuel w :
  sound (self w) →
  post True False (λ _ _, True) (addOneObject rng fuel w).
Proof.
  intros Hs.
  assert (Hlen : 0 < serversArrayLen (self w))
    by (destruct Hs as (_ & _ & Hw); apply (array_nonempty _ Hw)).
  unfold addOneObject.
  rewrite (bind_run _ _ _ _ _ (eq_refl : get_self w = Ok (self w) w)).
  rewrite (bind_run _ _ _ _ _ (randint_run rng _ w Hlen)).
  erewrite bind_run; [|reflexivity].
  erewrite bind_run; [|reflexivity].
  erewrite bind_run; [|reflexivity].
  simpl_state.
  set (o := totalObjectsAndPastCount (self w)).
  set (num := rng (drawn w) `mod` serversArrayLen (self w)).
  match goal with |- context [@mbind M _ _ _ _ (probe rng fuel o num) ?wx] =>
    set (w2 := wx) end.
  assert (Hh2 : Dict.get o (objectsHistory (self w2)) = Some [num])
    by (subst w2; simpl; apply DictFacts.get_set_eq).
  assert (K : post True False (λ _ _, True) (probe rng fuel o num w2)).
  { apply (probe_safe rng fuel o num w2 [num]); [| |done].
    - subst w2. simpl_state. exact (sound_flags _ Hs).
    - subst w2. simpl. by apply Z.mod_pos_bound. }
  destruct (probe rng fuel o num w2) as [num' w2'| |] eqn:Hp;
    simpl in K; [|done|by rewrite (bind_oof _ _ _ Hp)].
  rewrite (bind_run _ _ _ _ _ Hp).
  apply (probe_Ok rng fuel o num w2 [num]) in Hp
    as (n2 & ps2 & _ & _ & Hself2 & _ & _ & (k & Hk & Hk1 & Hf)); [|done].
  subst w2. simpl in Hk, Hf, Hself2.
  assert (Hkin : k ∈ Dict.keys (serversToIdx (self w)))
    by (destruct Hs as (_ & _ & [_ _ Ho _]); by apply (Ho num')).
  destruct (sound_server _ k Hs Hkin) as (l & cs & f & _ & Hl & Hcs & _ & _).
  rewrite (bind_run _ _ _ _ _ (serversArray_at_run num' w2' k
             ltac:(by rewrite Hself2))).
  rewrite (bind_run _ _ _ _ _ (servers_add_run k 1 w2' l
             ltac:(by rewrite Hself2))).
  match goal with |- context [@mbind M _ _ _ _ (mark_if_full k) ?wx] =>
    destruct (mark_if_full_run k wx (l + 1)) as (w3 & Hm & Hd3 & Hc3 & Ht3 & Hh3);
      [simpl; apply DictFacts.get_set_eq|]
  end.
  simpl in Hc3.
  rewrite (bind_run _ _ _ _ _ Hm).
  rewrite (bind_run _ _ _ _ _ (eq_refl : get_self w3 = Ok (self w3) w3)).
  rewrite (bind_run _ _ _ _ _ (contains_add_run k _ w3 cs
             ltac:(by rewrite Hc3, Hself2))).
  done.
Qed.



(** X15.  In a run, [addOneObject] raises nothing, on whatever random
    stream: it completes, or it goes on probing. *)
Theorem X15_add_never_raises (w : world) (Hr : reachable w)
    (rng : nat → Z) (fuel : nat) :
  ∀ e w0, addOneObject rng fuel w ≠ Raise e w0.
Proof.
  intros e w0 E.
  pose proof (addOneObject_safe rng fuel w (reachable_sound w Hr)) as K.
  by rewrite E in K.
Qed.

Lemma X15_add_never_raises_witness :
  addOneObject trace_rng 5 trace_w5 ≠ Raise KeyError trace_w5.
Proof.
  exact (X15_add_never_raises trace_w5 trace_w5_reachable trace_rng 5 KeyError
           trace_w5).
Defined.

(** * The simple simulation: no exception, and no end without room *)
Module SimpleRuns.
Import Simple.
#[local] Existing Instances Simple.M_ret Simple.M_bind.

Lemma simple_bind_run {A B} (m : M A) (k : A → M B) w a w1 :
  m w = Ok a w1 → (m ≫= k) w = k a w1.
Proof. unfold mbind, M_bind. by intros ->. Qed.

Lemma simple_bind_oof {A B} (m : M A) (k : A → M B) w :
  m w = OutOfFuel → (m ≫= k) w = OutOfFuel.
Proof. unfold mbind, M_bind. by intros ->. Qed.

Lemma simple_lookup_in_run {V} (field : t → Dict.t V) k w v :
  Dict.get k (field (self w)) = Some v → lookup_in field k w = Ok v w.
Proof. unfold lookup_in, mbind, M_bind, get_self. by intros ->. Qed.

Lemma simple_randint_run rng n w :
  0 < n →
  randint rng n w = Ok (rng (drawn w) `mod` n) (mkWorld (self w) (S (drawn w))).
Proof. intros. unfold randint. by rewrite decide_True. Qed.

Lemma find_open_safe rng fuel : ∀ num w,
  Dict.keys (fullFlag (self w)) = range (serversCount (self w)) →
  0 ≤ num < serversCount (self w) →
  simple_post (λ _ _, True) (find_open rng fuel num w).
Proof.
  induction fuel as [|fuel IH]; intros num w Hk Hnum.
  - simpl. destruct (get_is_Some_keys (fullFlag (self w)) num) as [f Hf].
    { rewrite Hk. apply range_elem. lia. }
    rewrite (simple_bind_run _ _ _ _ _ (simple_lookup_in_run fullFlag num w f Hf)).
    by destruct f.
  - cbn [find_open].
    destruct (get_is_Some_keys (fullFlag (self w)) num) as [f Hf].
    { rewrite Hk. apply range_elem. lia. }
    rewrite (simple_bind_run _ _ _ _ _ (simple_lookup_in_run fullFlag num w f Hf)).
    destruct f; [|done].
    rewrite (simple_bind_run _ _ _ _ _ (eq_refl : get_self w = Ok (self w) w)).
    assert (Hpos : 0 < serversCount (self w)) by lia.
    rewrite (simple_bind_run _ _ _ _ _ (simple_randint_run rng _ w Hpos)).
    apply IH; simpl; [done|]. by apply Z.mod_pos_bound.
Qed.

Lemma place_safe rng fuel n num w :
  placing (self w) n → 0 ≤ n → 1 ≤ loadCap (self w) →
  0 ≤ num < serversCount (self w) →
  simple_post
    (λ _ w', placing (self w') (n + 1) ∧
             serversCount (self w') = serversCount (self w) ∧
             objectsCount (self w') = objectsCount (self w) ∧
             loadCap (self w') = loadCap (self w))
    (place rng fuel (n + 1) num w).
Proof.
  intros Hp Hn Hcap Hnum.
  pose proof (find_open_safe rng fuel num w (fullFlag_keys _ _ Hp) Hnum) as K.
  destruct (place rng fuel (n + 1) num w) as [[] w'| |] eqn:E; simpl.
  - by apply (SimpleFacts.place_placing rng fuel n num w w').
  - unfold place in E.
    destruct (find_open rng fuel num w) as [k w1| |] eqn:Ef; simpl in K;
      [|done|by rewrite (simple_bind_oof _ _ _ Ef) in E].
    rewrite (simple_bind_run _ _ _ _ _ Ef) in E.
    apply SimpleFacts.find_open_Ok in Ef as (j & ps & Hself & _ & _ & _ & Hflag).
    destruct (get_is_Some_keys (servers (self w)) k) as [l Hl].
    { rewrite (servers_keys _ _ Hp), <- (fullFlag_keys _ _ Hp).
      by apply (get_Some_in_keys _ _ false). }
    rewrite (simple_bind_run _ _ _ _ _ (simple_lookup_in_run servers k w1 l
               ltac:(by rewrite Hself))) in E.
    unfold mbind at 1, M_bind at 1, modify at 1 in E.
    erewrite simple_bind_run in E;
      [|apply (simple_lookup_in_run servers k _ (l + 1)); simpl;
        apply DictFacts.get_set_eq].
    unfold mbind at 1, M_bind at 1, get_self at 1 in E.
    simpl in E. by case_decide.
  - done.
Qed.


Lemma place_all_safe rng fuel : ∀ nums n w,
  placing (self w) n → 0 ≤ n → 1 ≤ loadCap (self w) →
  Forall (λ num, 0 ≤ num < serversCount (self w)) nums →
  simple_post (λ _ _, True) (place_all rng fuel n nums w).
Proof.
  induction nums as [|num nums IH]; intros n w Hp Hn Hcap Hnums; [done|].
  apply Forall_cons in Hnums as [Hnum Hnums].
  cbn [place_all].
  pose proof (place_safe rng fuel n num w Hp Hn Hcap Hnum) as K.
  destruct (place rng fuel (n + 1) num w) as [[] w1| |] eqn:E; simpl in K;
    [|done|by rewrite (simple_bind_oof _ _ _ E)].
  rewrite (simple_bind_run _ _ _ _ _ E).
  destruct K as (Hp1 & Hsc & _ & Hlc).
  apply IH; [done|lia|by rewrite Hlc|by rewrite Hsc].
Qed.

Lemma start_safe rng fuel w :
  0 < serversCount (self w) → 0 ≤ objectsCount (self w) →
  1 ≤ loadCap (self w) →
  simple_post (λ _ _, True) (start rng fuel w).
Proof.
  intros Hsc Hoc Hcap. unfold start.
  erewrite simple_bind_run; [|reflexivity].
  erewrite simple_bind_run; [|reflexivity].
  erewrite simple_bind_run; [|reflexivity].
  erewrite simple_bind_run; [|reflexivity].
  erewrite simple_bind_run; [|reflexivity].
  erewrite simple_bind_run; [|reflexivity].
  simpl.
  unfold mbind, M_bind, randints. simpl.
  case_decide as Hk.
  - done.
  - rewrite decide_True by lia.
    apply place_all_safe; simpl; [|done|done|].
    + split; simpl.
      * by rewrite DictFacts.keys_of_keys.
      * by rewrite DictFacts.keys_of_keys.
      * unfold sum_loads. simpl. apply sum_of_keys_zero.
      * intros k l. rewrite !DictFacts.get_of_keys. case_decide; [|done].
        intros [= <-]. split; [lia|]. f_equal. symmetry.
        apply bool_decide_eq_false_2. lia.
      * intros k. rewrite DictFacts.get_of_keys. by case_decide.
    + apply Forall_fmap, Forall_forall. intros j _. simpl.
      by apply Z.mod_pos_bound.
Qed.

Lemma try_loop_safe rng fuel : ∀ num c w,
  Dict.keys (fullFlag (self w)) = range (serversCount (self w)) →
  0 ≤ num < serversCount (self w) →
  simple_post (λ _ _, True) (try_loop rng fuel num c w).
Proof.
  induction fuel as [|fuel IH]; intros num c w Hk Hnum.
  - simpl. destruct (get_is_Some_keys (fullFlag (self w)) num) as [f Hf].
    { rewrite Hk. apply range_elem. lia. }
    rewrite (simple_bind_run _ _ _ _ _ (simple_lookup_in_run fullFlag num w f Hf)).
    by destruct f.
  - cbn [try_loop].
    destruct (get_is_Some_keys (fullFlag (self w)) num) as [f Hf].
    { rewrite Hk. apply range_elem. lia. }
    rewrite (simple_bind_run _ _ _ _ _ (simple_lookup_in_run fullFlag num w f Hf)).
    destruct f; [|done].
    rewrite (simple_bind_run _ _ _ _ _ (eq_refl : get_self w = Ok (self w) w)).
    assert (Hpos : 0 < serversCount (self w)) by lia.
    rewrite (simple_bind_run _ _ _ _ _ (simple_randint_run rng _ w Hpos)).
    apply IH; simpl; [done|]. by apply Z.mod_pos_bound.
Qed.

End SimpleRuns.

(** X16.  [RandomJumpCHSimple.start] with servers, a non-negative number of
    objects and a load cap of at least 1 raises nothing, on whatever random
    stream.  When the objects outnumber what the servers can hold
    ([serversCount * loadCap < objectsCount], which a negative [epsilon]
    gives), it never completes: the loop that looks for a server that is
    not full does not end.  After a completed [start], [serversToTry]
    raises nothing either. *)
Theorem X16_simple_start_runs (rng : nat → Z) (fuel : nat) (w : Simple.world)
    (Hsc : 0 < Simple.serversCount (Simple.self w))
    (Hoc : 0 ≤ Simple.objectsCount (Simple.self w))
    (Hcap : 1 ≤ Simple.loadCap (Simple.self w)) :
  (∀ e w0, Simple.start rng fuel w ≠ Simple.Raise e w0) ∧
  (Simple.serversCount (Simple.self w) * Simple.loadCap (Simple.self w)
     < Simple.objectsCount (Simple.self w) →
   Simple.start rng fuel w = Simple.OutOfFuel) ∧
  (∀ w', Simple.start rng fuel w = Simple.Ok tt w' →
     ∀ rng' fuel' e w0,
       Simple.serversToTry rng' fuel' w' ≠ Simple.Raise e w0).
Proof.
  pose proof (SimpleRuns.start_safe rng fuel w Hsc Hoc Hcap) as K.
  split; [|split].
  - intros e w0 E. by rewrite E in K.
  - intros Hbig.
    destruct (Simple.start rng fuel w) as [[] w'| |] eqn:E; [|done|done].
    apply SimpleFacts.start_placing in E as (Hp & Hsc' & _ & Hlc'); [|done].
    apply SimpleFacts.placing_capacity in Hp. rewrite Hsc', Hlc' in Hp. lia.
  - intros w' E rng' fuel' e w0 E'.
    apply SimpleFacts.start_placing in E as ([_ K2 _ _ _] & Hsc' & _); [|done].
    assert (Hpos : 0 < Simple.serversCount (Simple.self w'))
      by (by rewrite Hsc').
    unfold Simple.serversToTry in E'.
    rewrite (SimpleRuns.simple_bind_run _ _ _ _ _
               (eq_refl : Simple.get_self w' = Simple.Ok (Simple.self w') w'))
      in E'.
    rewrite (SimpleRuns.simple_bind_run _ _ _ _ _
               (SimpleRuns.simple_randint_run rng' _ w' Hpos)) in E'.
    pose proof (SimpleRuns.try_loop_safe rng' fuel'
      (rng' (Simple.drawn w') `mod` Simple.serversCount (Simple.self w')) 1
      (Simple.mkWorld (Simple.self w') (S (Simple.drawn w'))) K2) as K'.
    rewrite E' in K'. apply K'. simpl. by apply Z.mod_pos_bound.
Qed.

Lemma X16_simple_start_runs_witness :
  Simple.start Simple.trace_rng 9
    (Simple.mkWorld (Simple.mk 2 1 5 (-1 # 2)%Q 2 None [] []) 0)
  = Simple.OutOfFuel.
Proof.
  apply (X16_simple_start_runs Simple.trace_rng 9
           (Simple.mkWorld (Simple.mk 2 1 5 (-1 # 2)%Q 2 None [] []) 0));
    simpl; lia.
Defined.

(** * The measurements do not raise *)

Lemma slot_full_run num w :
  (∀ x k, array_get (self w) x = Some k → k ≠ -1 →
          ∃ f, Dict.get k (fullFlag (self w)) = Some f) →
  0 ≤ num < serversArrayLen (self w) →
  ∃ b, slot_full num w = Ok b w.
Proof.
  intros Hflags Hnum. unfold slot_full.
  pose proof (array_get_in_range (self w) num Hnum) as Hget.
  rewrite (bind_run _ _ _ _ _ (serversArray_at_run num w _ Hget)).
  case_decide as Hv; [|eauto].
  rewrite (bind_run _ _ _ _ _ (serversArray_at_run num w _ Hget)).
  destruct (Hflags num _ Hget Hv) as [f Hf].
  rewrite (lookup_in_run fullFlag _ w f Hf). eauto.
Qed.

Lemma steps_loop_safe rng fuel : ∀ num c w,
  (∀ x k, array_get (self w) x = Some k → k ≠ -1 →
          ∃ f, Dict.get k (fullFlag (self w)) = Some f) →
  0 ≤ num < serversArrayLen (self w) →
  post True False (λ _ w', self w' = self w) (steps_loop rng fuel num c w).
Proof.
  induction fuel as [|fuel IH]; intros num c w Hflags Hnum.
  - simpl. destruct (slot_unusable_run num w Hflags Hnum) as [b Hb].
    rewrite (bind_run _ _ _ _ _ Hb). by destruct b.
  - cbn [steps_loop]. destruct (slot_unusable_run num w Hflags Hnum) as [b Hb].
    rewrite (bind_run _ _ _ _ _ Hb). destruct b; [|done].
    rewrite (bind_run _ _ _ _ _ (eq_refl : get_self w = Ok (self w) w)).
    assert (Hlen : 0 < serversArrayLen (self w)) by lia.
    rewrite (bind_run _ _ _ _ _ (randint_run rng _ w Hlen)).
    apply (IH _ _ (mkWorld (self w) (S (drawn w)) (searches w))); simpl;
      [done|]. by apply Z.mod_pos_bound.
Qed.

Lemma tried_loop_safe rng fuel : ∀ num c w,
  (∀ x k, array_get (self w) x = Some k → k ≠ -1 →
          ∃ f, Dict.get k (fullFlag (self w)) = Some f) →
  0 ≤ num < serversArrayLen (self w) →
  post True False (λ _ w', self w' = self w) (tried_loop rng fuel num c w).
Proof.
  induction fuel as [|fuel IH]; intros num c w Hflags Hnum.
  - simpl. destruct (slot_unusable_run num w Hflags Hnum) as [b Hb].
    rewrite (bind_run _ _ _ _ _ Hb). by destruct b.
  - cbn [tried_loop]. destruct (slot_unusable_run num w Hflags Hnum) as [b Hb].
    rewrite (bind_run _ _ _ _ _ Hb). destruct b; [|done].
    rewrite (bind_run _ _ _ _ _ (eq_refl : get_self w = Ok (self w) w)).
    assert (Hlen : 0 < serversArrayLen (self w)) by lia.
    rewrite (bind_run _ _ _ _ _ (randint_run rng _ w Hlen)).
    set (w1 := mkWorld (self w) (S (drawn w)) (searches w)).
    set (num1 := rng (drawn w) `mod` serversArrayLen (self w)).
    assert (Hnum1 : 0 ≤ num1 < serversArrayLen (self w1))
      by (by apply Z.mod_pos_bound).
    destruct (slot_full_run num1 w1 Hflags Hnum1) as [f Hf].
    rewrite (bind_run _ _ _ _ _ Hf).
    by apply (IH _ _ w1).
Qed.

(** X17.  In a run the two counting measurements raise nothing and change
    nothing: [assignObjectTotalSteps] and [assignObjectServersTried] either
    return, leaving the object as it was, or go on probing, on whatever
    random stream. *)
Theorem X17_measurements_safe (w : world) (Hr : reachable w)
    (rng : nat → Z) (fuel : nat) :
  (∀ e w0, assignObjectTotalSteps rng fuel w ≠ Raise e w0) ∧
  (∀ e w0, assignObjectServersTried rng fuel w ≠ Raise e w0) ∧
  (∀ c w', assignObjectTotalSteps rng fuel w = Ok c w' → self w' = self w) ∧
  (∀ c w', assignObjectServersTried rng fuel w = Ok c w' → self w' = self w).
Proof.
  pose proof (reachable_sound w Hr) as Hs.
  assert (Hlen : 0 < serversArrayLen (self w))
    by (destruct Hs as (_ & _ & Hw); apply (array_nonempty _ Hw)).
  pose proof (sound_flags _ Hs) as Hflags.
  assert (Hnum : 0 ≤ rng (drawn w) `mod` serversArrayLen (self w)
                 < serversArrayLen (self w)) by (by apply Z.mod_pos_bound).
  assert (K1 : post True False (λ _ w', self w' = self w)
                 (assignObjectTotalSteps rng fuel w)).
  { unfold assignObjectTotalSteps.
    rewrite (bind_run _ _ _ _ _ (eq_refl : get_self w = Ok (self w) w)).
    rewrite (bind_run _ _ _ _ _ (randint_run rng _ w Hlen)).
    by apply (steps_loop_safe rng fuel _ 1
                (mkWorld (self w) (S (drawn w)) (searches w))). }
  assert (K2 : post True False (λ _ w', self w' = self w)
                 (assignObjectServersTried rng fuel w)).
  { unfold assignObjectServersTried.
    rewrite (bind_run _ _ _ _ _ (eq_refl : get_self w = Ok (self w) w)).
    rewrite (bind_run _ _ _ _ _ (randint_run rng _ w Hlen)).
    by apply (tried_loop_safe rng fuel _ 1
                (mkWorld (self w) (S (drawn w)) (searches w))). }
  split; [|split; [|split]].
  - intros e w0 E. by rewrite E in K1.
  - intros e w0 E. by rewrite E in K2.
  - intros c w' E. by rewrite E in K1.
  - intros c w' E. by rewrite E in K2.
Qed.

Lemma X17_measurements_safe_witness :
  assignObjectTotalSteps trace_rng 5 trace_w5 ≠ Raise KeyError trace_w5 ∧
  assignObjectServersTried trace_rng 5 trace_w5 ≠ Raise KeyError trace_w5.
Proof.
  pose proof (X17_measurements_safe trace_w5 trace_w5_reachable trace_rng 5)
    as (H1 & H2 & _).
  split; [apply H1 | apply H2].
Defined.
